(** * MCP connection manager and tool-orchestration loop: a shallow embedding

    The development follows three source files of the chat client:

    - [src/lib/mcpClient.ts]  (class [MCPClientManager], current revision),
    - [src/lib/imageStorage.ts]  ([uploadImageToStorage]),
    - the chat [POST] handler with the function-calling loop
      ([convertMCPToolToFunctionDeclaration], [formatToolResult], [POST]).

    JavaScript code with side effects is written in a small state-and-exception
    monad [M] over a [World] that holds the process-wide client table, a
    counter of interactions with the outside and the trace of those
    interactions.  Everything the program does not define itself (the MCP SDK
    client, the model provider, the object store, the clock) is an oracle of an
    [Environment]; every statement below is for an arbitrary environment.

    Calls of [console.warn] and [console.error] are events of the trace.
    Calls of [console.log], and the reads of the clock that only feed them,
    are left out: they influence nothing else. *)

From Stdlib Require Import ZArith Lia Ascii.
From stdpp Require Import base option list gmap fin_maps strings pretty.

Set Default Proof Using "Type".

(** ** JavaScript values used by the program *)

(** Thrown values.  The program only ever reads [.message]. *)
Inductive exn : Type :=
  | JsError (message : string)
  | JsTypeError (message : string).

Definition exn_message (e : exn) : string :=
  match e with JsError m | JsTypeError m => m end.

(** [error instanceof Error ? error.message : String(error)]: both
    constructors are instances of [Error]. *)
Definition error_text (e : exn) : string := exn_message e.

(** JSON data, as carried by [Record<string, unknown>]. *)
#[local] Unset Elimination Schemes.
Inductive JSON : Type :=
  | JNull
  | JBool (b : bool)
  | JNumber (z : Z)
  | JString (s : string)
  | JArray (items : list JSON)
  | JObject (fields : list (string * JSON)).
#[local] Set Elimination Schemes.

Definition Args : Type := list (string * JSON).

(** Truthiness of an optional string: [undefined] and [""] are falsy. *)
Definition truthy (o : option string) : bool :=
  match o with
  | Some s => bool_decide (s ≠ "")
  | None => false
  end.

(** [a || b] on an optional string with a string default. *)
Definition or_default (o : option string) (d : string) : string :=
  match o with
  | Some s => if decide (s = "") then d else s
  | None => d
  end.

(** ** Types of [@/app/types] *)

Record MCPServerConfig : Type := {
  cfg_id : string;
  cfg_name : string;
  cfg_transport : string;
  cfg_description : option string;
  cfg_command : option string;
  cfg_args : option (list string);
  cfg_env : option (gmap string (option string));
  cfg_url : option string;
  cfg_headers : option (gmap string string);
}.

(** One property of an input schema, read as [{ type?, description? }]. *)
Record SchemaProperty : Type := {
  prop_type : option string;
  prop_description : option string;
}.

Record InputSchema : Type := {
  schema_type : string;
  schema_properties : option (gmap string SchemaProperty);
  schema_required : option (list string);
}.

Record MCPTool : Type := {
  tool_name : string;
  tool_description : option string;
  tool_inputSchema : InputSchema;
}.

(** A content item of [MCPToolCallResult]. *)
Record ContentItem : Type := {
  item_type : string;
  item_text : option string;
  item_data : option string;
  item_mimeType : option string;
  item_url : option string;
}.

Record MCPToolCallResult : Type := {
  res_content : list ContentItem;
  res_isError : option bool;
}.

Inductive ToolCallStatus : Type := pending | running | success | error.

Record ToolCall : Type := {
  tc_id : string;
  tc_serverId : string;
  tc_serverName : string;
  tc_toolName : string;
  tc_args : Args;
  tc_status : ToolCallStatus;
  tc_result : option MCPToolCallResult;
  tc_error : option string;
  tc_startTime : option Z;
  tc_endTime : option Z;
}.

Record EnabledTool : Type := {
  et_serverId : string;
  et_serverName : string;
  et_toolName : string;
  et_description : option string;
}.

Record Message : Type := {
  msg_role : string;
  msg_content : string;
}.

Record ChatRequest : Type := {
  req_messages : list Message;
  req_enabledTools : option (list EnabledTool);
  req_mcpEnabled : option bool;
}.

(** ** Objects of the MCP SDK *)

Inductive Transport : Type :=
  | StdioClientTransport (command : string) (args : list string)
      (env : gmap string string)
  | SSEClientTransport (url : string)
  | StreamableHTTPClientTransport (url : string).

(** [new Client({name, version}, {capabilities: {}})]: an object with an
    identity of its own. *)
Record Client : Type := {
  client_serial : nat;
  client_name : string;
  client_version : string;
}.

Record MCPClientInstance : Type := {
  inst_client : Client;
  inst_transport : Transport;
  inst_config : MCPServerConfig;
}.

(** Results as they come off the wire in [client.callTool]. *)
Record WireResource : Type := {
  wres_text : option string;
  wres_mimeType : option string;
}.

Record WireContent : Type := {
  wire_type : string;
  wire_text : option string;
  wire_data : option string;
  wire_mimeType : option string;
  wire_resource : option WireResource;
}.

Record WireToolResult : Type := {
  wire_content : list WireContent;
  wire_isError : option bool;
}.

(** ** The model provider's chat session *)

Record FunctionCall : Type := {
  fc_name : string;
  fc_args : Args;
}.

(** The payload of a function response: [{ result }] or [{ error }]. *)
Inductive FunctionResult : Type :=
  | ResultText (result : string)
  | ErrorText (error : string).

Record FunctionResponse : Type := {
  fr_name : string;
  fr_response : FunctionResult;
}.

Inductive ChatInput : Type :=
  | UserText (text : string)
  | FunctionResponses (parts : list FunctionResponse).

Record HistoryEntry : Type := {
  hist_role : string;
  hist_text : string;
}.

Record GeminiProperty : Type := {
  gprop_type : string;
  gprop_description : option string;
}.

Record GeminiParameters : Type := {
  gpar_type : string;
  gpar_properties : gmap string GeminiProperty;
  gpar_required : list string;
}.

Record GeminiFunctionDeclaration : Type := {
  decl_name : string;
  decl_description : string;
  decl_parameters : GeminiParameters;
}.

(** A chat object: what it was started with and what was sent through it. *)
Record ChatSession : Type := {
  chat_model : string;
  chat_tools : option (list GeminiFunctionDeclaration);
  chat_history : list HistoryEntry;
  chat_sent : list ChatInput;
}.

(** [result.response]: both accessors of the SDK may throw. *)
Record GenerateContentResponse : Type := {
  functionCalls : exn + option (list FunctionCall);
  text : exn + string;
}.

(** ** The world *)

Inductive Event : Type :=
  | EvClientConnect (c : Client) (t : Transport)
  | EvClientClose (c : Client)
  | EvListTools (c : Client)
  | EvCallTool (c : Client) (name : string) (args : Args)
  | EvSendMessage (input : ChatInput)
  | EvStorageUpload (fileName : string) (contentType : string)
  | EvConsoleWarn (message : string)
  | EvConsoleError (message : string).

Record World : Type := {
  ticks : nat;
  clients : gmap string MCPClientInstance;
  trace : list Event;
}.

Record StorageUploadResult : Type := {
  upload_data : option string;
  upload_error : option string;
}.

(** Everything outside the program.  An oracle that stands for an awaited
    call takes the number of interactions that came before it, so the same
    request may be answered differently at different times; [inl] is a
    rejected promise (or a throw), [inr] a resolved one.  [Model_startChat]
    is the synchronous check that the SDK makes of the parameters of a chat
    (its history above all) before any message is sent: the error it throws,
    if any. *)
Record Environment : Type := {
  process_env : gmap string (option string);
  Date_now : nat → Z;
  Math_random_suffix : nat → string;
  URL_valid : string → bool;
  Buffer_from_base64 : string → string;
  Client_connect : nat → Client → Transport → option exn;
  Client_close : nat → Client → option exn;
  Client_listTools : nat → Client → exn + list MCPTool;
  Client_callTool : nat → Client → string → Args → exn + WireToolResult;
  Model_startChat : ChatSession → option exn;
  Chat_sendMessage : nat → ChatSession → ChatInput → exn + GenerateContentResponse;
  Storage_upload : nat → string → string → string → exn + StorageUploadResult;
  Storage_getPublicUrl : string → option string;
}.

(** ** The monad of effectful code *)

Inductive outcome (A : Type) : Type :=
  | Return (a : A)
  | Throw (e : exn)
  | OutOfFuel.
Arguments Return {A} a.
Arguments Throw {A} e.
Arguments OutOfFuel {A}.

Definition M (A : Type) : Type := World → outcome A * World.

#[global] Instance M_ret : MRet M := λ A a w, (Return a, w).

#[global] Instance M_bind : MBind M := λ A B f m w,
  match m w with
  | (Return a, w') => f a w'
  | (Throw e, w') => (Throw e, w')
  | (OutOfFuel, w') => (OutOfFuel, w')
  end.

#[global] Instance M_throw : MThrow exn M := λ A e w, (Throw e, w).

(** [try { body } catch (e) { handler e }] *)
Definition try_catch {A} (body : M A) (handler : exn → M A) : M A := λ w,
  match body w with
  | (Throw e, w') => handler e w'
  | r => r
  end.

Definition out_of_fuel {A} : M A := λ w, (OutOfFuel, w).

Definition of_result {A} (r : exn + A) : M A :=
  match r with
  | inl e => mthrow e
  | inr a => mret a
  end.

(** The next interaction number. *)
Definition tick : M nat := λ w,
  (Return (ticks w),
   {| ticks := S (ticks w); clients := clients w; trace := trace w |}).

Definition emit (ev : Event) : M unit := λ w,
  (Return tt,
   {| ticks := ticks w; clients := clients w; trace := trace w ++ [ev] |}).

Definition get_clients : M (gmap string MCPClientInstance) := λ w,
  (Return (clients w), w).

Definition put_clients (c : gmap string MCPClientInstance) : M unit := λ w,
  (Return tt, {| ticks := ticks w; clients := c; trace := trace w |}).

Definition console_warn (message : string) : M unit := emit (EvConsoleWarn message).
Definition console_error (message : string) : M unit := emit (EvConsoleError message).

(** [for (const x of xs) { acc = step acc x }] *)
Fixpoint for_of {A S} (step : S → A → M S) (xs : list A) (acc : S) : M S :=
  match xs with
  | [] => mret acc
  | x :: xs' => acc' ← step acc x; for_of step xs' acc'
  end.

(** Promises that were all started, awaited until each one has settled. *)
Fixpoint all_settled {A} (ps : list (M A)) : M (list (exn + A)) :=
  match ps with
  | [] => mret []
  | p :: ps' =>
      r ← try_catch (a ← p; mret (inr a)) (λ e, mret (inl e));
      rs ← all_settled ps';
      mret (r :: rs)
  end.

Fixpoint first_rejection {A} (rs : list (exn + A)) : option exn :=
  match rs with
  | [] => None
  | inl e :: _ => Some e
  | inr _ :: rs' => first_rejection rs'
  end.

Fixpoint fulfilled {A} (rs : list (exn + A)) : list A :=
  match rs with
  | [] => []
  | inl _ :: rs' => fulfilled rs'
  | inr a :: rs' => a :: fulfilled rs'
  end.

(** [await Promise.all(ps)] for promises that are already running: every
    one of them runs to its end whatever the others do; the aggregate rejects
    when one of them rejected.  Which rejection is reported depends on timing
    in the runtime; the model reports the first in the order of the array. *)
Definition Promise_all {A} (ps : list (M A)) : M (list A) :=
  rs ← all_settled ps;
  match first_rejection rs with
  | Some e => mthrow e
  | None => mret (fulfilled rs)
  end.

(** ** [src/lib/mcpClient.ts]: class [MCPClientManager] *)

Section MCPClientManager.
Variable E : Environment.

(** The second step of the stdio branch of [createTransport]:
    [Object.keys(envRaw).forEach] keeps the entries whose value is neither
    [undefined] nor the empty string. *)
Definition stripEnv (envRaw : gmap string (option string)) : gmap string string :=
  map_fold
    (λ key value env,
       match value with
       | Some v => if decide (v = "") then env else <[key := v]> env
       | None => env
       end)
    ∅ envRaw.

(** [{ ...process.env, ...(config.env || {}) }]: the configuration's
    entries win over the ambient ones. *)
Definition envRaw (config : MCPServerConfig) : gmap string (option string) :=
  default ∅ (cfg_env config) ∪ process_env E.

(** [new URL(url)] throws a [TypeError] on a string that is no URL. *)
Definition new_URL (url : string) : exn + string :=
  if URL_valid E url then inr url else inl (JsTypeError "Invalid URL").

Definition createTransport (config : MCPServerConfig) : exn + Transport :=
  if decide (cfg_transport config = "stdio") then
    if negb (truthy (cfg_command config)) then
      inl (JsError "STDIO transport requires a command")
    else
      inr (StdioClientTransport
             (default "" (cfg_command config))
             (default [] (cfg_args config))
             (stripEnv (envRaw config)))
  else if decide (cfg_transport config = "sse") then
    if negb (truthy (cfg_url config)) then
      inl (JsError "SSE transport requires a URL")
    else
      match new_URL (default "" (cfg_url config)) with
      | inl e => inl e
      | inr u => inr (SSEClientTransport u)
      end
  else if decide (cfg_transport config = "streamable-http") then
    if negb (truthy (cfg_url config)) then
      inl (JsError "Streamable HTTP transport requires a URL")
    else
      match new_URL (default "" (cfg_url config)) with
      | inl e => inl e
      | inr u => inr (StreamableHTTPClientTransport u)
      end
  else
    inl (JsError ("Unsupported transport type: " +:+ cfg_transport config)).

(** [new Client({ name: "mcp-client-app", version: "1.0.0" }, ...)] *)
Definition new_Client : M Client :=
  n ← tick;
  mret {| client_serial := n;
          client_name := "mcp-client-app";
          client_version := "1.0.0" |}.

(** [await client.connect(transport)] *)
Definition client_connect (c : Client) (t : Transport) : M unit :=
  n ← tick;
  emit (EvClientConnect c t);;
  match Client_connect E n c t with
  | Some e => mthrow e
  | None => mret tt
  end.

(** [await client.close()] *)
Definition client_close (c : Client) : M unit :=
  n ← tick;
  emit (EvClientClose c);;
  match Client_close E n c with
  | Some e => mthrow e
  | None => mret tt
  end.

Definition disconnect (serverId : string) : M unit :=
  table ← get_clients;
  match table !! serverId with
  | Some instance =>
      client_close (inst_client instance);;
      table' ← get_clients;
      put_clients (delete serverId table')
  | None => mret tt
  end.

Definition connect (config : MCPServerConfig) : M unit :=
  table ← get_clients;
  (if bool_decide (is_Some (table !! cfg_id config))
   then disconnect (cfg_id config)
   else mret tt);;
  transport ← of_result (createTransport config);
  client ← new_Client;
  try_catch
    (client_connect client transport;;
     table' ← get_clients;
     put_clients
       (<[cfg_id config :=
            {| inst_client := client;
               inst_transport := transport;
               inst_config := config |}]> table'))
    (λ error,
       console_error "[MCP Client] 연결 실패:";;
       try_catch (client_close client) (λ _, mret tt);;
       mthrow error).

(** [Array.from(this.clients.keys())].  A JavaScript [Map] lists its keys in
    the order of insertion; the table is a finite map, which lists them in an
    order of its own.  No statement below depends on that order. *)
Definition getConnectedServerIds : M (list string) :=
  table ← get_clients;
  mret (map fst (map_to_list table)).

Definition disconnectAll : M unit :=
  table ← get_clients;
  Promise_all (map (λ id, disconnect id) (map fst (map_to_list table)));;
  mret tt.

Definition isConnected (serverId : string) : M bool :=
  table ← get_clients;
  mret (bool_decide (is_Some (table !! serverId))).

Definition getClient (serverId : string) : M Client :=
  table ← get_clients;
  match table !! serverId with
  | None => mthrow (JsError ("Server " +:+ serverId +:+ " is not connected"))
  | Some instance => mret (inst_client instance)
  end.

Definition listTools (serverId : string) : M (list MCPTool) :=
  client ← getClient serverId;
  n ← tick;
  emit (EvListTools client);;
  tools ← of_result (Client_listTools E n client);
  mret (map (λ tool,
               {| tool_name := tool_name tool;
                  tool_description := tool_description tool;
                  tool_inputSchema := tool_inputSchema tool |}) tools).

(** The callback of [result.content.map] in [callTool].  Reading
    [.text] of a missing [resource] is a [TypeError]. *)
Definition normalizeContent (c : WireContent) : exn + ContentItem :=
  if decide (wire_type c = "text") then
    inr {| item_type := "text"; item_text := wire_text c;
           item_data := None; item_mimeType := None; item_url := None |}
  else if decide (wire_type c = "image") then
    inr {| item_type := "image"; item_text := None;
           item_data := wire_data c; item_mimeType := wire_mimeType c;
           item_url := None |}
  else if decide (wire_type c = "resource") then
    match wire_resource c with
    | Some r =>
        inr {| item_type := "resource"; item_text := wres_text r;
               item_data := None; item_mimeType := wres_mimeType r;
               item_url := None |}
    | None =>
        inl (JsTypeError "Cannot read properties of undefined (reading 'text')")
    end
  else
    inr {| item_type := wire_type c; item_text := None;
           item_data := None; item_mimeType := None; item_url := None |}.

(** [xs.map(f)] for a callback that may throw: the first throw ends it. *)
Fixpoint map_throwing {A B} (f : A → exn + B) (xs : list A) : exn + list B :=
  match xs with
  | [] => inr []
  | x :: xs' =>
      match f x with
      | inl e => inl e
      | inr y =>
          match map_throwing f xs' with
          | inl e => inl e
          | inr ys => inr (y :: ys)
          end
      end
  end.

Definition callTool (serverId toolName : string) (args : Args)
  : M MCPToolCallResult :=
  client ← getClient serverId;
  n ← tick;
  emit (EvCallTool client toolName args);;
  result ← of_result (Client_callTool E n client toolName args);
  content ← of_result (map_throwing normalizeContent (wire_content result));
  mret {| res_content := content; res_isError := wire_isError result |}.

End MCPClientManager.

(** ** [src/lib/imageStorage.ts] *)

Section ImageStorage.
Variable E : Environment.

(** The bucket that [Storage_upload] and [Storage_getPublicUrl] stand for. *)
Definition BUCKET_NAME : string := "chart-image".

Definition lower_ascii (c : ascii) : ascii :=
  let n := Ascii.nat_of_ascii c in
  if bool_decide (65 ≤ n ≤ 90) then Ascii.ascii_of_nat (n + 32) else c.

(** [s.toLowerCase()].  Strings are sequences of bytes here and only the
    ASCII capitals are mapped; a character outside ASCII keeps its bytes.
    For the only use of the function, a comparison with keys that are in
    ASCII and have no [k], this makes no difference: the lower case of a
    string with a character outside ASCII still has a character outside
    ASCII, or a [k] in the place of a Kelvin sign, and so is none of the
    keys either way. *)
Fixpoint toLowerCase (s : string) : string :=
  match s with
  | EmptyString => EmptyString
  | String c s' => String (lower_ascii c) (toLowerCase s')
  end.

(** What a read of the object literal [mimeToExt] can give: a string of
    the table, or a value that the literal inherits from [Object.prototype].
    The key is in lower case, so of the inherited names only [constructor]
    and [__proto__] can be read. *)
Inductive TableValue : Type :=
  | OwnString (s : string)
  | ObjectConstructor
  | ObjectPrototype.

(** [mimeToExt[key]]; [None] is [undefined]. *)
Definition mimeToExt (key : string) : option TableValue :=
  if decide (key = "image/png") then Some (OwnString "png")
  else if decide (key = "image/jpeg") then Some (OwnString "jpg")
  else if decide (key = "image/jpg") then Some (OwnString "jpg")
  else if decide (key = "image/gif") then Some (OwnString "gif")
  else if decide (key = "image/webp") then Some (OwnString "webp")
  else if decide (key = "image/svg+xml") then Some (OwnString "svg")
  else if decide (key = "constructor") then Some ObjectConstructor
  else if decide (key = "__proto__") then Some ObjectPrototype
  else None.

(** The text of a table value inside a template literal. *)
Definition String_of (v : TableValue) : string :=
  match v with
  | OwnString s => s
  | ObjectConstructor => "function Object() { [native code] }"
  | ObjectPrototype => "[object Object]"
  end.

(** [mimeToExt[mimeType.toLowerCase()] || 'png']: every value that the
    table can give is truthy, so the default is taken for [undefined]
    only. *)
Definition getExtensionFromMimeType (mimeType : string) : TableValue :=
  default (OwnString "png") (mimeToExt (toLowerCase mimeType)).

Definition generateFileName (mimeType : string) : M string :=
  n ← tick;
  let timestamp := Date_now E n in
  let extension := getExtensionFromMimeType mimeType in
  mret (pretty timestamp +:+ "." +:+ String_of extension).

(** [s.split(',')]. *)
Fixpoint split_comma (s : string) : list string :=
  match s with
  | EmptyString => [EmptyString]
  | String c s' =>
      if decide (c = ","%char) then EmptyString :: split_comma s'
      else
        match split_comma s' with
        | [] => [String c EmptyString]
        | piece :: pieces => String c piece :: pieces
        end
  end.

(** [base64Data.includes(',') ? base64Data.split(',')[1] : base64Data] *)
Definition base64Payload (base64Data : string) : string :=
  match split_comma base64Data with
  | _ :: second :: _ => second
  | _ => base64Data
  end.

Definition uploadImageToStorage (base64Data mimeType : string) : M string :=
  try_catch
    (let base64String := base64Payload base64Data in
     let buffer := Buffer_from_base64 E base64String in
     fileName ← generateFileName mimeType;
     n ← tick;
     emit (EvStorageUpload fileName mimeType);;
     r ← of_result (Storage_upload E n fileName buffer mimeType);
     match upload_error r with
     | Some message =>
         console_error "이미지 업로드 오류:";;
         mthrow (JsError ("이미지 업로드 실패: " +:+ message))
     | None =>
         match upload_data r with
         | None =>
             mthrow (JsError "이미지 업로드 실패: 데이터가 반환되지 않았습니다.")
         | Some _ =>
             if truthy (Storage_getPublicUrl E fileName)
             then mret (default "" (Storage_getPublicUrl E fileName))
             else mthrow (JsError "공개 URL 생성 실패")
         end
     end)
    (λ error,
       console_error "이미지 업로드 중 오류 발생:";;
       mthrow error).

End ImageStorage.

(** ** The chat route: schema bridge, result formatting and [POST] *)

Record ToolInfo : Type := {
  ti_serverId : string;
  ti_toolName : string;
  ti_serverName : string;
}.

Inductive ResponseBody : Type :=
  | ErrorBody (message : string)
  | ChatBody (content : string) (toolCalls : option (list ToolCall)).

Record HttpResponse : Type := {
  status : nat;
  body : ResponseBody;
}.

(** The loop variables of the function-calling loop. *)
Record LoopState : Type := {
  ls_iterationCount : nat;
  ls_chat : ChatSession;
  ls_response : GenerateContentResponse;
  ls_toolCalls : list ToolCall;
  ls_finalResponse : string;
}.

Definition newline : string := String "010"%char EmptyString.

Definition maxIterations : nat := 10.

Definition truncationNote : string := "도구 호출이 너무 많아 중단되었습니다.".

(** [`${serverId}__${tool.name}`] *)
Definition functionName (serverId toolName : string) : string :=
  serverId +:+ "__" +:+ toolName.

Definition schemaType (prop : SchemaProperty) : string :=
  if bool_decide (prop_type prop = Some "number" ∨ prop_type prop = Some "integer")
  then "NUMBER"
  else if decide (prop_type prop = Some "boolean") then "BOOLEAN"
  else if decide (prop_type prop = Some "array") then "ARRAY"
  else if decide (prop_type prop = Some "object") then "OBJECT"
  else "STRING".

Definition convertMCPToolToFunctionDeclaration (tool : MCPTool) (serverId : string)
  : GeminiFunctionDeclaration :=
  let properties : gmap string GeminiProperty :=
    match schema_properties (tool_inputSchema tool) with
    | Some props =>
        (λ prop, {| gprop_type := schemaType prop;
                    gprop_description := prop_description prop |}) <$> props
    | None => ∅
    end in
  {| decl_name := functionName serverId (tool_name tool);
     decl_description :=
       or_default (tool_description tool) ("MCP Tool: " +:+ tool_name tool);
     decl_parameters :=
       {| gpar_type := "OBJECT";
          gpar_properties := properties;
          gpar_required := default [] (schema_required (tool_inputSchema tool)) |} |}.

(** [!!result.isError] *)
Definition isError (result : MCPToolCallResult) : bool :=
  default false (res_isError result).

Definition formatToolResult (result : MCPToolCallResult) : string :=
  if isError result then
    "Error: " +:+
      String.concat newline
        (map (λ c, or_default (item_text c) (item_type c)) (res_content result))
  else
    String.concat newline
      (map (λ c,
              if bool_decide (item_type c = "text") && truthy (item_text c)
              then default "" (item_text c)
              else if decide (item_type c = "image") then "[Image data]"
              else if decide (item_type c = "resource")
                   then or_default (item_text c) "[Resource]"
              else "[" +:+ item_type c +:+ "]")
         (res_content result)).

Section ChatRoute.
Variable E : Environment.

(** The body of the [for] loop over [enabledTools]. *)
Definition registerTool
    (acc : list GeminiFunctionDeclaration * gmap string ToolInfo)
    (enabledTool : EnabledTool)
  : M (list GeminiFunctionDeclaration * gmap string ToolInfo) :=
  try_catch
    (connected ← isConnected (et_serverId enabledTool);
     if negb connected then
       console_warn ("⚠️ [API] 서버 " +:+ et_serverId enabledTool +:+
                     "가 연결되어 있지 않습니다.");;
       mret acc
     else
       tools ← listTools E (et_serverId enabledTool);
       match
         find (λ t, bool_decide (tool_name t = et_toolName enabledTool)) tools
       with
       | Some tool =>
           let funcDecl :=
             convertMCPToolToFunctionDeclaration tool (et_serverId enabledTool) in
           mret (acc.1 ++ [funcDecl],
                 <[decl_name funcDecl :=
                     {| ti_serverId := et_serverId enabledTool;
                        ti_toolName := et_toolName enabledTool;
                        ti_serverName := et_serverName enabledTool |}]> acc.2)
       | None => mret acc
       end)
    (λ _,
       console_error ("❌ [API] 도구 설정 오류 (" +:+ et_toolName enabledTool +:+ "):");;
       mret acc).

(** [if (mcpEnabled && enabledTools && enabledTools.length > 0) { for ... }] *)
Definition registerTools (req : ChatRequest)
  : M (list GeminiFunctionDeclaration * gmap string ToolInfo) :=
  match req_mcpEnabled req, req_enabledTools req with
  | Some true, Some (et :: ets) => for_of registerTool (et :: ets) ([], ∅)
  | _, _ => mret ([], ∅)
  end.

(** [model.startChat({ history })]: the SDK checks the history when the
    chat object is made, and throws when it does not accept it. *)
Definition startChat (chat : ChatSession) : M unit :=
  match Model_startChat E chat with
  | Some e => mthrow e
  | None => mret tt
  end.

(** [await chat.sendMessage(input)] *)
Definition chat_sendMessage (chat : ChatSession) (input : ChatInput)
  : M (ChatSession * GenerateContentResponse) :=
  n ← tick;
  emit (EvSendMessage input);;
  response ← of_result (Chat_sendMessage E n chat input);
  mret ({| chat_model := chat_model chat;
           chat_tools := chat_tools chat;
           chat_history := chat_history chat;
           chat_sent := chat_sent chat ++ [input] |}, response).

(** The callback of [mcpResult.content.map] in the rehoming block. *)
Definition rehomeImage (contentItem : ContentItem) : M ContentItem :=
  if bool_decide (item_type contentItem = "image") && truthy (item_data contentItem)
  then
    try_catch
      (imageUrl ← uploadImageToStorage E
                    (default "" (item_data contentItem))
                    (or_default (item_mimeType contentItem) "image/png");
       mret {| item_type := item_type contentItem;
               item_text := item_text contentItem;
               item_data := None;
               item_mimeType := item_mimeType contentItem;
               item_url := Some imageUrl |})
      (λ _,
         console_error "❌ [API] 이미지 업로드 실패:";;
         mret contentItem)
  else mret contentItem.

Definition toolCallId (now : Z) (suffix : string) : string :=
  "tool-" +:+ pretty now +:+ "-" +:+ suffix.

(** The body of [for (const functionCall of functionCalls)].  The record
    pushed on [toolCalls] is the object that is completed later, so the
    completion is an update of the list at the position of the push. *)
Definition executeFunctionCall (toolMap : gmap string ToolInfo)
    (acc : list ToolCall * list FunctionResponse) (functionCall : FunctionCall)
  : M (list ToolCall * list FunctionResponse) :=
  match toolMap !! fc_name functionCall with
  | None =>
      console_error ("❌ [API] 알 수 없는 도구: " +:+ fc_name functionCall);;
      mret (acc.1,
            acc.2 ++ [{| fr_name := fc_name functionCall;
                         fr_response := ErrorText "Unknown tool" |}])
  | Some toolInfo =>
      n1 ← tick;
      n2 ← tick;
      n3 ← tick;
      let toolCall :=
        {| tc_id := toolCallId (Date_now E n1) (Math_random_suffix E n2);
           tc_serverId := ti_serverId toolInfo;
           tc_serverName := ti_serverName toolInfo;
           tc_toolName := ti_toolName toolInfo;
           tc_args := fc_args functionCall;
           tc_status := running;
           tc_result := None;
           tc_error := None;
           tc_startTime := Some (Date_now E n3);
           tc_endTime := None |} in
      let index := length acc.1 in
      let toolCalls := acc.1 ++ [toolCall] in
      try_catch
        (mcpResult ← callTool E (ti_serverId toolInfo) (ti_toolName toolInfo)
                       (fc_args functionCall);
         mcpResult ←
           (if negb (isError mcpResult) then
              processedContent ← Promise_all (map rehomeImage (res_content mcpResult));
              mret {| res_content := processedContent;
                      res_isError := res_isError mcpResult |}
            else mret mcpResult);
         n4 ← tick;
         let resultText := formatToolResult mcpResult in
         mret (<[index :=
                   {| tc_id := tc_id toolCall;
                      tc_serverId := tc_serverId toolCall;
                      tc_serverName := tc_serverName toolCall;
                      tc_toolName := tc_toolName toolCall;
                      tc_args := tc_args toolCall;
                      tc_status := if isError mcpResult then error else success;
                      tc_result := Some mcpResult;
                      tc_error := None;
                      tc_startTime := tc_startTime toolCall;
                      tc_endTime := Some (Date_now E n4) |}]> toolCalls,
               acc.2 ++ [{| fr_name := fc_name functionCall;
                            fr_response := ResultText resultText |}]))
        (λ err,
           n4 ← tick;
           console_error ("❌ [API] 도구 실행 오류: " +:+ ti_toolName toolInfo);;
           mret (<[index :=
                     {| tc_id := tc_id toolCall;
                        tc_serverId := tc_serverId toolCall;
                        tc_serverName := tc_serverName toolCall;
                        tc_toolName := tc_toolName toolCall;
                        tc_args := tc_args toolCall;
                        tc_status := error;
                        tc_result := None;
                        tc_error := Some (error_text err);
                        tc_startTime := tc_startTime toolCall;
                        tc_endTime := Some (Date_now E n4) |}]> toolCalls,
                 acc.2 ++ [{| fr_name := fc_name functionCall;
                              fr_response := ErrorText (error_text err) |}]))
  end.

(** [while (iterationCount < maxIterations) { ... }].  [fuel] bounds the
    unfolding of the loop; [POST] gives it [maxIterations], which is shown
    below to be enough. *)
Fixpoint functionCallingLoop (toolMap : gmap string ToolInfo)
    (fuel : nat) (s : LoopState) : M LoopState :=
  if bool_decide (ls_iterationCount s < maxIterations) then
    match fuel with
    | O => out_of_fuel
    | S fuel' =>
        let iterationCount := S (ls_iterationCount s) in
        calls ← of_result (functionCalls (ls_response s));
        match calls with
        | None | Some [] =>
            finalResponse ← of_result (text (ls_response s));
            mret {| ls_iterationCount := iterationCount;
                    ls_chat := ls_chat s;
                    ls_response := ls_response s;
                    ls_toolCalls := ls_toolCalls s;
                    ls_finalResponse := finalResponse |}
        | Some (fc :: fcs) =>
            round ← for_of (executeFunctionCall toolMap) (fc :: fcs)
                      (ls_toolCalls s, []);
            sent ← chat_sendMessage (ls_chat s) (FunctionResponses round.2);
            functionCallingLoop toolMap fuel'
              {| ls_iterationCount := iterationCount;
                 ls_chat := sent.1;
                 ls_response := sent.2;
                 ls_toolCalls := round.1;
                 ls_finalResponse := ls_finalResponse s |}
        end
    end
  else mret s.

(** [if (iterationCount >= maxIterations) { finalResponse = response.text() || "..." }] *)
Definition finalText (s : LoopState) : M string :=
  if bool_decide (maxIterations ≤ ls_iterationCount s) then
    console_warn "⚠️ [API] 최대 반복 횟수 도달";;
    t ← of_result (text (ls_response s));
    mret (if decide (t = "") then truncationNote else t)
  else mret (ls_finalResponse s).

(** [messages.slice(0, -1).map(...)] *)
Definition chatHistory (messages : list Message) : list HistoryEntry :=
  map (λ msg,
         {| hist_role := if decide (msg_role msg = "user") then "user" else "model";
            hist_text := msg_content msg |})
    (removelast messages).

Definition POST (req : ChatRequest) : M HttpResponse :=
  try_catch
    (if negb (truthy (mjoin (process_env E !! "GEMINI_API_KEY"))) then
       console_error "❌ [API] GEMINI_API_KEY가 설정되지 않았습니다.";;
       mret {| status := 500;
               body := ErrorBody "GEMINI_API_KEY가 설정되지 않았습니다." |}
     else
       let userMessage :=
         or_default (msg_content <$> last (req_messages req)) "" in
       if decide (userMessage = "") then
         console_error "❌ [API] 메시지가 없습니다.";;
         mret {| status := 400; body := ErrorBody "메시지가 없습니다." |}
       else
         registered ← registerTools req;
         let functionDeclarations := registered.1 in
         let toolMap := registered.2 in
         let chat :=
           {| chat_model := "gemini-2.0-flash-001";
              chat_tools :=
                if bool_decide (0 < length functionDeclarations)
                then Some functionDeclarations else None;
              chat_history := chatHistory (req_messages req);
              chat_sent := [] |} in
         startChat chat;;
         first ← chat_sendMessage chat (UserText userMessage);
         s ← functionCallingLoop toolMap maxIterations
               {| ls_iterationCount := 0;
                  ls_chat := first.1;
                  ls_response := first.2;
                  ls_toolCalls := [];
                  ls_finalResponse := "" |};
         finalResponse ← finalText s;
         mret {| status := 200;
                 body := ChatBody finalResponse
                           (if bool_decide (0 < length (ls_toolCalls s))
                            then Some (ls_toolCalls s) else None) |})
    (λ _,
       console_error "❌ [API] Chat API Error:";;
       mret {| status := 500; body := ErrorBody "서버 오류가 발생했습니다." |}).

End ChatRoute.

(** Observations on traces. *)
Definition is_sendMessage (ev : Event) : bool :=
  match ev with EvSendMessage _ => true | _ => false end.

(** The number of [chat.sendMessage] calls recorded in a trace. *)
Definition sendMessageCount (tr : list Event) : nat :=
  length (filter (λ ev, is_sendMessage ev = true) tr).

(** ** Vocabulary of the statements *)

(** The table entry that [registerTool] writes for an enabled tool. *)
Definition toolInfoOf (et : EnabledTool) : ToolInfo :=
  {| ti_serverId := et_serverId et;
     ti_toolName := et_toolName et;
     ti_serverName := et_serverName et |}.

(** What [stripEnv] leaves of one entry of the merged environment. *)
Definition keptValue (entry : option (option string)) : option string :=
  match entry with
  | Some (Some v) => if decide (v = "") then None else Some v
  | _ => None
  end.

(** Is [needle] a substring of [s]? *)
Fixpoint contains (needle s : string) : bool :=
  String.prefix needle s ||
  match s with
  | EmptyString => false
  | String _ s' => contains needle s'
  end.

(** Does the string end with the character [_]? *)
Fixpoint ends_with_underscore (s : string) : bool :=
  match s with
  | EmptyString => false
  | String c s' =>
      match s' with
      | EmptyString => bool_decide (c = "_"%char)
      | String _ _ => ends_with_underscore s'
      end
  end.

(** The server ids and the tool names that can take part in a collision of
    bridged names: an id that ends in [_] or contains [__], a tool name that
    starts with [_] or contains [__]. *)
Definition ambiguousId (serverId : string) : bool :=
  ends_with_underscore serverId || contains "__" serverId.

Definition ambiguousTool (toolName : string) : bool :=
  String.prefix "_" toolName || contains "__" toolName.

(** The server lists a tool called [toolName] whenever it is asked. *)
Definition lists (E : Environment) (client : Client) (toolName : string) : Prop :=
  ∀ n, ∃ tools tool,
    Client_listTools E n client = inr tools ∧
    tool ∈ tools ∧ tool_name tool = toolName.

(** [sends k m]: running [m] adds at most [k] calls of [chat.sendMessage]
    to the trace and removes none, whatever the outcome. *)
Definition sends {A} (k : nat) (m : M A) : Prop :=
  ∀ w, sendMessageCount (trace w) ≤ sendMessageCount (trace (m w).2)
                                  ≤ sendMessageCount (trace w) + k.

(** [quiet m]: [m] ends (it never runs out of fuel) and leaves the client
    table as it found it; it may throw.  [total m]: moreover it returns. *)
Definition quiet {A} (m : M A) : Prop :=
  ∀ w, (m w).1 ≠ OutOfFuel ∧ clients (m w).2 = clients w.

Definition total {A} (m : M A) : Prop :=
  ∀ w, (∃ a, (m w).1 = Return a) ∧ clients (m w).2 = clients w.

(** The table only holds entries written for enabled tools, under their
    bridged names, and every declaration offered to the model is in it. *)
Definition table_of (ets : list EnabledTool)
    (acc : list GeminiFunctionDeclaration * gmap string ToolInfo) : Prop :=
  (∀ name info, acc.2 !! name = Some info →
     ∃ et, et ∈ ets ∧
           name = functionName (et_serverId et) (et_toolName et) ∧
           info = toolInfoOf et) ∧
  (∀ decl, decl ∈ acc.1 → is_Some (acc.2 !! decl_name decl)).

(** The number of proposed calls whose name is in the table. *)
Definition resolvedCount (toolMap : gmap string ToolInfo) (calls : list FunctionCall) : nat :=
  length (filter (λ fc, is_Some (toolMap !! fc_name fc)) calls).

(** The world after [n] further reads of the clock or of the random source. *)
Definition elapsed (n : nat) (w : World) : World :=
  {| ticks := n + ticks w; clients := clients w; trace := trace w |}.

(** [{ ...contentItem, data: undefined, url: imageUrl }] *)
Definition rehomed (item : ContentItem) (imageUrl : string) : ContentItem :=
  {| item_type := item_type item;
     item_text := item_text item;
     item_data := None;
     item_mimeType := item_mimeType item;
     item_url := Some imageUrl |}.

(** Does the rehoming block try to upload this item? *)
Definition inlineImage (item : ContentItem) : bool :=
  bool_decide (item_type item = "image") && truthy (item_data item).

(** The upload that the rehoming block starts for an item. *)
Definition uploadOf (E : Environment) (item : ContentItem) : M string :=
  uploadImageToStorage E (default "" (item_data item))
    (or_default (item_mimeType item) "image/png").

(** The number of inline images before position [i] of a content list. *)
Definition inlineImagesBefore (i : nat) (content : list ContentItem) : nat :=
  length (filter (λ item, inlineImage item = true) (take i content)).

(** What the rehoming block makes of the item [old] when its callback runs
    after [n] interactions: an item that is no inline image stays as it is;
    an inline image is [new] with the URL of its upload when the upload
    returns, and stays as it is when the upload throws. *)
Definition rehomedAt (E : Environment) (n : nat) (old new : ContentItem) : Prop :=
  if inlineImage old then
    ∃ wi,
      ticks wi = n ∧
      ((∃ url wi', uploadOf E old wi = (Return url, wi') ∧ new = rehomed old url) ∨
       (∃ e wi', uploadOf E old wi = (Throw e, wi') ∧ new = old))
  else new = old.

(** Events that are calls of [client.close()]. *)
Definition is_close (ev : Event) : Prop :=
  match ev with EvClientClose _ => True | _ => False end.

(** A model that proposes at least one function call in every answer; the
    text of the answer to the message sent after [k] others is [txt k]. *)
Definition alwaysProposing (E : Environment) (txt : nat → string) : Prop :=
  ∀ n chat input,
    ∃ fc fcs,
      Chat_sendMessage E n chat input =
      inr {| functionCalls := inr (Some (fc :: fcs));
             text := inr (txt (length (chat_sent chat))) |}.

(** The chat that [POST] starts for a request when it declares [tools]. *)
Definition chatOf (req : ChatRequest) (tools : option (list GeminiFunctionDeclaration))
  : ChatSession :=
  {| chat_model := "gemini-2.0-flash-001";
     chat_tools := tools;
     chat_history := chatHistory (req_messages req);
     chat_sent := [] |}.

(** The SDK accepts the history of the request, whatever is declared. *)
Definition historyAccepted (E : Environment) (req : ChatRequest) : Prop :=
  ∀ tools, Model_startChat E (chatOf req tools) = None.

(** A record that was made for an entry of the resolution table. *)
Definition recorded (toolMap : gmap string ToolInfo) (record : ToolCall) : Prop :=
  ∃ name info,
    toolMap !! name = Some info ∧
    tc_serverId record = ti_serverId info ∧
    tc_toolName record = ti_toolName info ∧
    tc_serverName record = ti_serverName info.

(** ** Concrete environments, worlds and requests *)

Module Sample.

(** An outside world in which everything succeeds and the model answers at
    once. *)
Definition calm : Environment :=
  {| process_env := {[ "GEMINI_API_KEY" := Some "test-key" ]};
     Date_now := λ n, (1700000000000 + Z.of_nat n)%Z;
     Math_random_suffix := λ _, "k3x9q2a";
     URL_valid := λ _, true;
     Buffer_from_base64 := λ s, s;
     Client_connect := λ _ _ _, None;
     Client_close := λ _ _, None;
     Client_listTools := λ _ _, inr [];
     Client_callTool := λ _ _ _ _,
       inr {| wire_content := []; wire_isError := Some false |};
     Model_startChat := λ _, None;
     Chat_sendMessage := λ _ _ _,
       inr {| functionCalls := inr None; text := inr "4" |};
     Storage_upload := λ _ fileName _ _,
       inr {| upload_data := Some fileName; upload_error := None |};
     Storage_getPublicUrl := λ fileName,
       Some ("https://store.example/chart-image/" +:+ fileName) |}.

Definition emptyWorld : World := {| ticks := 0; clients := ∅; trace := [] |}.

Definition hello : ChatRequest :=
  {| req_messages := [ {| msg_role := "user"; msg_content := "what is 2+2" |} ];
     req_enabledTools := None;
     req_mcpEnabled := None |}.

Definition proposal (name : string) : GenerateContentResponse :=
  {| functionCalls := inr (Some [ {| fc_name := name; fc_args := [] |} ]);
     text := inr "still working" |}.

(** A model that proposes a function call in every answer. *)
Definition insistent : Environment :=
  {| process_env := process_env calm;
     Date_now := Date_now calm;
     Math_random_suffix := Math_random_suffix calm;
     URL_valid := URL_valid calm;
     Buffer_from_base64 := Buffer_from_base64 calm;
     Client_connect := Client_connect calm;
     Client_close := Client_close calm;
     Client_listTools := Client_listTools calm;
     Client_callTool := Client_callTool calm;
     Model_startChat := Model_startChat calm;
     Chat_sendMessage := λ _ _ _, inr (proposal "calc__add");
     Storage_upload := Storage_upload calm;
     Storage_getPublicUrl := Storage_getPublicUrl calm |}.

Definition stdioConfig (id : string) (env : option (gmap string (option string)))
  : MCPServerConfig :=
  {| cfg_id := id;
     cfg_name := id;
     cfg_transport := "stdio";
     cfg_description := None;
     cfg_command := Some "npx";
     cfg_args := Some ["-y"; "some-mcp-server"];
     cfg_env := env;
     cfg_url := None;
     cfg_headers := None |}.

Definition handle (serial : nat) (id : string) : MCPClientInstance :=
  {| inst_client := {| client_serial := serial;
                       client_name := "mcp-client-app";
                       client_version := "1.0.0" |};
     inst_transport := StdioClientTransport "npx" ["-y"; "some-mcp-server"] ∅;
     inst_config := stdioConfig id None |}.

Definition tool (name : string) : MCPTool :=
  {| tool_name := name;
     tool_description := None;
     tool_inputSchema :=
       {| schema_type := "object";
          schema_properties := None;
          schema_required := None |} |}.

Definition enabled (serverId toolName : string) : EnabledTool :=
  {| et_serverId := serverId;
     et_serverName := serverId;
     et_toolName := toolName;
     et_description := None |}.

(** An ambient environment with a secret, and a configuration that lists the
    same key with an empty value. *)
Definition withSecret : Environment :=
  {| process_env := {[ "API_TOKEN" := Some "secret" ]};
     Date_now := Date_now calm;
     Math_random_suffix := Math_random_suffix calm;
     URL_valid := URL_valid calm;
     Buffer_from_base64 := Buffer_from_base64 calm;
     Client_connect := Client_connect calm;
     Client_close := Client_close calm;
     Client_listTools := Client_listTools calm;
     Client_callTool := Client_callTool calm;
     Model_startChat := Model_startChat calm;
     Chat_sendMessage := Chat_sendMessage calm;
     Storage_upload := Storage_upload calm;
     Storage_getPublicUrl := Storage_getPublicUrl calm |}.

Definition blankToken : MCPServerConfig :=
  stdioConfig "files" (Some {[ "API_TOKEN" := Some "" ]}).

(** Two servers whose ids and tool names join to the same function name. *)
Definition ambiguousWorld : World :=
  {| ticks := 0;
     clients := {[ "a" := handle 1 "a"; "a__b" := handle 2 "a__b" ]};
     trace := [] |}.

Definition ambiguous : Environment :=
  {| process_env := process_env calm;
     Date_now := Date_now calm;
     Math_random_suffix := Math_random_suffix calm;
     URL_valid := URL_valid calm;
     Buffer_from_base64 := Buffer_from_base64 calm;
     Client_connect := Client_connect calm;
     Client_close := Client_close calm;
     Client_listTools := λ _ c,
       if decide (client_serial c = 1) then inr [tool "b__c"] else inr [tool "c"];
     Client_callTool := Client_callTool calm;
     Model_startChat := Model_startChat calm;
     Chat_sendMessage := Chat_sendMessage calm;
     Storage_upload := Storage_upload calm;
     Storage_getPublicUrl := Storage_getPublicUrl calm |}.

Definition ambiguousRequest : ChatRequest :=
  {| req_messages := req_messages hello;
     req_enabledTools := Some [enabled "a" "b__c"; enabled "a__b" "c"];
     req_mcpEnabled := Some true |}.

(** Two servers that both expose a tool called [web_search]. *)
Definition searchWorld : World :=
  {| ticks := 0;
     clients := {[ "srvA" := handle 1 "srvA"; "srvB" := handle 2 "srvB" ]};
     trace := [] |}.

Definition searchers : Environment :=
  {| process_env := process_env calm;
     Date_now := Date_now calm;
     Math_random_suffix := Math_random_suffix calm;
     URL_valid := URL_valid calm;
     Buffer_from_base64 := Buffer_from_base64 calm;
     Client_connect := Client_connect calm;
     Client_close := Client_close calm;
     Client_listTools := λ _ _, inr [tool "web_search"];
     Client_callTool := λ _ _ _ _,
       inr {| wire_content :=
                [ {| wire_type := "text"; wire_text := Some "3 results";
                     wire_data := None; wire_mimeType := None;
                     wire_resource := None |};
                  {| wire_type := "audio"; wire_text := None;
                     wire_data := Some "UklGRg=="; wire_mimeType := Some "audio/wav";
                     wire_resource := None |};
                  {| wire_type := "image"; wire_text := None;
                     wire_data := Some "iVBORw0KGgo="; wire_mimeType := Some "image/png";
                     wire_resource := None |} ];
              wire_isError := Some false |};
     Model_startChat := Model_startChat calm;
     Chat_sendMessage := Chat_sendMessage calm;
     Storage_upload := Storage_upload calm;
     Storage_getPublicUrl := Storage_getPublicUrl calm |}.

Definition searchRequest : ChatRequest :=
  {| req_messages := req_messages hello;
     req_enabledTools := Some [enabled "srvA" "web_search"; enabled "srvB" "web_search"];
     req_mcpEnabled := Some true |}.

(** The table entry of [srvA]'s search tool, and a call of it. *)
Definition searchInfo : ToolInfo :=
  {| ti_serverId := "srvA"; ti_toolName := "web_search"; ti_serverName := "srvA" |}.

Definition searchTable : gmap string ToolInfo := {[ "srvA__web_search" := searchInfo ]}.

Definition searchCall : FunctionCall :=
  {| fc_name := "srvA__web_search"; fc_args := [] |}.





(** An image item with inline data. *)
Definition picture : ContentItem :=
  {| item_type := "image";
     item_text := None;
     item_data := Some "iVBORw0KGgo=";
     item_mimeType := Some "image/png";
     item_url := None |}.

(** A store that refuses every upload. *)
Definition storeDown : Environment :=
  {| process_env := process_env calm;
     Date_now := Date_now calm;
     Math_random_suffix := Math_random_suffix calm;
     URL_valid := URL_valid calm;
     Buffer_from_base64 := Buffer_from_base64 calm;
     Client_connect := Client_connect calm;
     Client_close := Client_close calm;
     Client_listTools := Client_listTools calm;
     Client_callTool := Client_callTool calm;
     Model_startChat := Model_startChat calm;
     Chat_sendMessage := Chat_sendMessage calm;
     Storage_upload := λ _ _ _ _,
       inr {| upload_data := None; upload_error := Some "bucket not found" |};
     Storage_getPublicUrl := Storage_getPublicUrl calm |}.

(** A server that refuses the handshake, and whose client cannot even be
    closed afterwards. *)
Definition refusing : Environment :=
  {| process_env := process_env calm;
     Date_now := Date_now calm;
     Math_random_suffix := Math_random_suffix calm;
     URL_valid := URL_valid calm;
     Buffer_from_base64 := Buffer_from_base64 calm;
     Client_connect := λ _ _ _, Some (JsError "MCP error -32000: Connection closed");
     Client_close := λ _ _, Some (JsError "Not connected");
     Client_listTools := Client_listTools calm;
     Client_callTool := Client_callTool calm;
     Model_startChat := Model_startChat calm;
     Chat_sendMessage := Chat_sendMessage calm;
     Storage_upload := Storage_upload calm;
     Storage_getPublicUrl := Storage_getPublicUrl calm |}.

(** The client of [srvA] (serial 1) cannot be closed; the others can. *)
Definition stubborn : Environment :=
  {| process_env := process_env calm;
     Date_now := Date_now calm;
     Math_random_suffix := Math_random_suffix calm;
     URL_valid := URL_valid calm;
     Buffer_from_base64 := Buffer_from_base64 calm;
     Client_connect := Client_connect calm;
     Client_close := λ _ c,
       if decide (client_serial c = 1) then Some (JsError "close failed") else None;
     Client_listTools := Client_listTools calm;
     Client_callTool := Client_callTool calm;
     Model_startChat := Model_startChat calm;
     Chat_sendMessage := Chat_sendMessage calm;
     Storage_upload := Storage_upload calm;
     Storage_getPublicUrl := Storage_getPublicUrl calm |}.

(** The scenario of the specification: one server [calc] with a tool [add];
    the model first proposes [calc__add] and, given the result, answers. *)
Definition calcWorld : World :=
  {| ticks := 0; clients := {[ "calc" := handle 1 "calc" ]}; trace := [] |}.

Definition calculator : Environment :=
  {| process_env := process_env calm;
     Date_now := Date_now calm;
     Math_random_suffix := Math_random_suffix calm;
     URL_valid := URL_valid calm;
     Buffer_from_base64 := Buffer_from_base64 calm;
     Client_connect := Client_connect calm;
     Client_close := Client_close calm;
     Client_listTools := λ _ _, inr [tool "add"];
     Client_callTool := λ _ _ _ _,
       inr {| wire_content :=
                [ {| wire_type := "text"; wire_text := Some "4";
                     wire_data := None; wire_mimeType := None;
                     wire_resource := None |} ];
              wire_isError := Some false |};
     Model_startChat := Model_startChat calm;
     Chat_sendMessage := λ _ chat _,
       match chat_sent chat with
       | [] => inr {| functionCalls :=
                        inr (Some [ {| fc_name := "calc__add";
                                       fc_args := [("a", JNumber 2); ("b", JNumber 2)] |} ]);
                      text := inr "" |}
       | _ => inr {| functionCalls := inr None; text := inr "4" |}
       end;
     Storage_upload := Storage_upload calm;
     Storage_getPublicUrl := Storage_getPublicUrl calm |}.

Definition calcRequest : ChatRequest :=
  {| req_messages := req_messages hello;
     req_enabledTools := Some [enabled "calc" "add"];
     req_mcpEnabled := Some true |}.

End Sample.

(** * The rest of the code: manager, storage helper and routes *)

(** ** More types of [@/app/types] *)

Record MCPPromptArgument : Type := {
  parg_name : string;
  parg_description : option string;
  parg_required : option bool;
}.

Record MCPPrompt : Type := {
  prompt_name : string;
  prompt_description : option string;
  prompt_arguments : option (list MCPPromptArgument);
}.

Record MCPResource : Type := {
  resource_uri : string;
  resource_name : string;
  resource_description : option string;
  resource_mimeType : option string;
}.

(** A message of a prompt result: [{ role, content: { type, text } }]. *)
Record PromptMessage : Type := {
  pm_role : string;
  pm_type : string;
  pm_text : option string;
}.

Record MCPPromptResult : Type := {
  presult_description : option string;
  presult_messages : list PromptMessage;
}.

Record ResourceContent : Type := {
  rc_uri : string;
  rc_mimeType : option string;
  rc_text : option string;
  rc_blob : option string;
}.

Record MCPResourceResult : Type := {
  rresult_contents : list ResourceContent;
}.

(** An entry of the result of [getAllTools]. *)
Record ServerTools : Type := {
  st_serverId : string;
  st_serverName : string;
  st_tools : list MCPTool;
}.

(** The four requests of the SDK client that the chat handler does not use.
    They are numbered by the interaction counter like the others; the trace
    has no event for them. *)
Record CapabilityOracles : Type := {
  Client_listPrompts : nat → Client → exn + list MCPPrompt;
  Client_listResources : nat → Client → exn + list MCPResource;
  Client_getPrompt : nat → Client → string → gmap string string → exn + MCPPromptResult;
  Client_readResource : nat → Client → string → exn + MCPResourceResult;
}.

(** ** [src/lib/mcpClient.ts]: the other methods of [MCPClientManager] *)

Section MCPClientManagerRest.
Variable E : Environment.
Variable C : CapabilityOracles.

Definition getConnectedServers : M (list (string * MCPServerConfig)) :=
  table ← get_clients;
  mret (map (λ entry, (entry.1, inst_config entry.2)) (map_to_list table)).

(** The body of the [for] loop of [getAllTools]. *)
Definition collectTools (results : list ServerTools)
    (entry : string * MCPClientInstance) : M (list ServerTools) :=
  try_catch
    (tools ← listTools E entry.1;
     mret (results ++ [{| st_serverId := entry.1;
                          st_serverName := cfg_name (inst_config entry.2);
                          st_tools := tools |}]))
    (λ _,
       console_error ("Failed to get tools from server " +:+ entry.1 +:+ ":");;
       mret results).

Definition getAllTools : M (list ServerTools) :=
  table ← get_clients;
  for_of collectTools (map_to_list table) [].

Definition listPrompts (serverId : string) : M (list MCPPrompt) :=
  client ← getClient serverId;
  n ← tick;
  prompts ← of_result (Client_listPrompts C n client);
  mret (map (λ prompt,
               {| prompt_name := prompt_name prompt;
                  prompt_description := prompt_description prompt;
                  prompt_arguments :=
                    map (λ arg,
                           {| parg_name := parg_name arg;
                              parg_description := parg_description arg;
                              parg_required := parg_required arg |})
                      <$> prompt_arguments prompt |}) prompts).

Definition listResources (serverId : string) : M (list MCPResource) :=
  client ← getClient serverId;
  n ← tick;
  resources ← of_result (Client_listResources C n client);
  mret (map (λ resource,
               {| resource_uri := resource_uri resource;
                  resource_name := resource_name resource;
                  resource_description := resource_description resource;
                  resource_mimeType := resource_mimeType resource |}) resources).

Definition getPrompt (serverId promptName : string) (args : gmap string string)
  : M MCPPromptResult :=
  client ← getClient serverId;
  n ← tick;
  result ← of_result (Client_getPrompt C n client promptName args);
  mret {| presult_description := presult_description result;
          presult_messages :=
            map (λ msg,
                   {| pm_role := pm_role msg;
                      pm_type := pm_type msg;
                      pm_text := pm_text msg |}) (presult_messages result) |}.

Definition readResource (serverId uri : string) : M MCPResourceResult :=
  client ← getClient serverId;
  n ← tick;
  result ← of_result (Client_readResource C n client uri);
  mret {| rresult_contents :=
            map (λ content,
                   {| rc_uri := rc_uri content;
                      rc_mimeType := rc_mimeType content;
                      rc_text := rc_text content;
                      rc_blob := rc_blob content |}) (rresult_contents result) |}.

End MCPClientManagerRest.

(** ** [src/lib/imageStorage.ts]: [uploadImagesToStorage] *)

Section ImageStorageRest.
Variable E : Environment.

(** An element of the argument: [{ data, mimeType? }]. *)
Record ImageToUpload : Type := {
  img_data : string;
  img_mimeType : option string;
}.

Definition uploadImagesToStorage (images : list ImageToUpload) : M (list string) :=
  Promise_all
    (map (λ img,
            uploadImageToStorage E (img_data img)
              (or_default (img_mimeType img) "image/png"))
       images).

End ImageStorageRest.

(** ** The routes that call the manager *)

Definition upper_ascii (c : ascii) : ascii :=
  let n := Ascii.nat_of_ascii c in
  if bool_decide (97 ≤ n ≤ 122) then Ascii.ascii_of_nat (n - 32) else c.

(** [s.toUpperCase()], on the ASCII letters. *)
Fixpoint toUpperCase (s : string) : string :=
  match s with
  | EmptyString => EmptyString
  | String c s' => String (upper_ascii c) (toUpperCase s')
  end.

(** [`${ms}ms`] *)
Definition milliseconds (ms : Z) : string := pretty ms +:+ "ms".

(** Summaries of the test route: [{ name, description }] and [{ uri, name }]. *)
Record CapabilitySummary : Type := {
  sum_count : nat;
  sum_list : list (string * option string);
}.

Record ResourceSummary : Type := {
  rsum_count : nat;
  rsum_list : list (string * string);
}.

(** The JSON bodies of the routes. *)
Inductive RouteBody : Type :=
  | JsonError (message : string)
  | JsonDisconnected (serverId : string)
  | JsonTools (tools : list MCPTool)
  | JsonToolResult (result : MCPToolCallResult)
  | JsonStatus (serverId : string) (connected : bool)
  | JsonConnectedServers (connectedServers : list string)
  | JsonTestPassed (serverId connectTime totalTime : string)
      (tools prompts : CapabilitySummary) (resources : ResourceSummary)
  | JsonTestFailed (message connectTime suggestion : string).

Record RouteResponse : Type := {
  route_status : nat;
  route_body : RouteBody;
}.

Definition json (status : nat) (body : RouteBody) : M RouteResponse :=
  mret {| route_status := status; route_body := body |}.

(** The disconnect route. *)
Module DisconnectRoute.
Section Route.
Variable E : Environment.

Definition POST (serverId : option string) : M RouteResponse :=
  try_catch
    (if negb (truthy serverId) then
       json 400 (JsonError "Missing required field: serverId")
     else
       connected ← isConnected (default "" serverId);
       if negb connected then
         json 400 (JsonError "Server is not connected")
       else
         disconnect E (default "" serverId);;
         json 200 (JsonDisconnected (default "" serverId)))
    (λ err,
       console_error "[MCP Disconnect Error]:";;
       json 500 (JsonError (error_text err))).

End Route.
End DisconnectRoute.

(** The tools route. *)
Module ToolsRoute.
Section Route.
Variable E : Environment.

Definition GET (serverId : option string) : M RouteResponse :=
  try_catch
    (if negb (truthy serverId) then
       json 400 (JsonError "Missing required query param: serverId")
     else
       connected ← isConnected (default "" serverId);
       if negb connected then
         json 400 (JsonError "Server is not connected")
       else
         tools ← listTools E (default "" serverId);
         json 200 (JsonTools tools))
    (λ err,
       console_error "[MCP List Tools Error]:";;
       json 500 (JsonError (error_text err))).

Definition POST (serverId toolName : option string) (args : option Args)
  : M RouteResponse :=
  try_catch
    (if negb (truthy serverId) || negb (truthy toolName) then
       json 400 (JsonError "Missing required fields: serverId, toolName")
     else
       connected ← isConnected (default "" serverId);
       if negb connected then
         json 400 (JsonError "Server is not connected")
       else
         result ← callTool E (default "" serverId) (default "" toolName)
                    (default [] args);
         json 200 (JsonToolResult result))
    (λ err,
       console_error "[MCP Call Tool Error]:";;
       json 500 (JsonError (error_text err))).

End Route.
End ToolsRoute.

(** The status route. *)
Module StatusRoute.

Definition GET (serverId : option string) : M RouteResponse :=
  try_catch
    (if truthy serverId then
       connected ← isConnected (default "" serverId);
       json 200 (JsonStatus (default "" serverId) connected)
     else
       connectedServers ← getConnectedServerIds;
       json 200 (JsonConnectedServers connectedServers))
    (λ err,
       console_error "[MCP Status Error]:";;
       json 500 (JsonError (error_text err))).

End StatusRoute.

(** The connection-test route. *)
Module TestRoute.
Section Route.
Variable E : Environment.
Variable C : CapabilityOracles.

(** The three guards at the head of the handler: the message of the 400
    response, if any.  A field that is missing in the JSON body is read as
    the empty string, which is falsy like [undefined]. *)
Definition rejection (config : MCPServerConfig) : option string :=
  if bool_decide (cfg_id config = "" ∨ cfg_name config = "" ∨ cfg_transport config = "")
  then Some "Missing required fields: id, name, transport"
  else if bool_decide (cfg_transport config = "stdio") && negb (truthy (cfg_command config))
  then Some "STDIO transport requires a command"
  else if bool_decide (cfg_transport config = "sse" ∨
                       cfg_transport config = "streamable-http")
          && negb (truthy (cfg_url config))
  then Some (toUpperCase (cfg_transport config) +:+ " transport requires a URL")
  else None.

(** The chain of [errorMessage.includes(...)] tests. *)
Definition suggestionFor (errorMessage : string) : string :=
  if contains "BRAVE_API_KEY" errorMessage || contains "API key" errorMessage then
    "BRAVE_API_KEY 환경 변수를 설정해야 합니다. 설정 페이지에서 환경 변수에 BRAVE_API_KEY=your_api_key 형식으로 추가하세요."
  else if contains "command" errorMessage || contains "not found" errorMessage then
    "npx 명령어를 찾을 수 없습니다. Node.js가 설치되어 있는지 확인하세요."
  else if contains "timeout" errorMessage then
    "연결 시간이 초과되었습니다. 네트워크 연결을 확인하거나 서버가 실행 중인지 확인하세요."
  else "".

(** [Promise.all] of the three listings, each with its own [catch]; none of
    them can reject.  They are run one after the other here: in the runtime
    the three requests are sent before the first answer is looked at, so the
    console lines of failures may come later than in this trace. *)
Definition capabilities (serverId : string)
  : M (list MCPTool * list MCPPrompt * list MCPResource) :=
  tools ← try_catch (listTools E serverId)
             (λ _, console_error "[MCP Test] Tools 조회 실패:";; mret ([] : list MCPTool));
  prompts ← try_catch (listPrompts C serverId)
               (λ _, console_error "[MCP Test] Prompts 조회 실패:";; mret ([] : list MCPPrompt));
  resources ← try_catch (listResources C serverId)
                 (λ _, console_error "[MCP Test] Resources 조회 실패:";; mret ([] : list MCPResource));
  mret (tools, prompts, resources).

Definition POST (config : MCPServerConfig) : M RouteResponse :=
  try_catch
    (match rejection config with
     | Some message => json 400 (JsonError message)
     | None =>
         connected ← isConnected (cfg_id config);
         (if (connected : bool) then
            try_catch (disconnect E (cfg_id config))
              (λ _, console_warn "[MCP Test] 기존 연결 해제 실패:")
          else mret tt);;
         n0 ← tick;
         let startTime := Date_now E n0 in
         try_catch
           (connect E config;;
            n1 ← tick;
            let connectTime := (Date_now E n1 - startTime)%Z in
            found ← capabilities (cfg_id config);
            n2 ← tick;
            let totalTime := (Date_now E n2 - startTime)%Z in
            json 200
              (JsonTestPassed (cfg_id config)
                 (milliseconds connectTime) (milliseconds totalTime)
                 {| sum_count := length found.1.1;
                    sum_list :=
                      map (λ t, (tool_name t, tool_description t)) found.1.1 |}
                 {| sum_count := length found.1.2;
                    sum_list :=
                      map (λ p, (prompt_name p, prompt_description p)) found.1.2 |}
                 {| rsum_count := length found.2;
                    rsum_list :=
                      map (λ r, (resource_uri r, resource_name r)) found.2 |}))
           (λ err,
              n1 ← tick;
              let connectTime := (Date_now E n1 - startTime)%Z in
              console_error "[MCP Test] 연결 실패:";;
              let errorMessage := error_text err in
              json 500
                (JsonTestFailed errorMessage (milliseconds connectTime)
                   (suggestionFor errorMessage)))
     end)
    (λ err,
       console_error "[MCP Test] 예상치 못한 오류:";;
       json 500 (JsonError (error_text err))).

End Route.
End TestRoute.

(** ** More vocabulary and samples *)

Definition is_upload (ev : Event) : bool :=
  match ev with EvStorageUpload _ _ => true | _ => false end.

(** The number of uploads to the object store recorded in a trace. *)
Definition uploadCount (tr : list Event) : nat :=
  length (filter (λ ev, is_upload ev = true) tr).

(** The type tags of the model provider's schema. *)
Definition schemaTags : list string := ["STRING"; "NUMBER"; "BOOLEAN"; "ARRAY"; "OBJECT"].

(** The extensions and the keys in the table of [getExtensionFromMimeType]. *)
Definition knownExtensions : list string := ["png"; "jpg"; "gif"; "webp"; "svg"].

Definition knownMimeTypes : list string :=
  ["image/png"; "image/jpeg"; "image/jpg"; "image/gif"; "image/webp"; "image/svg+xml"].

(** Events that contact neither a server nor the store: messages to the
    model and console lines. *)
Definition offline (ev : Event) : bool :=
  match ev with
  | EvSendMessage _ | EvConsoleWarn _ | EvConsoleError _ => true
  | _ => false
  end.

(** [adds P m]: whatever its outcome, [m] only appends events to the trace,
    and all of them satisfy [P]. *)
Definition adds (P : Event → bool) {A} (m : M A) : Prop :=
  ∀ w, ∃ evs, trace (m w).2 = trace w ++ evs ∧ Forall (λ ev, P ev = true) evs.

(** A model that proposes at least one function call in each of its first
    [n] answers of a conversation and then answers with the text [t] and no
    call. *)
Definition answersAfter (E : Environment) (n : nat) (t : string) : Prop :=
  ∀ k chat input,
    (length (chat_sent chat) < n →
     ∃ fc fcs txt,
       Chat_sendMessage E k chat input =
       inr {| functionCalls := inr (Some (fc :: fcs)); text := txt |}) ∧
    (n ≤ length (chat_sent chat) →
     ∃ calls,
       (calls = None ∨ calls = Some []) ∧
       Chat_sendMessage E k chat input =
       inr {| functionCalls := inr calls; text := inr t |}).

(** The answer to the message sent after [k] others. *)
Definition answerAt (n : nat) (t : string) (k : nat) (response : GenerateContentResponse) : Prop :=
  (k < n →
   ∃ fc fcs txt,
     response = {| functionCalls := inr (Some (fc :: fcs)); text := txt |}) ∧
  (n ≤ k →
   ∃ calls,
     (calls = None ∨ calls = Some []) ∧
     response = {| functionCalls := inr calls; text := inr t |}).

Module More.

(** A model provider that rejects every message. *)
Definition modelDown : Environment :=
  {| process_env := process_env Sample.calm;
     Date_now := Date_now Sample.calm;
     Math_random_suffix := Math_random_suffix Sample.calm;
     URL_valid := URL_valid Sample.calm;
     Buffer_from_base64 := Buffer_from_base64 Sample.calm;
     Client_connect := Client_connect Sample.calm;
     Client_close := Client_close Sample.calm;
     Client_listTools := Client_listTools Sample.calm;
     Client_callTool := Client_callTool Sample.calm;
     Model_startChat := Model_startChat Sample.calm;
     Chat_sendMessage := λ _ _ _, inl (JsError "503 Service Unavailable");
     Storage_upload := Storage_upload Sample.calm;
     Storage_getPublicUrl := Storage_getPublicUrl Sample.calm |}.

(** An SDK that wants the history of a chat to start with the user. *)
Definition strictSDK : Environment :=
  {| process_env := process_env Sample.calm;
     Date_now := Date_now Sample.calm;
     Math_random_suffix := Math_random_suffix Sample.calm;
     URL_valid := URL_valid Sample.calm;
     Buffer_from_base64 := Buffer_from_base64 Sample.calm;
     Client_connect := Client_connect Sample.calm;
     Client_close := Client_close Sample.calm;
     Client_listTools := Client_listTools Sample.calm;
     Client_callTool := Client_callTool Sample.calm;
     Model_startChat := λ chat,
       match chat_history chat with
       | first :: _ =>
           if decide (hist_role first = "user") then None
           else Some (JsError "First content should be with role 'user', got model")
       | [] => None
       end;
     Chat_sendMessage := Chat_sendMessage Sample.calm;
     Storage_upload := Storage_upload Sample.calm;
     Storage_getPublicUrl := Storage_getPublicUrl Sample.calm |}.

(** A conversation whose first turn is the assistant's. *)
Definition modelFirst : ChatRequest :=
  {| req_messages :=
       [ {| msg_role := "assistant"; msg_content := "How can I help?" |};
         {| msg_role := "user"; msg_content := "what is 2+2" |} ];
     req_enabledTools := None;
     req_mcpEnabled := None |}.

(** A server whose tool reports an error, with a picture of it. *)
Definition brokenTool : Environment :=
  {| process_env := process_env Sample.calm;
     Date_now := Date_now Sample.calm;
     Math_random_suffix := Math_random_suffix Sample.calm;
     URL_valid := URL_valid Sample.calm;
     Buffer_from_base64 := Buffer_from_base64 Sample.calm;
     Client_connect := Client_connect Sample.calm;
     Client_close := Client_close Sample.calm;
     Client_listTools := λ _ _, inr [Sample.tool "add"];
     Client_callTool := λ _ _ _ _,
       inr {| wire_content :=
                [ {| wire_type := "text"; wire_text := Some "division by zero";
                     wire_data := None; wire_mimeType := None;
                     wire_resource := None |};
                  {| wire_type := "image"; wire_text := None;
                     wire_data := Some "iVBORw0KGgo="; wire_mimeType := Some "image/png";
                     wire_resource := None |} ];
              wire_isError := Some true |};
     Model_startChat := Model_startChat Sample.calm;
     Chat_sendMessage := Chat_sendMessage Sample.calm;
     Storage_upload := Storage_upload Sample.calm;
     Storage_getPublicUrl := Storage_getPublicUrl Sample.calm |}.

Definition calcTable : gmap string ToolInfo :=
  {[ "calc__add" := {| ti_serverId := "calc"; ti_toolName := "add";
                       ti_serverName := "calc" |} ]}.

Definition filesConfig : MCPServerConfig := Sample.stdioConfig "files" None.

(** A configuration of a server that is already connected in
    [Sample.searchWorld]. *)
Definition srvAConfig : MCPServerConfig := Sample.stdioConfig "srvA" None.

End More.

(** * Properties *)

(** ** The embedding on concrete inputs *)

Example functionName_calc_add : functionName "calc" "add" = "calc__add".
Proof. reflexivity. Qed.

Example split_comma_data_url :
  split_comma "data:image/png;base64,iVBORw0KGgo=" =
  ["data:image/png;base64"; "iVBORw0KGgo="].
Proof. vm_compute. reflexivity. Qed.

Example base64Payload_data_url :
  base64Payload "data:image/png;base64,iVBORw0KGgo=" = "iVBORw0KGgo=" ∧
  base64Payload "iVBORw0KGgo=" = "iVBORw0KGgo=".
Proof. vm_compute. auto. Qed.

Example getExtensionFromMimeType_cases :
  getExtensionFromMimeType "IMAGE/JPEG" = OwnString "jpg" ∧
  getExtensionFromMimeType "image/svg+xml" = OwnString "svg" ∧
  getExtensionFromMimeType "application/pdf" = OwnString "png" ∧
  getExtensionFromMimeType "Constructor" = ObjectConstructor ∧
  getExtensionFromMimeType "__proto__" = ObjectPrototype.
Proof. vm_compute. auto 10. Qed.

Example formatToolResult_cases :
  formatToolResult
    {| res_content :=
         [ {| item_type := "text"; item_text := Some "4"; item_data := None;
              item_mimeType := None; item_url := None |};
           {| item_type := "audio"; item_text := None; item_data := None;
              item_mimeType := None; item_url := None |} ];
       res_isError := None |} = "4" +:+ newline +:+ "[audio]" ∧
  formatToolResult
    {| res_content :=
         [ {| item_type := "text"; item_text := Some "no such file"; item_data := None;
              item_mimeType := None; item_url := None |} ];
       res_isError := Some true |} = "Error: no such file".
Proof. vm_compute. auto. Qed.

Example schemaType_cases :
  schemaType {| prop_type := Some "integer"; prop_description := None |} = "NUMBER" ∧
  schemaType {| prop_type := Some "array"; prop_description := None |} = "ARRAY" ∧
  schemaType {| prop_type := Some "date"; prop_description := None |} = "STRING" ∧
  schemaType {| prop_type := None; prop_description := None |} = "STRING".
Proof. vm_compute. auto. Qed.

(** Without tools the handler passes the answer of the model on. *)
Example POST_plain_answer :
  (POST Sample.calm Sample.hello Sample.emptyWorld).1 =
    Return {| status := 200; body := ChatBody "4" None |} ∧
  sendMessageCount (trace (POST Sample.calm Sample.hello Sample.emptyWorld).2) = 1.
Proof. vm_compute. auto. Qed.

(** The model proposes [calc__add], the tool answers 4, the model answers
    "4": one record with status [success], two round-trips. *)
Example POST_calculator :
  match (POST Sample.calculator Sample.calcRequest Sample.calcWorld).1 with
  | Return {| status := 200; body := ChatBody "4" (Some [record]) |} =>
      tc_serverId record = "calc" ∧ tc_toolName record = "add" ∧
      tc_status record = success ∧
      (res_content <$> tc_result record) =
        Some [ {| item_type := "text"; item_text := Some "4"; item_data := None;
                  item_mimeType := None; item_url := None |} ]
  | _ => False
  end ∧
  sendMessageCount
    (trace (POST Sample.calculator Sample.calcRequest Sample.calcWorld).2) = 2.
Proof. vm_compute. auto. Qed.

(** A missing API key and an empty message are answered without calling the
    model. *)
Example POST_without_message :
  (POST Sample.calm
     {| req_messages := []; req_enabledTools := None; req_mcpEnabled := None |}
     Sample.emptyWorld).1 =
  Return {| status := 400; body := ErrorBody "메시지가 없습니다." |}.
Proof. vm_compute. reflexivity. Qed.

(** ** Running monadic code *)

Lemma run_bind {A B} (m : M A) (f : A → M B) (w : World) :
  (m ≫= f) w =
  match m w with
  | (Return a, w') => f a w'
  | (Throw e, w') => (Throw e, w')
  | (OutOfFuel, w') => (OutOfFuel, w')
  end.
Proof. reflexivity. Qed.

Lemma run_bind_return {A B} (m : M A) (f : A → M B) (w w' : World) (a : A) :
  m w = (Return a, w') → (m ≫= f) w = f a w'.
Proof. intros H. rewrite run_bind, H. reflexivity. Qed.

Lemma run_bind_throw {A B} (m : M A) (f : A → M B) (w w' : World) (e : exn) :
  m w = (Throw e, w') → (m ≫= f) w = (Throw e, w').
Proof. intros H. rewrite run_bind, H. reflexivity. Qed.

Lemma run_try_catch_return {A} (m : M A) (h : exn → M A) (w w' : World) (a : A) :
  m w = (Return a, w') → try_catch m h w = (Return a, w').
Proof. intros H. unfold try_catch. rewrite H. reflexivity. Qed.

Lemma run_try_catch_throw {A} (m : M A) (h : exn → M A) (w w' : World) (e : exn) :
  m w = (Throw e, w') → try_catch m h w = h e w'.
Proof. intros H. unfold try_catch. rewrite H. reflexivity. Qed.


(** Unfolding of the primitive operations of [M], followed by computation. *)
Ltac run_M :=
  unfold get_clients, put_clients, console_warn, console_error, tick, emit,
    out_of_fuel, mbind, M_bind, mret, M_ret, mthrow, M_throw;
  cbn.

(** ** Counting calls to [chat.sendMessage] *)

Lemma sendMessageCount_snoc (tr : list Event) (ev : Event) :
  sendMessageCount (tr ++ [ev]) =
  sendMessageCount tr + (if is_sendMessage ev then 1 else 0).
Proof.
  unfold sendMessageCount. rewrite filter_app, length_app. f_equal.
  destruct ev; reflexivity.
Qed.

Lemma sends_weaken {A} (k k' : nat) (m : M A) :
  sends k m → k ≤ k' → sends k' m.
Proof. intros H Hk w. specialize (H w). lia. Qed.

Lemma sends_ret {A} (a : A) : sends 0 (mret a : M A).
Proof. intros w. simpl. lia. Qed.

Lemma sends_throw {A} (e : exn) : sends 0 (mthrow e : M A).
Proof. intros w. simpl. lia. Qed.

Lemma sends_out_of_fuel {A} : sends 0 (out_of_fuel : M A).
Proof. intros w. simpl. lia. Qed.

Lemma sends_of_result {A} (r : exn + A) : sends 0 (of_result r).
Proof. destruct r; [apply sends_throw | apply sends_ret]. Qed.

Lemma sends_tick : sends 0 tick.
Proof. intros w. simpl. lia. Qed.

Lemma sends_get_clients : sends 0 get_clients.
Proof. intros w. simpl. lia. Qed.

Lemma sends_put_clients c : sends 0 (put_clients c).
Proof. intros w. simpl. lia. Qed.

Lemma sends_emit (ev : Event) :
  sends (if is_sendMessage ev then 1 else 0) (emit ev).
Proof. intros w. simpl. rewrite sendMessageCount_snoc. lia. Qed.

Lemma sends_console_warn s : sends 0 (console_warn s).
Proof. apply (sends_emit (EvConsoleWarn s)). Qed.

Lemma sends_console_error s : sends 0 (console_error s).
Proof. apply (sends_emit (EvConsoleError s)). Qed.

Lemma sends_bind {A B} (k1 k2 : nat) (m : M A) (f : A → M B) :
  sends k1 m → (∀ a, sends k2 (f a)) → sends (k1 + k2) (m ≫= f).
Proof.
  intros Hm Hf w. rewrite run_bind. specialize (Hm w).
  destruct (m w) as [[a| |] w']; simpl in *; try lia.
  specialize (Hf a w'). lia.
Qed.

Lemma sends_bind0 {A B} (m : M A) (f : A → M B) :
  sends 0 m → (∀ a, sends 0 (f a)) → sends 0 (m ≫= f).
Proof. apply (sends_bind 0 0). Qed.

Lemma sends_try_catch {A} (k1 k2 : nat) (m : M A) (h : exn → M A) :
  sends k1 m → (∀ e, sends k2 (h e)) → sends (k1 + k2) (try_catch m h).
Proof.
  intros Hm Hh w. unfold try_catch. specialize (Hm w).
  destruct (m w) as [[a| |] w']; simpl in *; try lia.
  specialize (Hh e w'). lia.
Qed.

Lemma sends_try_catch0 {A} (m : M A) (h : exn → M A) :
  sends 0 m → (∀ e, sends 0 (h e)) → sends 0 (try_catch m h).
Proof. apply (sends_try_catch 0 0). Qed.

Lemma sends_for_of {A S} (step : S → A → M S) (xs : list A) (acc : S) :
  (∀ acc x, sends 0 (step acc x)) → sends 0 (for_of step xs acc).
Proof.
  intros Hstep. revert acc. induction xs as [|x xs IH]; intros acc; simpl.
  - apply sends_ret.
  - apply sends_bind0; [apply Hstep | apply IH].
Qed.

Lemma sends_all_settled {A} (ps : list (M A)) :
  Forall (sends 0) ps → sends 0 (all_settled ps).
Proof.
  induction 1 as [|p ps Hp _ IH]; simpl.
  - apply sends_ret.
  - apply sends_bind0.
    + apply sends_try_catch0; [|intros; apply sends_ret].
      apply sends_bind0; [exact Hp | intros; apply sends_ret].
    + intros r. apply sends_bind0; [exact IH | intros; apply sends_ret].
Qed.

Lemma sends_Promise_all {A} (ps : list (M A)) :
  Forall (sends 0) ps → sends 0 (Promise_all ps).
Proof.
  intros H. unfold Promise_all. apply sends_bind0.
  - apply sends_all_settled, H.
  - intros rs. destruct (first_rejection rs); [apply sends_throw | apply sends_ret].
Qed.

Create HintDb sends.

#[local] Hint Resolve sends_ret sends_throw sends_out_of_fuel sends_of_result
  sends_tick sends_get_clients sends_put_clients sends_console_warn
  sends_console_error : sends.

(** One step of a proof that a piece of code never calls [sendMessage]. *)
Ltac sends_zero :=
  repeat first
    [ apply sends_bind0; [|intros ?]
    | apply sends_try_catch0; [|intros ?]
    | solve [auto with sends]
    | match goal with
      | |- sends _ (match ?x with _ => _ end) => destruct x
      | |- sends _ (if ?b then _ else _) => destruct b
      end ].

Section SendBound.
Variable E : Environment.

Lemma sends_getClient serverId : sends 0 (getClient serverId).
Proof. unfold getClient. sends_zero. Qed.

Lemma sends_isConnected serverId : sends 0 (isConnected serverId).
Proof. unfold isConnected. sends_zero. Qed.

Lemma sends_listTools serverId : sends 0 (listTools E serverId).
Proof.
  unfold listTools. apply sends_bind0; [apply sends_getClient|intros c].
  sends_zero. apply (sends_emit (EvListTools c)).
Qed.

Lemma sends_callTool serverId toolName args :
  sends 0 (callTool E serverId toolName args).
Proof.
  unfold callTool. apply sends_bind0; [apply sends_getClient|intros c].
  sends_zero. apply (sends_emit (EvCallTool c toolName args)).
Qed.

Lemma sends_uploadImageToStorage data mimeType :
  sends 0 (uploadImageToStorage E data mimeType).
Proof.
  unfold uploadImageToStorage, generateFileName. sends_zero.
  apply (sends_emit (EvStorageUpload _ _)).
Qed.

Lemma sends_rehomeImage item : sends 0 (rehomeImage E item).
Proof.
  unfold rehomeImage.
  destruct (_ && _); [|apply sends_ret].
  apply sends_try_catch0.
  - apply sends_bind0; [apply sends_uploadImageToStorage | intros; apply sends_ret].
  - intros e. sends_zero.
Qed.

Lemma sends_executeFunctionCall toolMap acc functionCall :
  sends 0 (executeFunctionCall E toolMap acc functionCall).
Proof.
  unfold executeFunctionCall. destruct (toolMap !! _) as [toolInfo|].
  - do 3 (apply sends_bind0; [apply sends_tick | intros ?]).
    apply sends_try_catch0.
    + apply sends_bind0; [apply sends_callTool | intros mcpResult].
      apply sends_bind0.
      * destruct (negb _); [|apply sends_ret].
        apply sends_bind0; [|intros; apply sends_ret].
        apply sends_Promise_all, List.Forall_forall. intros p Hp.
        apply List.in_map_iff in Hp as (item & <- & _).
        apply sends_rehomeImage.
      * intros r. sends_zero.
    + intros e. sends_zero.
  - sends_zero.
Qed.

Lemma sends_registerTool acc enabledTool : sends 0 (registerTool E acc enabledTool).
Proof.
  unfold registerTool. apply sends_try_catch0; [|intros e; sends_zero].
  apply sends_bind0; [apply sends_isConnected | intros connected].
  destruct (negb connected); [sends_zero|].
  apply sends_bind0; [apply sends_listTools | intros tools].
  sends_zero.
Qed.

Lemma sends_registerTools req : sends 0 (registerTools E req).
Proof.
  unfold registerTools.
  destruct (req_mcpEnabled req) as [[]|], (req_enabledTools req) as [[]|];
    try apply sends_ret.
  apply sends_for_of. intros; apply sends_registerTool.
Qed.

Lemma sends_startChat chat : sends 0 (startChat E chat).
Proof. unfold startChat. sends_zero. Qed.

Lemma sends_chat_sendMessage chat input : sends 1 (chat_sendMessage E chat input).
Proof.
  unfold chat_sendMessage.
  apply (sends_bind 0 1); [apply sends_tick | intros n].
  apply (sends_bind 1 0); [apply (sends_emit (EvSendMessage input)) | intros _].
  sends_zero.
Qed.

(** Every turn of the loop sends at most one message and counts one
    iteration, so what remains of the budget bounds what the loop sends. *)
Lemma sends_functionCallingLoop toolMap fuel s :
  sends (maxIterations - ls_iterationCount s) (functionCallingLoop E toolMap fuel s).
Proof.
  revert s. induction fuel as [|fuel IH]; intros s; cbn [functionCallingLoop];
    case_bool_decide as Hlt;
    try solve [eapply sends_weaken; [apply sends_ret || apply sends_out_of_fuel | lia]].
  apply (sends_weaken (0 + (0 + (1 + (maxIterations - S (ls_iterationCount s)))))); [|lia].
  apply sends_bind; [apply sends_of_result | intros calls].
  destruct calls as [[|fc fcs]|];
    try solve [eapply sends_weaken; [|apply Nat.le_0_l]; sends_zero].
  apply sends_bind.
  { apply sends_for_of. intros; apply sends_executeFunctionCall. }
  intros round. apply sends_bind; [apply sends_chat_sendMessage | intros sent].
  apply (IH {| ls_iterationCount := S (ls_iterationCount s) |}).
Qed.

Lemma sends_finalText s : sends 0 (finalText s).
Proof. unfold finalText. sends_zero. Qed.

End SendBound.

(** ** The environment of a stdio transport *)

Lemma stripEnv_lookup (envRaw : gmap string (option string)) (key : string) :
  stripEnv envRaw !! key = keptValue (envRaw !! key).
Proof.
  unfold stripEnv.
  apply (map_fold_weak_ind
           (λ (env : gmap string string) (m : gmap string (option string)),
              env !! key = keptValue (m !! key))).
  - rewrite !lookup_empty. reflexivity.
  - intros i x m r Hi IH.
    destruct (decide (i = key)) as [->|Hne].
    + rewrite lookup_insert_eq. rewrite Hi in IH. simpl in IH.
      destruct x as [v|]; simpl; [|exact IH].
      destruct (decide (v = "")); [exact IH | apply lookup_insert_eq].
    + rewrite (lookup_insert_ne m) by exact Hne.
      destruct x as [v|]; [|exact IH].
      destruct (decide (v = "")); [exact IH|].
      rewrite lookup_insert_ne by exact Hne. exact IH.
Qed.

Lemma envRaw_lookup (E : Environment) (config : MCPServerConfig) (key : string) :
  envRaw E config !! key =
  match default ∅ (cfg_env config) !! key with
  | Some entry => Some entry
  | None => process_env E !! key
  end.
Proof.
  unfold envRaw. rewrite lookup_union.
  destruct (default ∅ (cfg_env config) !! key) as [entry|] eqn:Hc; simpl.
  - destruct (process_env E !! key); reflexivity.
  - destruct (process_env E !! key); reflexivity.
Qed.

(** ** Normalising the content of a tool result *)

Lemma map_throwing_length {A B} (f : A → exn + B) (xs : list A) (ys : list B) :
  map_throwing f xs = inr ys → length ys = length xs.
Proof.
  revert ys. induction xs as [|x xs IH]; intros ys H; simpl in H.
  - inversion H. reflexivity.
  - destruct (f x) as [e|y]; [discriminate|].
    destruct (map_throwing f xs) as [e|ys']; [discriminate|].
    inversion H; subst. simpl. f_equal. apply IH. reflexivity.
Qed.

Lemma map_throwing_lookup {A B} (f : A → exn + B) (xs : list A) (ys : list B)
    (i : nat) (x : A) :
  map_throwing f xs = inr ys → xs !! i = Some x →
  ∃ y, ys !! i = Some y ∧ f x = inr y.
Proof.
  revert ys i. induction xs as [|x0 xs IH]; intros ys i H Hx; simpl in H.
  - rewrite lookup_nil in Hx. discriminate.
  - destruct (f x0) as [e|y0] eqn:Hf; [discriminate|].
    destruct (map_throwing f xs) as [e|ys'] eqn:Hrest; [discriminate|].
    inversion H; subst. destruct i as [|i]; simpl in *.
    + inversion Hx; subst. eauto.
    + eapply IH; eauto.
Qed.

Lemma normalizeContent_type (c : WireContent) (item : ContentItem) :
  normalizeContent c = inr item → item_type item = wire_type c.
Proof.
  unfold normalizeContent. intros H.
  repeat case_decide; try destruct (wire_resource c);
    inversion H; subst; simpl; congruence.
Qed.

Lemma normalizeContent_unknown (c : WireContent) :
  wire_type c ≠ "text" → wire_type c ≠ "image" → wire_type c ≠ "resource" →
  normalizeContent c =
  inr {| item_type := wire_type c; item_text := None; item_data := None;
         item_mimeType := None; item_url := None |}.
Proof.
  intros H1 H2 H3. unfold normalizeContent.
  repeat case_decide; try contradiction. reflexivity.
Qed.

(** What a returning [callTool] has done. *)
Lemma callTool_returns (E : Environment) (serverId toolName : string) (args : Args)
    (w w' : World) (result : MCPToolCallResult) :
  callTool E serverId toolName args w = (Return result, w') →
  ∃ instance wire,
    clients w !! serverId = Some instance ∧
    Client_callTool E (ticks w) (inst_client instance) toolName args = inr wire ∧
    map_throwing normalizeContent (wire_content wire) = inr (res_content result) ∧
    res_isError result = wire_isError wire.
Proof.
  unfold callTool, getClient. run_M.
  destruct (clients w !! serverId) as [instance|] eqn:Hc; run_M; [|discriminate].
  destruct (Client_callTool E (ticks w) (inst_client instance) toolName args)
    as [e|wire] eqn:Hcall; run_M; [discriminate|].
  destruct (map_throwing normalizeContent (wire_content wire)) as [e|content] eqn:Hmap;
    run_M; [discriminate|].
  intros H. inversion H; subst. exists instance, wire. simpl. auto.
Qed.

(** ** Function names of the schema bridge *)

Lemma string_app_nil_l (s : string) : "" +:+ s = s.
Proof. reflexivity. Qed.

Lemma string_app_cons (c : ascii) (s t : string) :
  String c s +:+ t = String c (s +:+ t).
Proof. reflexivity. Qed.

Lemma contains_cons (needle : string) (c : ascii) (s : string) :
  contains needle s = true → contains needle (String c s) = true.
Proof. intros H. cbn [contains]. rewrite H. apply orb_true_r. Qed.

Lemma prefix_app (needle s : string) : String.prefix needle (needle +:+ s) = true.
Proof.
  induction needle as [|c needle IH]; [destruct s; reflexivity|].
  rewrite string_app_cons. cbn. destruct (Ascii.ascii_dec c c); [exact IH | contradiction].
Qed.

Lemma contains_app (needle s t : string) : contains needle (s +:+ needle +:+ t) = true.
Proof.
  induction s as [|c s IH].
  - rewrite string_app_nil_l. destruct (needle +:+ t) eqn:Heq; cbn [contains];
      rewrite <- Heq, prefix_app; reflexivity.
  - rewrite string_app_cons. apply contains_cons, IH.
Qed.

Lemma ambiguousId_cons (c : ascii) (s : string) :
  ambiguousId s = true → ambiguousId (String c s) = true.
Proof.
  unfold ambiguousId. intros H. apply orb_true_iff in H as [H|H]; apply orb_true_iff.
  - left. destruct s; [discriminate | exact H].
  - right. apply contains_cons, H.
Qed.

(** Two pairs with the same bridged name are the same pair, unless the id
    of one can be read as running into the tool name of the other. *)
Lemma functionName_collision (s1 s2 t1 t2 : string) :
  functionName s1 t1 = functionName s2 t2 →
  (s1 = s2 ∧ t1 = t2) ∨
  (ambiguousId s1 = true ∧ ambiguousTool t2 = true) ∨
  (ambiguousId s2 = true ∧ ambiguousTool t1 = true).
Proof.
  assert (Hshort : ∀ s t t', "__" +:+ t = s +:+ "__" +:+ t' →
                             s ≠ "" →
                             ambiguousId s = true ∧ ambiguousTool t = true).
  { intros s t t' Heq Hne. destruct s as [|c [|d s]]; [contradiction| |];
      rewrite ?string_app_cons, ?string_app_nil_l in Heq.
    - inversion Heq as [[Hc Ht]]. subst c t. split; [reflexivity|].
      unfold ambiguousTool. cbn. destruct t'; reflexivity.
    - inversion Heq as [[Hc Hd Ht]]. subst c d t.
      split.
      + unfold ambiguousId. apply orb_true_iff. right. apply (contains_app "__" "" s).
      + unfold ambiguousTool. apply orb_true_iff. right. apply (contains_app "__" s t'). }
  unfold functionName. revert s2.
  induction s1 as [|c1 s1 IH]; intros [|c2 s2] Heq.
  - left. rewrite !string_app_nil_l in Heq. split; [reflexivity|].
    apply (inj (String.append "__")) in Heq. exact Heq.
  - right; right. rewrite string_app_nil_l in Heq.
    apply (Hshort _ _ _ Heq). discriminate.
  - right; left. rewrite string_app_nil_l in Heq. symmetry in Heq.
    apply (Hshort _ _ _ Heq). discriminate.
  - rewrite !string_app_cons in Heq. inversion Heq as [[Hc Hrest]]; subst.
    destruct (IH s2 Hrest) as [[-> ->]|[[Hid Htool]|[Hid Htool]]].
    + left. auto.
    + right; left. split; [apply ambiguousId_cons, Hid | exact Htool].
    + right; right. split; [apply ambiguousId_cons, Hid | exact Htool].
Qed.

Lemma functionName_same_server (s t1 t2 : string) :
  functionName s t1 = functionName s t2 → t1 = t2.
Proof.
  unfold functionName. intros H. apply (inj (String.append s)) in H.
  apply (inj (String.append "__")) in H. exact H.
Qed.

Lemma string_length_app (s t : string) :
  String.length (s +:+ t) = String.length s + String.length t.
Proof.
  induction s as [|c s IH]; [reflexivity|].
  rewrite string_app_cons. cbn. rewrite IH. reflexivity.
Qed.

Lemma string_app_inv_tail (s1 s2 t : string) : s1 +:+ t = s2 +:+ t → s1 = s2.
Proof.
  revert s2. induction s1 as [|c1 s1 IH]; intros [|c2 s2] H;
    rewrite ?string_app_nil_l, ?string_app_cons in H.
  - reflexivity.
  - apply (f_equal String.length) in H. cbn in H.
    rewrite string_length_app in H. lia.
  - apply (f_equal String.length) in H. cbn in H.
    rewrite string_length_app in H. lia.
  - inversion H; subst. f_equal. apply IH. assumption.
Qed.

Lemma functionName_same_tool (s1 s2 t : string) :
  functionName s1 t = functionName s2 t → s1 = s2.
Proof. unfold functionName. apply (string_app_inv_tail s1 s2 ("__" +:+ t)). Qed.

(** ** Building the resolution table *)

Section Registration.
Variable E : Environment.

(** A step of the registration loop either leaves the accumulator as it is
    or adds one declaration and writes one table entry under the bridged
    name of the enabled tool. *)
Lemma registerTool_cases acc et w :
  (∃ w', registerTool E acc et w = (Return acc, w')) ∨
  (∃ tool w',
     tool_name tool = et_toolName et ∧
     registerTool E acc et w =
     (Return (acc.1 ++ [convertMCPToolToFunctionDeclaration tool (et_serverId et)],
              <[functionName (et_serverId et) (et_toolName et) := toolInfoOf et]> acc.2),
      w')).
Proof.
  unfold registerTool, try_catch, isConnected, listTools, getClient. run_M.
  destruct (clients w !! et_serverId et) as [instance|] eqn:Hc; run_M.
  2:{ left. eauto. }
  rewrite Hc. run_M.
  destruct (Client_listTools E (ticks w) (inst_client instance)) as [e|tools];
    run_M; [left; eauto|].
  match goal with |- context [find ?f ?l] => destruct (find f l) as [tool|] eqn:Hfind end;
    run_M; [|left; eauto].
  right. apply find_some in Hfind as [_ Hname].
  apply bool_decide_eq_true in Hname.
  exists tool. eexists. split; [exact Hname|].
  unfold toolInfoOf. rewrite <- Hname. reflexivity.
Qed.

Lemma registerTool_returns acc et w :
  ∃ acc' w', registerTool E acc et w = (Return acc', w').
Proof.
  destruct (registerTool_cases acc et w) as [[w' H]|(tool & w' & _ & H)];
    rewrite H; eauto.
Qed.

Lemma table_of_registerTool ets acc et w acc' w' :
  et ∈ ets → table_of ets acc →
  registerTool E acc et w = (Return acc', w') → table_of ets acc'.
Proof.
  intros Het [Hentries Hdecls] Hrun.
  destruct (registerTool_cases acc et w) as [[w1 H]|(tool & w1 & Hname & H)];
    rewrite H in Hrun; inversion Hrun; subst; clear Hrun.
  { split; assumption. }
  split; cbn.
  - intros name info Hlook.
    destruct (decide (functionName (et_serverId et) (et_toolName et) = name))
      as [<-|Hne].
    + rewrite lookup_insert_eq in Hlook. inversion Hlook; subst. eauto.
    + rewrite lookup_insert_ne in Hlook by exact Hne. eauto.
  - intros decl Hdecl. apply elem_of_app in Hdecl as [Hold|Hnew].
    + destruct (decide (functionName (et_serverId et) (et_toolName et) = decl_name decl))
        as [<-|Hne].
      * rewrite lookup_insert_eq. eauto.
      * rewrite lookup_insert_ne by exact Hne. auto.
    + apply list_elem_of_singleton in Hnew. subst decl. cbn. rewrite Hname.
      rewrite lookup_insert_eq. eauto.
Qed.

Lemma for_of_registerTool ets xs acc w :
  (∀ et, et ∈ xs → et ∈ ets) → table_of ets acc →
  ∃ acc' w', for_of (registerTool E) xs acc w = (Return acc', w') ∧ table_of ets acc'.
Proof.
  revert acc w. induction xs as [|x xs IH]; intros acc w Hsub Hacc; cbn.
  - eauto.
  - destruct (registerTool_returns acc x w) as (acc1 & w1 & Hstep).
    rewrite run_bind, Hstep.
    apply IH.
    + intros et Het. apply Hsub. right. exact Het.
    + eapply table_of_registerTool; [|exact Hacc|exact Hstep].
      apply Hsub. left.
Qed.

Lemma registerTools_table req w :
  ∃ acc w',
    registerTools E req w = (Return acc, w') ∧
    table_of (default [] (req_enabledTools req)) acc.
Proof.
  assert (Hempty : ∀ ets, table_of ets ([], ∅)).
  { intros ets. split; cbn.
    - intros name info H. rewrite lookup_empty in H. discriminate.
    - intros decl H. apply elem_of_nil in H. contradiction. }
  unfold registerTools.
  destruct (req_mcpEnabled req) as [[]|], (req_enabledTools req) as [[|et ets]|];
    cbn [default]; try (eexists _, _; split; [reflexivity | apply Hempty]).
  apply for_of_registerTool; [auto | apply Hempty].
Qed.

End Registration.

(** ** Code that cannot fail *)

Lemma total_quiet {A} (m : M A) : total m → quiet m.
Proof. intros H w. destruct (H w) as [[a Ha] Hc]. rewrite Ha. split; [discriminate|exact Hc]. Qed.

Lemma total_run {A} (m : M A) (w : World) :
  total m → ∃ a w', m w = (Return a, w') ∧ clients w' = clients w.
Proof.
  intros H. destruct (H w) as [[a Ha] Hc]. exists a, (m w).2.
  split; [|exact Hc]. destruct (m w); simpl in *; congruence.
Qed.

Lemma total_ret {A} (a : A) : total (mret a : M A).
Proof. intros w. split; [eexists|]; reflexivity. Qed.

Lemma quiet_ret {A} (a : A) : quiet (mret a : M A).
Proof. apply total_quiet, total_ret. Qed.

Lemma quiet_throw {A} (e : exn) : quiet (mthrow e : M A).
Proof. intros w. split; [discriminate|reflexivity]. Qed.

Lemma quiet_of_result {A} (r : exn + A) : quiet (of_result r).
Proof. destruct r; [apply quiet_throw | apply quiet_ret]. Qed.

Lemma total_tick : total tick.
Proof. intros w. split; [eexists|]; reflexivity. Qed.

Lemma total_emit ev : total (emit ev).
Proof. intros w. split; [eexists|]; reflexivity. Qed.

Lemma total_console_warn s : total (console_warn s).
Proof. apply total_emit. Qed.

Lemma total_console_error s : total (console_error s).
Proof. apply total_emit. Qed.

Lemma total_get_clients : total get_clients.
Proof. intros w. split; [eexists|]; reflexivity. Qed.

Lemma quiet_bind {A B} (m : M A) (f : A → M B) :
  quiet m → (∀ a, quiet (f a)) → quiet (m ≫= f).
Proof.
  intros Hm Hf w. rewrite run_bind. destruct (Hm w) as [Hne Hc].
  destruct (m w) as [[a| |] w']; simpl in *; try (split; [discriminate|exact Hc]).
  - destruct (Hf a w') as [Hne' Hc']. split; [exact Hne' | congruence].
  - contradiction.
Qed.

Lemma total_bind {A B} (m : M A) (f : A → M B) :
  total m → (∀ a, total (f a)) → total (m ≫= f).
Proof.
  intros Hm Hf w. rewrite run_bind.
  destruct (total_run m w Hm) as (a & w' & -> & Hc).
  destruct (Hf a w') as [Hr Hc']. split; [exact Hr | congruence].
Qed.

Lemma quiet_try_catch {A} (m : M A) (h : exn → M A) :
  quiet m → (∀ e, quiet (h e)) → quiet (try_catch m h).
Proof.
  intros Hm Hh w. unfold try_catch. destruct (Hm w) as [Hne Hc].
  destruct (m w) as [[a| |] w']; simpl in *; try (split; [discriminate|exact Hc]).
  - destruct (Hh e w') as [Hne' Hc']. split; [exact Hne' | congruence].
  - contradiction.
Qed.

(** A [try] whose handler returns returns. *)
Lemma total_try_catch {A} (m : M A) (h : exn → M A) :
  quiet m → (∀ e, total (h e)) → total (try_catch m h).
Proof.
  intros Hm Hh w. unfold try_catch. destruct (Hm w) as [Hne Hc].
  destruct (m w) as [[a| |] w']; simpl in *.
  - split; [eauto | exact Hc].
  - destruct (Hh e w') as [Hr Hc']. split; [exact Hr | congruence].
  - contradiction.
Qed.

Lemma total_for_of {A S} (step : S → A → M S) (xs : list A) (acc : S) :
  (∀ acc x, total (step acc x)) → total (for_of step xs acc).
Proof.
  intros Hstep. revert acc. induction xs as [|x xs IH]; intros acc; cbn.
  - apply total_ret.
  - apply total_bind; [apply Hstep | apply IH].
Qed.

Lemma total_all_settled {A} (ps : list (M A)) :
  Forall quiet ps → total (all_settled ps).
Proof.
  induction 1 as [|p ps Hp _ IH]; cbn.
  - apply total_ret.
  - apply total_bind.
    + apply total_try_catch; [|intros; apply total_ret].
      apply quiet_bind; [exact Hp | intros; apply quiet_ret].
    + intros r. apply total_bind; [exact IH | intros; apply total_ret].
Qed.

Lemma all_settled_fulfilled {A} (ps : list (M A)) (w : World) :
  Forall total ps →
  ∃ rs w', all_settled ps w = (Return rs, w') ∧ first_rejection rs = None ∧
           length (fulfilled rs) = length ps.
Proof.
  intros H. revert w. induction H as [|p ps Hp _ IH]; intros w; cbn.
  - eexists _, _. split; [reflexivity|]. split; reflexivity.
  - destruct (total_run p w Hp) as (a & w1 & Hrun & _).
    destruct (IH w1) as (rs & w2 & Hrest & Hnone & Hlen).
    exists (inr a :: rs), w2. unfold try_catch. rewrite !run_bind, Hrun.
    run_M. rewrite Hrest. split; [reflexivity|]. split; [exact Hnone|].
    cbn. rewrite Hlen. reflexivity.
Qed.

(** [Promise.all] over promises none of which rejects does not reject. *)
Lemma total_Promise_all {A} (ps : list (M A)) :
  Forall total ps → total (Promise_all ps).
Proof.
  intros H w. unfold Promise_all. rewrite run_bind.
  assert (Hq : Forall quiet ps) by (eapply Forall_impl; [exact H | apply @total_quiet]).
  destruct (total_all_settled ps Hq w) as [_ Hc].
  destruct (all_settled_fulfilled ps w H) as (rs & w' & Hrun & Hnone & _).
  rewrite Hrun in Hc |- *. rewrite Hnone. split; [eexists; reflexivity | exact Hc].
Qed.

Create HintDb total.

#[local] Hint Resolve total_ret quiet_ret quiet_throw quiet_of_result total_tick
  total_emit total_console_warn total_console_error total_get_clients : total.

Ltac quiet_step :=
  repeat first
    [ apply quiet_bind; [|intros ?]
    | apply quiet_try_catch; [|intros ?]
    | solve [auto with total]
    | solve [apply total_quiet; auto with total]
    | match goal with
      | |- quiet (match ?x with _ => _ end) => destruct x
      | |- quiet (if ?b then _ else _) => destruct b
      end ].

Ltac total_step :=
  repeat first
    [ apply total_bind; [|intros ?]
    | solve [auto with total]
    | match goal with
      | |- total (match ?x with _ => _ end) => destruct x
      | |- total (if ?b then _ else _) => destruct b
      end ].

(** ** One round of function calls *)

Lemma insert_snoc {A} (l : list A) (x y : A) : <[length l := y]> (l ++ [x]) = l ++ [y].
Proof.
  rewrite insert_app_r_alt by reflexivity. rewrite Nat.sub_diag. reflexivity.
Qed.

Section Round.
Variable E : Environment.

Lemma quiet_getClient serverId : quiet (getClient serverId).
Proof. unfold getClient. quiet_step. Qed.

Lemma total_isConnected serverId : total (isConnected serverId).
Proof. unfold isConnected. total_step. Qed.

Lemma quiet_listTools serverId : quiet (listTools E serverId).
Proof.
  unfold listTools. apply quiet_bind; [apply quiet_getClient | intros c]. quiet_step.
Qed.

Lemma quiet_callTool serverId toolName args : quiet (callTool E serverId toolName args).
Proof.
  unfold callTool. apply quiet_bind; [apply quiet_getClient | intros c]. quiet_step.
Qed.

Lemma quiet_uploadImageToStorage data mimeType :
  quiet (uploadImageToStorage E data mimeType).
Proof. unfold uploadImageToStorage, generateFileName. quiet_step. Qed.

(** The rehoming callback catches what the upload throws. *)
Lemma total_rehomeImage item : total (rehomeImage E item).
Proof.
  unfold rehomeImage. destruct (_ && _); [|apply total_ret].
  apply total_try_catch.
  - apply quiet_bind; [apply quiet_uploadImageToStorage | intros; apply quiet_ret].
  - intros e. total_step.
Qed.

Lemma total_rehoming (content : list ContentItem) :
  total (Promise_all (map (rehomeImage E) content)).
Proof.
  apply total_Promise_all, List.Forall_forall. intros p Hp.
  apply List.in_map_iff in Hp as (item & <- & _). apply total_rehomeImage.
Qed.

(** A proposed call whose name is not in the table: an error response for
    the model, no record, no contact with any server. *)
Lemma executeFunctionCall_unknown toolMap acc fc w :
  toolMap !! fc_name fc = None →
  executeFunctionCall E toolMap acc fc w =
  (Return (acc.1,
           acc.2 ++ [{| fr_name := fc_name fc; fr_response := ErrorText "Unknown tool" |}]),
   {| ticks := ticks w;
      clients := clients w;
      trace := trace w ++ [EvConsoleError ("❌ [API] 알 수 없는 도구: " +:+ fc_name fc)] |}).
Proof. intros H. unfold executeFunctionCall. rewrite H. reflexivity. Qed.


(** Every step of the round returns; it adds one function response, at most
    one record, and changes nothing that was there. *)
Lemma executeFunctionCall_appends toolMap acc fc w :
  ∃ records response w',
    executeFunctionCall E toolMap acc fc w =
      (Return (acc.1 ++ records, acc.2 ++ [response]), w') ∧
    clients w' = clients w ∧
    fr_name response = fc_name fc ∧
    length records = match toolMap !! fc_name fc with Some _ => 1 | None => 0 end ∧
    Forall (recorded toolMap) records.
Proof.
  destruct (toolMap !! fc_name fc) as [info|] eqn:Hres.
  2:{ rewrite executeFunctionCall_unknown by exact Hres.
      exists [], {| fr_name := fc_name fc; fr_response := ErrorText "Unknown tool" |}.
      eexists. rewrite app_nil_r. auto. }
  assert (Hrec : ∀ record,
            tc_serverId record = ti_serverId info →
            tc_toolName record = ti_toolName info →
            tc_serverName record = ti_serverName info →
            Forall (recorded toolMap) [record]).
  { intros record ? ? ?. constructor; [|constructor].
    exists (fc_name fc), info. auto. }
  unfold executeFunctionCall, try_catch. rewrite Hres. run_M.
  match goal with
  | |- context [callTool E ?s ?t ?a ?w0] =>
      destruct (quiet_callTool s t a w0) as [Hfuel Hc];
      destruct (callTool E s t a w0) as [[mcpResult|e|] w1] eqn:Hcall
  end; cbn in Hfuel, Hc; [| |contradiction].
  - assert (Hre : total (if negb (isError mcpResult)
                         then processedContent ← Promise_all
                                                  (map (rehomeImage E) (res_content mcpResult));
                              mret {| res_content := processedContent;
                                      res_isError := res_isError mcpResult |}
                         else mret mcpResult)).
    { destruct (negb _); [|apply total_ret].
      apply total_bind; [apply total_rehoming | intros; apply total_ret]. }
    destruct (total_run _ w1 Hre) as (mcpResult' & w2 & Hrun & Hc2).
    unfold mbind, M_bind, mret, M_ret in Hrun. rewrite Hrun. cbn.
    rewrite insert_snoc. eexists [_], _, _. split; [reflexivity|]. cbn.
    split; [congruence|]. split; [reflexivity|]. split; [reflexivity|].
    apply Hrec; reflexivity.
  - rewrite insert_snoc. eexists [_], _, _. split; [reflexivity|]. cbn.
    split; [exact Hc|]. split; [reflexivity|]. split; [reflexivity|].
    apply Hrec; reflexivity.
Qed.

Lemma total_executeFunctionCall toolMap acc fc :
  total (executeFunctionCall E toolMap acc fc).
Proof.
  intros w. destruct (executeFunctionCall_appends toolMap acc fc w)
    as (records & response & w' & -> & Hc & _).
  split; [eexists; reflexivity | exact Hc].
Qed.

Lemma round_appends toolMap calls acc w :
  ∃ records responses w',
    for_of (executeFunctionCall E toolMap) calls acc w =
      (Return (acc.1 ++ records, acc.2 ++ responses), w') ∧
    clients w' = clients w ∧
    map fr_name responses = map fc_name calls ∧
    length records = resolvedCount toolMap calls ∧
    Forall (recorded toolMap) records.
Proof.
  revert acc w. induction calls as [|fc calls IH]; intros acc w; cbn [for_of].
  - exists [], [], w. rewrite !app_nil_r. destruct acc; auto 10.
  - destruct (executeFunctionCall_appends toolMap acc fc w)
      as (records & response & w1 & Hstep & Hc1 & Hname & Hlen & Hrecs).
    rewrite run_bind, Hstep.
    destruct (IH (acc.1 ++ records, acc.2 ++ [response]) w1)
      as (records' & responses' & w2 & Hrest & Hc2 & Hnames & Hlen' & Hrecs').
    cbn in Hrest. rewrite Hrest, <- !app_assoc.
    exists (records ++ records'), (response :: responses'), w2.
    split; [reflexivity|]. split; [congruence|]. split; [cbn; congruence|].
    split; [|apply Forall_app; auto].
    rewrite length_app, Hlen, Hlen'. unfold resolvedCount.
    rewrite filter_cons. destruct (toolMap !! fc_name fc) as [info|] eqn:Hres.
    + rewrite decide_True by eauto. reflexivity.
    + rewrite decide_False by (intros [? ?]; discriminate). reflexivity.
Qed.

End Round.

(** ** Rehoming of images *)

Section Rehoming.
Variable E : Environment.

Lemma rehomeImage_other item w :
  inlineImage item = false → rehomeImage E item w = (Return item, w).
Proof.
  unfold rehomeImage, inlineImage. intros ->. reflexivity.
Qed.

Lemma rehomeImage_uploaded item w url w' :
  inlineImage item = true →
  uploadImageToStorage E (default "" (item_data item))
    (or_default (item_mimeType item) "image/png") w = (Return url, w') →
  rehomeImage E item w = (Return (rehomed item url), w').
Proof.
  unfold rehomeImage, inlineImage. intros -> Hup.
  unfold try_catch. rewrite run_bind, Hup. reflexivity.
Qed.

Lemma rehomeImage_failed item w e w' :
  inlineImage item = true →
  uploadImageToStorage E (default "" (item_data item))
    (or_default (item_mimeType item) "image/png") w = (Throw e, w') →
  rehomeImage E item w =
  (Return item,
   {| ticks := ticks w'; clients := clients w';
      trace := trace w' ++ [EvConsoleError "❌ [API] 이미지 업로드 실패:"] |}).
Proof.
  unfold rehomeImage, inlineImage. intros -> Hup.
  unfold try_catch. rewrite run_bind, Hup. reflexivity.
Qed.

(** Whatever the store does, an item comes back either as it was or with
    its inline data replaced by a URL. *)
Lemma rehomeImage_cases item w :
  ∃ item' w',
    rehomeImage E item w = (Return item', w') ∧
    (item' = item ∨ (inlineImage item = true ∧ ∃ url, item' = rehomed item url)).
Proof.
  destruct (inlineImage item) eqn:Himg.
  - destruct (quiet_uploadImageToStorage E (default "" (item_data item))
                (or_default (item_mimeType item) "image/png") w) as [Hfuel _].
    destruct (uploadImageToStorage E (default "" (item_data item))
                (or_default (item_mimeType item) "image/png") w)
      as [[url|e|] w'] eqn:Hup; cbn in Hfuel; [| |contradiction].
    + rewrite (rehomeImage_uploaded _ _ _ _ Himg Hup). eauto 10.
    + rewrite (rehomeImage_failed _ _ _ _ Himg Hup). eauto.
  - rewrite rehomeImage_other by exact Himg. eauto.
Qed.

Lemma Promise_all_rehomeImage_cons item content w :
  Promise_all (map (rehomeImage E) (item :: content)) w =
  (item' ← rehomeImage E item;
   rest ← Promise_all (map (rehomeImage E) content);
   mret (item' :: rest)) w.
Proof.
  destruct (rehomeImage_cases item w) as (item' & w1 & Hitem & _).
  destruct (all_settled_fulfilled (map (rehomeImage E) content) w1)
    as (rs & w2 & Hrest & Hnone & _).
  { apply List.Forall_forall. intros p Hp.
    apply List.in_map_iff in Hp as (x & <- & _). apply total_rehomeImage. }
  unfold Promise_all. cbn [map all_settled]. unfold try_catch.
  rewrite !run_bind, Hitem. run_M. rewrite Hrest. cbn. rewrite Hnone. reflexivity.
Qed.

(** An upload takes two interactions, whatever becomes of it. *)
Lemma uploadImageToStorage_ticks data mimeType w :
  ticks (uploadImageToStorage E data mimeType w).2 = 2 + ticks w.
Proof.
  unfold uploadImageToStorage, try_catch, generateFileName. run_M.
  destruct (Storage_upload E _ _ _ _) as [e|[data' [message|]]]; cbn; try reflexivity.
  destruct data'; cbn; [|reflexivity].
  destruct (truthy _); reflexivity.
Qed.

(** The callback, with the time at which it runs. *)
Lemma rehomeImage_at item w :
  ∃ item' w',
    rehomeImage E item w = (Return item', w') ∧
    rehomedAt E (ticks w) item item' ∧
    ticks w' = (if inlineImage item then 2 else 0) + ticks w.
Proof.
  unfold rehomedAt. destruct (inlineImage item) eqn:Himg.
  - destruct (quiet_uploadImageToStorage E (default "" (item_data item))
                (or_default (item_mimeType item) "image/png") w) as [Hfuel _].
    pose proof (uploadImageToStorage_ticks (default "" (item_data item))
                  (or_default (item_mimeType item) "image/png") w) as Hticks.
    destruct (uploadImageToStorage E (default "" (item_data item))
                (or_default (item_mimeType item) "image/png") w)
      as [[url|e|] w'] eqn:Hup; cbn in Hfuel, Hticks; [| |contradiction].
    + rewrite (rehomeImage_uploaded _ _ _ _ Himg Hup).
      eexists _, _. split; [reflexivity|]. split; [|exact Hticks].
      exists w. split; [reflexivity|]. left. eauto.
    + rewrite (rehomeImage_failed _ _ _ _ Himg Hup).
      eexists _, _. split; [reflexivity|]. split; [|exact Hticks].
      exists w. split; [reflexivity|]. right. eauto.
  - rewrite rehomeImage_other by exact Himg. eauto.
Qed.

Lemma inlineImagesBefore_cons i item content :
  inlineImagesBefore (S i) (item :: content) =
  (if inlineImage item then 1 else 0) + inlineImagesBefore i content.
Proof.
  unfold inlineImagesBefore. cbn [take]. rewrite filter_cons.
  destruct (decide (inlineImage item = true)) as [->|Hno]; [reflexivity|].
  apply not_true_is_false in Hno. rewrite Hno. reflexivity.
Qed.

(** The whole content, item by item. *)
Lemma Promise_all_rehomeImage_at content w :
  ∃ content' w',
    Promise_all (map (rehomeImage E) content) w = (Return content', w') ∧
    length content' = length content ∧
    (∀ i old,
       content !! i = Some old →
       ∃ new,
         content' !! i = Some new ∧
         rehomedAt E (ticks w + 2 * inlineImagesBefore i content) old new).
Proof.
  revert w. induction content as [|item content IH]; intros w.
  - exists [], w. split; [reflexivity|]. split; [reflexivity|].
    intros i old Hlook. rewrite lookup_nil in Hlook. discriminate.
  - rewrite Promise_all_rehomeImage_cons.
    destruct (rehomeImage_at item w) as (item' & w1 & Hitem & Hat & Hticks).
    destruct (IH w1) as (rest & w2 & Hrest & Hlen & Hall).
    rewrite run_bind, Hitem, run_bind, Hrest.
    exists (item' :: rest), w2. split; [reflexivity|]. split; [cbn; lia|].
    intros [|i] old Hlook; cbn in Hlook.
    + inversion Hlook; subst old. exists item'. split; [reflexivity|].
      unfold inlineImagesBefore. cbn. rewrite Nat.add_0_r. exact Hat.
    + destruct (Hall i old Hlook) as (new & Hnew & Hi).
      exists new. split; [exact Hnew|].
      rewrite inlineImagesBefore_cons. rewrite Hticks in Hi.
      replace (ticks w + 2 * ((if inlineImage item then 1 else 0) +
                              inlineImagesBefore i content))
        with ((if inlineImage item then 2 else 0) + ticks w +
              2 * inlineImagesBefore i content)
        by (destruct (inlineImage item); lia).
      exact Hi.
Qed.

(** A tool call whose result is not an error is recorded as a success with
    the rehomed content, whatever became of the uploads. *)
Lemma executeFunctionCall_rehomes toolMap acc fc w info mcpResult w1 :
  toolMap !! fc_name fc = Some info →
  callTool E (ti_serverId info) (ti_toolName info) (fc_args fc) (elapsed 3 w) =
    (Return mcpResult, w1) →
  isError mcpResult = false →
  ∃ content' record w3,
    executeFunctionCall E toolMap acc fc w =
      (Return (acc.1 ++ [record],
               acc.2 ++ [{| fr_name := fc_name fc;
                            fr_response :=
                              ResultText (formatToolResult
                                            {| res_content := content';
                                               res_isError := res_isError mcpResult |}) |}]),
       w3) ∧
    tc_status record = success ∧
    tc_error record = None ∧
    tc_result record =
      Some {| res_content := content'; res_isError := res_isError mcpResult |} ∧
    length content' = length (res_content mcpResult) ∧
    (∀ i old,
       res_content mcpResult !! i = Some old →
       ∃ new,
         content' !! i = Some new ∧
         rehomedAt E (ticks w1 + 2 * inlineImagesBefore i (res_content mcpResult))
           old new).
Proof.
  intros Hres Hcall Hok.
  destruct (Promise_all_rehomeImage_at (res_content mcpResult) w1)
    as (content' & w2 & Hre & Hlen & Hitems).
  exists content'.
  unfold executeFunctionCall, try_catch. rewrite Hres. run_M.
  change {| ticks := S (S (S (ticks w))); clients := clients w; trace := trace w |}
    with (elapsed 3 w).
  rewrite Hcall, Hok. cbn.
  unfold mbind, M_bind in Hre. rewrite Hre. cbn.
  rewrite insert_snoc. unfold isError in *. cbn. rewrite Hok.
  eexists _, _. split; [reflexivity|]. split; [reflexivity|]. cbn. auto.
Qed.

End Rehoming.

(** ** Connecting and disconnecting *)

Section Registry.
Variable E : Environment.

Lemma disconnect_absent serverId w :
  clients w !! serverId = None → disconnect E serverId w = (Return tt, w).
Proof. intros H. unfold disconnect. run_M. rewrite H. reflexivity. Qed.

Lemma disconnect_closed serverId w instance :
  clients w !! serverId = Some instance →
  Client_close E (ticks w) (inst_client instance) = None →
  disconnect E serverId w =
  (Return tt,
   {| ticks := S (ticks w);
      clients := delete serverId (clients w);
      trace := trace w ++ [EvClientClose (inst_client instance)] |}).
Proof.
  intros H Hclose. unfold disconnect, client_close. run_M. rewrite H. run_M.
  rewrite Hclose. reflexivity.
Qed.

Lemma disconnect_failed serverId w instance e :
  clients w !! serverId = Some instance →
  Client_close E (ticks w) (inst_client instance) = Some e →
  disconnect E serverId w =
  (Throw e,
   {| ticks := S (ticks w);
      clients := clients w;
      trace := trace w ++ [EvClientClose (inst_client instance)] |}).
Proof.
  intros H Hclose. unfold disconnect, client_close. run_M. rewrite H. run_M.
  rewrite Hclose. reflexivity.
Qed.

(** After a [disconnect] that returned there is no handle for the id. *)
Lemma disconnect_returned serverId w w1 :
  disconnect E serverId w = (Return tt, w1) →
  clients w1 = delete serverId (clients w).
Proof.
  destruct (clients w !! serverId) as [instance|] eqn:H.
  - destruct (Client_close E (ticks w) (inst_client instance)) as [e|] eqn:Hclose.
    + rewrite (disconnect_failed _ _ _ _ H Hclose). discriminate.
    + rewrite (disconnect_closed _ _ _ H Hclose). intros Heq. inversion Heq. reflexivity.
  - rewrite (disconnect_absent _ _ H). intros Heq. inversion Heq; subst.
    symmetry. apply delete_id. exact H.
Qed.

(** The first step of [connect] is a [disconnect], which does nothing when
    there is no handle. *)
Lemma connect_unfold config w :
  connect E config w =
  (disconnect E (cfg_id config);;
   transport ← of_result (createTransport E config);
   client ← new_Client;
   try_catch
     (client_connect E client transport;;
      table' ← get_clients;
      put_clients
        (<[cfg_id config :=
             {| inst_client := client;
                inst_transport := transport;
                inst_config := config |}]> table'))
     (λ error,
        console_error "[MCP Client] 연결 실패:";;
        try_catch (client_close E client) (λ _, mret tt);;
        mthrow error)) w.
Proof.
  unfold connect. rewrite !run_bind. cbn [get_clients].
  case_bool_decide as Hhas; [reflexivity|].
  rewrite disconnect_absent; [reflexivity|].
  destruct (clients w !! cfg_id config); [exfalso; eauto | reflexivity].
Qed.

(** [connect] after its first step, when the transport cannot be built. *)
Lemma connect_no_transport config w w1 e :
  disconnect E (cfg_id config) w = (Return tt, w1) →
  createTransport E config = inl e →
  connect E config w = (Throw e, w1).
Proof.
  intros Hdis Hbuild. rewrite connect_unfold, run_bind, Hdis, run_bind, Hbuild.
  reflexivity.
Qed.

(** ... when the handshake fails: the client is closed, whatever the close
    does, and the error of the handshake is thrown. *)
Lemma connect_handshake_failed config w w1 transport e :
  disconnect E (cfg_id config) w = (Return tt, w1) →
  createTransport E config = inr transport →
  let client := {| client_serial := ticks w1;
                   client_name := "mcp-client-app";
                   client_version := "1.0.0" |} in
  Client_connect E (S (ticks w1)) client transport = Some e →
  connect E config w =
  (Throw e,
   {| ticks := 3 + ticks w1;
      clients := clients w1;
      trace := trace w1 ++ [EvClientConnect client transport;
                            EvConsoleError "[MCP Client] 연결 실패:";
                            EvClientClose client] |}).
Proof.
  intros Hdis Hbuild client Hshake.
  rewrite connect_unfold, run_bind, Hdis, run_bind, Hbuild.
  unfold new_Client, client_connect, client_close, try_catch. run_M.
  fold client. rewrite Hshake. run_M.
  rewrite <- !app_assoc. cbn.
  destruct (Client_close E (S (S (ticks w1))) client); reflexivity.
Qed.

(** ... and when the handshake succeeds. *)
Lemma connect_installed config w w1 transport :
  disconnect E (cfg_id config) w = (Return tt, w1) →
  createTransport E config = inr transport →
  let client := {| client_serial := ticks w1;
                   client_name := "mcp-client-app";
                   client_version := "1.0.0" |} in
  Client_connect E (S (ticks w1)) client transport = None →
  connect E config w =
  (Return tt,
   {| ticks := 2 + ticks w1;
      clients := <[cfg_id config :=
                     {| inst_client := client;
                        inst_transport := transport;
                        inst_config := config |}]> (clients w1);
      trace := trace w1 ++ [EvClientConnect client transport] |}).
Proof.
  intros Hdis Hbuild client Hshake.
  rewrite connect_unfold, run_bind, Hdis, run_bind, Hbuild.
  unfold new_Client, client_connect, try_catch. run_M.
  fold client. rewrite Hshake. reflexivity.
Qed.

End Registry.

(** ** Disconnecting every server *)

Section Teardown.
Variable E : Environment.

Lemma first_rejection_Some {A} (rs : list (exn + A)) (e : exn) :
  first_rejection rs = Some e → inl e ∈ rs.
Proof.
  induction rs as [|[e'|a] rs IH]; cbn; intros H.
  - discriminate.
  - inversion H; subst. left.
  - right. auto.
Qed.

Lemma first_rejection_None {A} (rs : list (exn + A)) (e : exn) :
  first_rejection rs = None → inl e ∉ rs.
Proof.
  induction rs as [|[e'|a] rs IH]; cbn; intros H Hin.
  - inversion Hin.
  - discriminate.
  - apply elem_of_cons in Hin as [Heq|Hin]; [discriminate | exact (IH H Hin)].
Qed.

(** What the started [disconnect]s have done when all of them have settled. *)
Lemma settle_disconnects (ids : list string) (w : World) :
  NoDup ids →
  ∃ rs w' closes,
    all_settled (map (disconnect E) ids) w = (Return rs, w') ∧
    trace w' = trace w ++ closes ∧
    Forall is_close closes ∧
    (∀ id, id ∉ ids → clients w' !! id = clients w !! id) ∧
    (∀ id, clients w !! id = None → clients w' !! id = None) ∧
    (∀ id instance,
       id ∈ ids → clients w !! id = Some instance →
       EvClientClose (inst_client instance) ∈ closes ∧
       ∃ n,
         (Client_close E n (inst_client instance) = None ∧ clients w' !! id = None) ∨
         (∃ e, Client_close E n (inst_client instance) = Some e ∧
               clients w' !! id = Some instance ∧ inl e ∈ rs)) ∧
    (∀ e, inl e ∈ rs →
       ∃ id instance n,
         clients w !! id = Some instance ∧
         Client_close E n (inst_client instance) = Some e ∧
         clients w' !! id = Some instance).
Proof.
  intros Hnodup. revert w.
  induction Hnodup as [|id ids Hnotin Hnodup IH]; intros w.
  { exists [], w, []. cbn. rewrite app_nil_r.
    split; [reflexivity|]. split; [reflexivity|]. split; [constructor|].
    split; [reflexivity|]. split; [auto|]. split.
    - intros sid instance Hin. inversion Hin.
    - intros e Hin. inversion Hin. }
  cbn [map all_settled]. unfold try_catch. rewrite !run_bind.
  destruct (clients w !! id) as [instance|] eqn:Hid.
  - destruct (Client_close E (ticks w) (inst_client instance)) as [e|] eqn:Hclose.
    + (* the close of [id] throws: the handle stays *)
      rewrite (disconnect_failed E _ _ _ _ Hid Hclose). run_M.
      match goal with |- context [all_settled _ ?w0] => destruct (IH w0)
        as (rs & w' & closes & Hrun & Htrace & Hcloses & Hout & Hnone & Hin & Hrej) end.
      cbn in Htrace, Hout, Hnone, Hin, Hrej. rewrite Hrun.
      exists (inl e :: rs), w', (EvClientClose (inst_client instance) :: closes).
      split; [reflexivity|]. split; [rewrite Htrace, <- app_assoc; reflexivity|].
      split; [constructor; [exact I | exact Hcloses]|].
      split; [intros id' Hid'; apply Hout; intros ?; apply Hid'; right; assumption|].
      split; [exact Hnone|]. split.
      * intros id' instance' Hid' Hlook. apply elem_of_cons in Hid' as [->|Hid'].
        -- rewrite Hid in Hlook. inversion Hlook; subst instance'.
           split; [left|]. exists (ticks w). right. exists e.
           split; [exact Hclose|]. split; [rewrite Hout by exact Hnotin; exact Hid | left].
        -- destruct (Hin id' instance' Hid' Hlook) as [Hev [n Hn]].
           split; [right; exact Hev|]. exists n.
           destruct Hn as [Hn|(e' & ? & ? & ?)]; [left; exact Hn|].
           right. exists e'. repeat split; try assumption. right. assumption.
      * intros e' He'. apply elem_of_cons in He' as [Heq|He'].
        -- inversion Heq; subst e'. exists id, instance, (ticks w).
           split; [exact Hid|]. split; [exact Hclose|].
           rewrite Hout by exact Hnotin. exact Hid.
        -- apply Hrej, He'.
    + (* the close of [id] returns: the handle is removed *)
      rewrite (disconnect_closed E _ _ _ Hid Hclose). run_M.
      match goal with |- context [all_settled _ ?w0] => destruct (IH w0)
        as (rs & w' & closes & Hrun & Htrace & Hcloses & Hout & Hnone & Hin & Hrej) end.
      cbn in Htrace, Hout, Hnone, Hin, Hrej. rewrite Hrun.
      exists (inr tt :: rs), w', (EvClientClose (inst_client instance) :: closes).
      split; [reflexivity|]. split; [rewrite Htrace, <- app_assoc; reflexivity|].
      split; [constructor; [exact I | exact Hcloses]|].
      split.
      { intros id' Hid'. rewrite Hout by (intros ?; apply Hid'; right; assumption).
        apply lookup_delete_ne. intros ->. apply Hid'. left. }
      split.
      { intros id' Hlook. apply Hnone.
        destruct (decide (id = id')) as [->|Hne];
          [apply lookup_delete_eq | rewrite lookup_delete_ne by exact Hne; exact Hlook]. }
      split.
      * intros id' instance' Hid' Hlook. apply elem_of_cons in Hid' as [->|Hid'].
        -- rewrite Hid in Hlook. inversion Hlook; subst instance'.
           split; [left|]. exists (ticks w). left.
           split; [exact Hclose|]. rewrite Hout by exact Hnotin. apply lookup_delete_eq.
        -- assert (Hne : id ≠ id') by (intros ->; contradiction).
           destruct (Hin id' instance' Hid') as [Hev [n Hn]];
             [rewrite lookup_delete_ne by exact Hne; exact Hlook|].
           split; [right; exact Hev|]. exists n.
           destruct Hn as [Hn|(e' & ? & ? & ?)]; [left; exact Hn|].
           right. exists e'. repeat split; try assumption. right. assumption.
      * intros e' He'. apply elem_of_cons in He' as [Heq|He']; [discriminate|].
        destruct (Hrej e' He') as (id' & instance' & n & Hlook & Hc & Hstay).
        exists id', instance', n.
        destruct (decide (id = id')) as [->|Hne].
        -- rewrite lookup_delete_eq in Hlook. discriminate.
        -- rewrite lookup_delete_ne in Hlook by exact Hne. auto.
  - (* no handle for [id] *)
    rewrite (disconnect_absent E _ _ Hid). run_M.
    destruct (IH w) as (rs & w' & closes & Hrun & Htrace & Hcloses & Hout & Hnone & Hin & Hrej).
    rewrite Hrun. exists (inr tt :: rs), w', closes.
    split; [reflexivity|]. split; [exact Htrace|]. split; [exact Hcloses|].
    split; [intros id' Hid'; apply Hout; intros ?; apply Hid'; right; assumption|].
    split; [exact Hnone|]. split.
    + intros id' instance' Hid' Hlook. apply elem_of_cons in Hid' as [->|Hid'].
      * rewrite Hid in Hlook. discriminate.
      * destruct (Hin id' instance' Hid' Hlook) as [Hev [n Hn]].
        split; [exact Hev|]. exists n.
        destruct Hn as [Hn|(e' & ? & ? & ?)]; [left; exact Hn|].
        right. exists e'. repeat split; try assumption. right. assumption.
    + intros e' He'. apply elem_of_cons in He' as [Heq|He']; [discriminate|].
      apply Hrej, He'.
Qed.

Lemma disconnectAll_run (w : World) :
  disconnectAll E w =
  match all_settled (map (disconnect E) (map_to_list (clients w)).*1) w with
  | (Return rs, w') =>
      match first_rejection rs with
      | Some e => (Throw e, w')
      | None => (Return tt, w')
      end
  | (Throw e, w') => (Throw e, w')
  | (OutOfFuel, w') => (OutOfFuel, w')
  end.
Proof.
  unfold disconnectAll, Promise_all. run_M.
  destruct (all_settled _ w) as [[rs|e|] w']; try reflexivity.
  destruct (first_rejection rs); reflexivity.
Qed.

End Teardown.

(** ** A loop that uses up its budget *)

Section Exhaustion.
Variable E : Environment.
Variable txt : nat → string.
Hypothesis Hmodel : alwaysProposing E txt.

Lemma chat_sendMessage_proposing chat input w :
  ∃ fc fcs,
    chat_sendMessage E chat input w =
    (Return ({| chat_model := chat_model chat;
                chat_tools := chat_tools chat;
                chat_history := chat_history chat;
                chat_sent := chat_sent chat ++ [input] |},
             {| functionCalls := inr (Some (fc :: fcs));
                text := inr (txt (length (chat_sent chat))) |}),
     {| ticks := S (ticks w);
        clients := clients w;
        trace := trace w ++ [EvSendMessage input] |}).
Proof using Hmodel.
  destruct (Hmodel (ticks w) chat input) as (fc & fcs & Hanswer).
  exists fc, fcs. unfold chat_sendMessage. run_M. rewrite Hanswer. reflexivity.
Qed.

(** With such a model the loop runs all its iterations: it ends with the
    counter at [maxIterations], after one message per iteration, holding the
    answer to the last of them. *)
Lemma functionCallingLoop_exhausts toolMap fuel s w k fc fcs :
  fuel + ls_iterationCount s = maxIterations →
  length (chat_sent (ls_chat s)) = S k →
  ls_response s = {| functionCalls := inr (Some (fc :: fcs)); text := inr (txt k) |} →
  ∃ s' w',
    functionCallingLoop E toolMap fuel s w = (Return s', w') ∧
    ls_iterationCount s' = maxIterations ∧
    text (ls_response s') = inr (txt (k + fuel)) ∧
    sendMessageCount (trace w') = sendMessageCount (trace w) + fuel.
Proof using Hmodel.
  revert s w k fc fcs.
  induction fuel as [|fuel IH]; intros s w k fc fcs Hbudget Hsent Hresp;
    cbn [functionCallingLoop].
  - rewrite bool_decide_eq_false_2 by (cbn in Hbudget; lia).
    exists s, w. split; [reflexivity|]. split; [exact Hbudget|].
    rewrite Hresp, !Nat.add_0_r. auto.
  - rewrite bool_decide_eq_true_2 by lia.
    rewrite Hresp. cbn [functionCalls of_result]. rewrite run_bind. cbn [mret M_ret].
    destruct (round_appends E toolMap (fc :: fcs) (ls_toolCalls s, []) w)
      as (records & responses & w1 & Hround & _ & _ & _).
    pose proof (sends_for_of (executeFunctionCall E toolMap) (fc :: fcs)
                  (ls_toolCalls s, [])
                  (λ acc x, sends_executeFunctionCall E toolMap acc x) w) as Hcount.
    rewrite run_bind, Hround. rewrite Hround in Hcount. cbn [fst snd] in Hcount |- *.
    destruct (chat_sendMessage_proposing (ls_chat s) (FunctionResponses ([] ++ responses)) w1)
      as (fc' & fcs' & Hsend).
    rewrite run_bind, Hsend. cbn [fst snd].
    match goal with |- context [functionCallingLoop E toolMap fuel ?s0 ?w0] =>
      destruct (IH s0 w0 (S k) fc' fcs') as (s' & w' & Hloop & Hfull & Htext & Hsends)
    end.
    + cbn. lia.
    + cbn. rewrite length_app, Hsent. cbn. lia.
    + cbn. rewrite Hsent. reflexivity.
    + exists s', w'. split; [exact Hloop|]. split; [exact Hfull|].
      split; [rewrite Htext; f_equal; f_equal; lia|].
      cbn [trace] in Hsends. rewrite sendMessageCount_snoc in Hsends.
      cbn [is_sendMessage] in Hsends. lia.
Qed.

End Exhaustion.

(** ** The handler always answers *)

Section Answer.
Variable E : Environment.

Lemma total_registerTool acc enabledTool : total (registerTool E acc enabledTool).
Proof.
  unfold registerTool. apply total_try_catch; [|intros e; total_step].
  apply quiet_bind; [apply total_quiet, total_isConnected | intros connected].
  destruct (negb connected); [apply total_quiet; total_step|].
  apply quiet_bind; [apply quiet_listTools | intros tools]. quiet_step.
Qed.

Lemma total_registerTools req : total (registerTools E req).
Proof.
  unfold registerTools.
  destruct (req_mcpEnabled req) as [[]|], (req_enabledTools req) as [[]|];
    try apply total_ret.
  apply total_for_of. intros; apply total_registerTool.
Qed.

Lemma quiet_startChat chat : quiet (startChat E chat).
Proof. unfold startChat. quiet_step. Qed.

Lemma quiet_chat_sendMessage chat input : quiet (chat_sendMessage E chat input).
Proof. unfold chat_sendMessage. quiet_step. Qed.

(** The fuel that [POST] gives to the loop is enough. *)
Lemma quiet_functionCallingLoop toolMap fuel s :
  maxIterations ≤ fuel + ls_iterationCount s →
  quiet (functionCallingLoop E toolMap fuel s).
Proof.
  revert s. induction fuel as [|fuel IH]; intros s Hfuel; cbn [functionCallingLoop];
    case_bool_decide as Hlt; try apply quiet_ret;
    [exfalso; cbn in Hfuel; lia|].
  apply quiet_bind; [apply quiet_of_result | intros calls].
  destruct calls as [[|fc fcs]|]; try solve [quiet_step].
  apply quiet_bind.
  { apply total_quiet, total_for_of. intros; apply total_executeFunctionCall. }
  intros round. apply quiet_bind; [apply quiet_chat_sendMessage | intros sent].
  apply IH. unfold maxIterations in *. cbn. lia.
Qed.

Lemma quiet_finalText s : quiet (finalText s).
Proof. unfold finalText. quiet_step. Qed.

Lemma total_POST req : total (POST E req).
Proof.
  unfold POST. apply total_try_catch; [|intros e; total_step].
  destruct (negb _); [apply total_quiet; total_step|].
  destruct (decide _); [apply total_quiet; total_step|].
  apply quiet_bind; [apply total_quiet, total_registerTools | intros registered].
  apply quiet_bind; [apply quiet_startChat | intros _].
  apply quiet_bind; [apply quiet_chat_sendMessage | intros first].
  apply quiet_bind;
    [apply quiet_functionCallingLoop; cbn [ls_iterationCount]; lia | intros s].
  apply quiet_bind; [apply quiet_finalText | intros; apply quiet_ret].
Qed.

End Answer.

(** ** What the registration offers *)

Section Offered.
Variable E : Environment.

(** A step for a tool that its connected server lists. *)
Lemma registerTool_listed acc et w instance :
  clients w !! et_serverId et = Some instance →
  lists E (inst_client instance) (et_toolName et) →
  ∃ tool w',
    registerTool E acc et w =
    (Return (acc.1 ++ [convertMCPToolToFunctionDeclaration tool (et_serverId et)],
             <[functionName (et_serverId et) (et_toolName et) := toolInfoOf et]> acc.2),
     w') ∧
    tool_name tool = et_toolName et.
Proof.
  intros Hc Hlists. destruct (Hlists (ticks w)) as (tools & tool & Hanswer & Hin & Hname).
  unfold registerTool, try_catch, isConnected, listTools, getClient. run_M.
  rewrite Hc. run_M. rewrite Hc. run_M. rewrite Hanswer. run_M.
  match goal with |- context [find ?f ?l] => destruct (find f l) as [tool'|] eqn:Hfind end.
  - apply find_some in Hfind as [_ Hname']. apply bool_decide_eq_true in Hname'.
    run_M. exists tool'. eexists. split; [|exact Hname'].
    unfold toolInfoOf. rewrite <- Hname'. reflexivity.
  - exfalso. apply list_elem_of_In in Hin.
    eapply (List.in_map (λ tool0, {| tool_name := tool_name tool0;
                                     tool_description := tool_description tool0;
                                     tool_inputSchema := tool_inputSchema tool0 |}))
      in Hin.
    apply (find_none _ _ Hfind) in Hin. cbn in Hin.
    apply bool_decide_eq_false in Hin. contradiction.
Qed.

(** A step never removes anything. *)
Lemma registerTool_grows acc et w acc' w' :
  registerTool E acc et w = (Return acc', w') →
  clients w' = clients w ∧
  (∀ name, is_Some (acc.2 !! name) → is_Some (acc'.2 !! name)) ∧
  (∀ decl, decl ∈ acc.1 → decl ∈ acc'.1).
Proof.
  intros Hrun.
  destruct (total_registerTool E acc et w) as [_ Hcl]. rewrite Hrun in Hcl.
  split; [exact Hcl|].
  destruct (registerTool_cases E acc et w) as [[w1 H]|(tool & w1 & _ & H)];
    rewrite H in Hrun; inversion Hrun; subst; clear Hrun; [auto|].
  cbn. split.
  - intros name Hsome.
    destruct (decide (functionName (et_serverId et) (et_toolName et) = name)) as [<-|Hne].
    + rewrite lookup_insert_eq. eauto.
    + rewrite lookup_insert_ne by exact Hne. exact Hsome.
  - intros decl Hin. apply elem_of_app. left. exact Hin.
Qed.

Lemma for_of_registerTool_offers xs acc w :
  ∃ acc' w',
    for_of (registerTool E) xs acc w = (Return acc', w') ∧
    clients w' = clients w ∧
    (∀ name, is_Some (acc.2 !! name) → is_Some (acc'.2 !! name)) ∧
    (∀ decl, decl ∈ acc.1 → decl ∈ acc'.1) ∧
    (∀ et instance,
       et ∈ xs →
       clients w !! et_serverId et = Some instance →
       lists E (inst_client instance) (et_toolName et) →
       is_Some (acc'.2 !! functionName (et_serverId et) (et_toolName et)) ∧
       ∃ decl,
         decl ∈ acc'.1 ∧
         decl_name decl = functionName (et_serverId et) (et_toolName et)).
Proof.
  revert acc w. induction xs as [|x xs IH]; intros acc w; cbn [for_of].
  - exists acc, w. split; [reflexivity|]. split; [reflexivity|].
    split; [auto|]. split; [auto|]. intros et instance Hin. apply elem_of_nil in Hin.
    contradiction.
  - destruct (registerTool_returns E acc x w) as (acc1 & w1 & Hstep).
    destruct (registerTool_grows _ _ _ _ _ Hstep) as (Hcl1 & Hkeep1 & Hdecl1).
    destruct (IH acc1 w1) as (acc' & w' & Hrun & Hcl & Hkeep & Hdecl & Hoffer).
    rewrite run_bind, Hstep. exists acc', w'. split; [exact Hrun|].
    split; [congruence|]. split; [auto|]. split; [auto|].
    intros et instance Hin Hc Hlists. apply elem_of_cons in Hin as [->|Hin].
    + destruct (registerTool_listed acc x w instance Hc Hlists)
        as (tool & w1' & Hstep' & Hname).
      rewrite Hstep' in Hstep. inversion Hstep; subst acc1 w1'. split.
      * apply Hkeep. cbn. rewrite lookup_insert_eq. eauto.
      * eexists. split; [apply Hdecl; cbn; apply elem_of_app; right; left|].
        cbn. rewrite Hname. reflexivity.
    + apply (Hoffer et instance Hin); [rewrite Hcl1; exact Hc | exact Hlists].
Qed.

End Offered.

(** ** Records only for resolved calls *)

Section Records.
Variable E : Environment.

Lemma functionCallingLoop_records toolMap fuel s w s' w' :
  functionCallingLoop E toolMap fuel s w = (Return s', w') →
  Forall (recorded toolMap) (ls_toolCalls s) →
  Forall (recorded toolMap) (ls_toolCalls s').
Proof.
  revert s w. induction fuel as [|fuel IH]; intros s w; cbn [functionCallingLoop];
    case_bool_decide as Hlt; try (intros Hrun; inversion Hrun; subst; auto; fail).
  rewrite run_bind.
  destruct (functionCalls (ls_response s)) as [e|calls]; [discriminate|].
  cbn [of_result mret M_ret].
  destruct calls as [[|fc fcs]|].
  1,3: rewrite run_bind; destruct (text (ls_response s)) as [e|t]; [discriminate|];
       intros Hrun; inversion Hrun; subst; auto.
  destruct (round_appends E toolMap (fc :: fcs) (ls_toolCalls s, []) w)
    as (records & responses & w1 & Hround & _ & _ & _ & Hrecs).
  rewrite run_bind, Hround, run_bind.
  destruct (chat_sendMessage E (ls_chat s) _ w1) as [[sent|e|] w2]; try discriminate.
  intros Hrun Hold. apply IH in Hrun; [exact Hrun|].
  cbn. apply Forall_app. auto.
Qed.


End Records.

(** * The claims *)

(** C1 (as amended).  A chat request makes at most eleven calls of
    [chat.sendMessage]: one with the user's message before the
    function-calling loop and at most [maxIterations] = 10 inside it, one at
    the end of each round of function calls.  The bound holds for every
    model, every request and every state of the servers. *)
Theorem POST_sends_at_most_eleven (E : Environment) (req : ChatRequest) (w : World) :
  sendMessageCount (trace (POST E req w).2) ≤ sendMessageCount (trace w) + 11.
Proof.
  assert (Hsends : sends 11 (POST E req)).
  { unfold POST. apply (sends_try_catch 11 0); [|intros e; sends_zero].
    destruct (negb _).
    { eapply sends_weaken; [|apply Nat.le_0_l]. sends_zero. }
    destruct (decide _).
    { eapply sends_weaken; [|apply Nat.le_0_l]. sends_zero. }
    (* the table is built without a word to the model *)
    apply (sends_bind 0 11); [apply sends_registerTools | intros registered].
    apply (sends_bind 0 11); [apply sends_startChat | intros _].
    (* the user's message *)
    apply (sends_bind 1 10); [apply sends_chat_sendMessage | intros first].
    (* the loop, entered with the counter at 0 *)
    apply (sends_bind 10 0).
    { apply (sends_functionCallingLoop E _ _ {| ls_iterationCount := 0 |}). }
    intros s. apply sends_bind0; [apply sends_finalText | intros; apply sends_ret]. }
  apply (Hsends w).
Qed.

(** C1, as stated, fails: with a model that proposes a function call in
    every answer the handler makes an eleventh round-trip. *)
Lemma POST_eleventh_round_trip :
  sendMessageCount
    (trace (POST Sample.insistent Sample.hello Sample.emptyWorld).2) = 11 ∧
  ¬ sendMessageCount
      (trace (POST Sample.insistent Sample.hello Sample.emptyWorld).2) ≤ 10.
Proof.
  assert (H : sendMessageCount
                (trace (POST Sample.insistent Sample.hello Sample.emptyWorld).2) = 11)
    by (vm_compute; reflexivity).
  split; [exact H | rewrite H; lia].
Qed.

(** C2 (as amended).  The bridged name is the plain concatenation
    [serverId ++ "__" ++ toolName]; nothing is escaped and no tool is
    rejected.  Building the table never fails; every declaration offered to
    the model resolves; every entry of the table was written for an enabled
    tool under its bridged name; and every enabled tool that its connected
    server lists is offered and has an entry.  When no enabled server id
    ends in [_] or contains [__], or no enabled tool name starts with [_] or
    contains [__], the name bridged from an enabled pair
    [(serverId, toolName)] resolves to exactly that pair.  Without any
    condition, two servers that expose a tool of the same name get different
    function names, and so do two tools of one server. *)
Theorem resolve_bridged_name (E : Environment) (req : ChatRequest) (w : World) :
  let enabledTools := default [] (req_enabledTools req) in
  ∃ decls toolMap w',
    registerTools E req w = (Return (decls, toolMap), w') ∧
    (∀ decl, decl ∈ decls → is_Some (toolMap !! decl_name decl)) ∧
    (∀ name info,
       toolMap !! name = Some info →
       ∃ et, et ∈ enabledTools ∧
             name = functionName (et_serverId et) (et_toolName et) ∧
             info = toolInfoOf et) ∧
    (req_mcpEnabled req = Some true →
     ∀ et instance,
       et ∈ enabledTools →
       clients w !! et_serverId et = Some instance →
       lists E (inst_client instance) (et_toolName et) →
       is_Some (toolMap !! functionName (et_serverId et) (et_toolName et)) ∧
       ∃ decl,
         decl ∈ decls ∧
         decl_name decl = functionName (et_serverId et) (et_toolName et)) ∧
    ((∀ et, et ∈ enabledTools → ambiguousId (et_serverId et) = false) ∨
     (∀ et, et ∈ enabledTools → ambiguousTool (et_toolName et) = false) →
     ∀ et info,
       et ∈ enabledTools →
       toolMap !! functionName (et_serverId et) (et_toolName et) = Some info →
       ti_serverId info = et_serverId et ∧ ti_toolName info = et_toolName et) ∧
    (∀ serverId1 serverId2 toolName,
       functionName serverId1 toolName = functionName serverId2 toolName →
       serverId1 = serverId2) ∧
    (∀ serverId toolName1 toolName2,
       functionName serverId toolName1 = functionName serverId toolName2 →
       toolName1 = toolName2).
Proof.
  cbn zeta.
  destruct (registerTools_table E req w) as ([decls toolMap] & w' & Hrun & Hentries & Hdecls).
  exists decls, toolMap, w'. split; [exact Hrun|]. split; [exact Hdecls|].
  split; [exact Hentries|].
  split; [|split; [|split; [apply functionName_same_tool | apply functionName_same_server]]].
  - intros Hon et instance Het Hc Hlists.
    unfold registerTools in Hrun. rewrite Hon in Hrun.
    destruct (req_enabledTools req) as [[|et0 ets]|]; cbn [default] in Het;
      [apply elem_of_nil in Het; contradiction| |apply elem_of_nil in Het; contradiction].
    destruct (for_of_registerTool_offers E (et0 :: ets) ([], ∅) w)
      as (acc' & w1 & Hrun' & _ & _ & _ & Hoffer).
    rewrite Hrun' in Hrun. inversion Hrun; subst acc' w1.
    apply (Hoffer et instance Het Hc Hlists).
  - intros Hclean et info Het Hlook.
    destruct (Hentries _ _ Hlook) as (et' & Het' & Hname & ->). cbn.
    destruct (functionName_collision _ _ _ _ Hname)
      as [[-> ->]|[[Hid Htool]|[Hid Htool]]]; [auto| |].
    + exfalso. destruct Hclean as [Hclean|Hclean].
      * rewrite (Hclean et Het) in Hid. discriminate.
      * rewrite (Hclean et' Het') in Htool. discriminate.
    + exfalso. destruct Hclean as [Hclean|Hclean].
      * rewrite (Hclean et' Het') in Hid. discriminate.
      * rewrite (Hclean et Het) in Htool. discriminate.
Qed.

Lemma resolve_bridged_name_witness :
  ∃ decls toolMap w',
    registerTools Sample.searchers Sample.searchRequest Sample.searchWorld =
      (Return (decls, toolMap), w') ∧
    (∃ info,
       toolMap !! "srvA__web_search" = Some info ∧
       ti_serverId info = "srvA" ∧ ti_toolName info = "web_search") ∧
    (∃ info,
       toolMap !! "srvB__web_search" = Some info ∧
       ti_serverId info = "srvB" ∧ ti_toolName info = "web_search") ∧
    (∃ decl, decl ∈ decls ∧ decl_name decl = "srvA__web_search") ∧
    (∃ decl, decl ∈ decls ∧ decl_name decl = "srvB__web_search").
Proof.
  destruct (resolve_bridged_name Sample.searchers Sample.searchRequest Sample.searchWorld)
    as (decls & toolMap & w' & Hrun & _ & _ & Hoffer & Hexact & _).
  assert (Hclean : ∀ et, et ∈ default [] (req_enabledTools Sample.searchRequest) →
                         ambiguousId (et_serverId et) = false).
  { intros et Het. cbn in Het. rewrite !elem_of_cons, elem_of_nil in Het.
    destruct Het as [->|[->|[]]]; reflexivity. }
  assert (HA : Sample.enabled "srvA" "web_search"
                 ∈ default [] (req_enabledTools Sample.searchRequest)) by (cbn; left).
  assert (HB : Sample.enabled "srvB" "web_search"
                 ∈ default [] (req_enabledTools Sample.searchRequest))
    by (cbn; right; left).
  assert (Hlists : ∀ client, lists Sample.searchers client "web_search").
  { intros client n. exists [Sample.tool "web_search"], (Sample.tool "web_search").
    split; [reflexivity|]. split; [left | reflexivity]. }
  destruct (Hoffer eq_refl _ (Sample.handle 1 "srvA") HA eq_refl (Hlists _))
    as [[infoA HlookA] HdeclA].
  destruct (Hoffer eq_refl _ (Sample.handle 2 "srvB") HB eq_refl (Hlists _))
    as [[infoB HlookB] HdeclB].
  exists decls, toolMap, w'. split; [exact Hrun|].
  split; [exists infoA; split; [exact HlookA|];
          apply (Hexact (or_introl Hclean) _ _ HA HlookA)|].
  split; [exists infoB; split; [exact HlookB|];
          apply (Hexact (or_introl Hclean) _ _ HB HlookB)|].
  split; [exact HdeclA | exact HdeclB].
Defined.

(** C2, as stated, fails: server [a] with tool [b__c] and server [a__b] with
    tool [c] are bridged to the same function name, the second registration
    overwrites the first, and the name bridged from [(a, b__c)] resolves to
    [(a__b, c)]. *)
Lemma bridged_names_collide :
  ("a", "b__c") ≠ ("a__b", "c") ∧
  functionName "a" "b__c" = functionName "a__b" "c" ∧
  match (registerTools Sample.ambiguous Sample.ambiguousRequest
           Sample.ambiguousWorld).1 with
  | Return registered =>
      length registered.1 = 2 ∧
      registered.2 !! functionName "a" "b__c" =
        Some {| ti_serverId := "a__b"; ti_toolName := "c"; ti_serverName := "a__b" |}
  | _ => False
  end.
Proof. split; [discriminate|]. vm_compute. auto. Qed.

(** C7 (as amended).  For a stdio configuration with a command, the
    environment handed to the process transport is the merge of the ambient
    environment and the configuration's entries (the configuration wins),
    from which the entries whose value is [undefined] or the empty string
    are removed after the merge.  So a key that the configuration lists with
    an empty value is absent from the transport's environment, whatever the
    ambient value was; no empty placeholder is passed on. *)
Theorem stdio_environment (E : Environment) (config : MCPServerConfig)
    (command : string) :
  cfg_transport config = "stdio" →
  cfg_command config = Some command →
  command ≠ "" →
  ∃ env,
    createTransport E config =
      inr (StdioClientTransport command (default [] (cfg_args config)) env) ∧
    (∀ key,
       env !! key =
       keptValue (match default ∅ (cfg_env config) !! key with
                  | Some entry => Some entry
                  | None => process_env E !! key
                  end)) ∧
    (∀ key, default ∅ (cfg_env config) !! key = Some (Some "") → env !! key = None) ∧
    (∀ key value, env !! key = Some value → value ≠ "").
Proof.
  intros Htransport Hcommand Hne.
  exists (stripEnv (envRaw E config)).
  assert (Hlook : ∀ key,
            stripEnv (envRaw E config) !! key =
            keptValue (match default ∅ (cfg_env config) !! key with
                       | Some entry => Some entry
                       | None => process_env E !! key
                       end)).
  { intros key. rewrite stripEnv_lookup, envRaw_lookup. reflexivity. }
  split; [|split; [exact Hlook|split]].
  - unfold createTransport. rewrite Htransport, Hcommand. cbn.
    rewrite decide_True by reflexivity.
    rewrite bool_decide_eq_true_2 by exact Hne. reflexivity.
  - intros key Hkey. rewrite Hlook, Hkey. reflexivity.
  - intros key value. rewrite Hlook. unfold keptValue.
    destruct (match default ∅ (cfg_env config) !! key with
              | Some entry => Some entry
              | None => process_env E !! key
              end) as [[v|]|]; try discriminate.
    destruct (decide (v = "")); [discriminate|]. congruence.
Qed.

Lemma stdio_environment_witness :
  cfg_transport Sample.blankToken = "stdio" ∧
  cfg_command Sample.blankToken = Some "npx" ∧
  "npx" ≠ "" ∧
  ∃ env,
    createTransport Sample.withSecret Sample.blankToken =
      inr (StdioClientTransport "npx" (default [] (cfg_args Sample.blankToken)) env) ∧
    (∀ key,
       env !! key =
       keptValue (match default ∅ (cfg_env Sample.blankToken) !! key with
                  | Some entry => Some entry
                  | None => process_env Sample.withSecret !! key
                  end)) ∧
    (∀ key, default ∅ (cfg_env Sample.blankToken) !! key = Some (Some "") →
            env !! key = None) ∧
    (∀ key value, env !! key = Some value → value ≠ "").
Proof.
  split; [reflexivity|]. split; [reflexivity|].
  assert (Hne : "npx" ≠ "") by discriminate.
  split; [exact Hne|].
  apply (stdio_environment Sample.withSecret Sample.blankToken "npx");
    [reflexivity | reflexivity | exact Hne].
Defined.

(** C7, as stated, fails: with [API_TOKEN=secret] in the ambient environment
    and [API_TOKEN] listed with an empty value in the configuration, the
    ambient value does not survive: the key is missing from the environment
    of the transport. *)
Lemma blank_entry_erases_ambient_value :
  process_env Sample.withSecret !! "API_TOKEN" = Some (Some "secret") ∧
  match createTransport Sample.withSecret Sample.blankToken with
  | inr (StdioClientTransport _ _ env) =>
      env !! "API_TOKEN" = None ∧ env !! "API_TOKEN" ≠ Some "secret"
  | _ => False
  end.
Proof. vm_compute. repeat split; discriminate. Qed.

(** C9.  When [callTool] returns, the content of its result has the length
    of the wire content and the same type tag at every position; a wire item
    whose type is none of ["text"], ["image"], ["resource"] is still there,
    with its type tag and without any payload field. *)
Theorem callTool_keeps_unknown_items (E : Environment)
    (serverId toolName : string) (args : Args) (w w' : World)
    (result : MCPToolCallResult) :
  callTool E serverId toolName args w = (Return result, w') →
  ∃ instance wire,
    clients w !! serverId = Some instance ∧
    Client_callTool E (ticks w) (inst_client instance) toolName args = inr wire ∧
    length (res_content result) = length (wire_content wire) ∧
    (∀ i c,
       wire_content wire !! i = Some c →
       ∃ item,
         res_content result !! i = Some item ∧
         item_type item = wire_type c ∧
         (wire_type c ≠ "text" → wire_type c ≠ "image" → wire_type c ≠ "resource" →
          item = {| item_type := wire_type c; item_text := None; item_data := None;
                    item_mimeType := None; item_url := None |})).
Proof.
  intros Hrun.
  destruct (callTool_returns E _ _ _ _ _ _ Hrun) as (instance & wire & Hc & Hcall & Hmap & _).
  exists instance, wire. split; [exact Hc|]. split; [exact Hcall|].
  split; [eapply map_throwing_length; exact Hmap|].
  intros i c Hi.
  destruct (map_throwing_lookup _ _ _ _ _ Hmap Hi) as (item & Hitem & Hnorm).
  exists item. split; [exact Hitem|]. split; [eapply normalizeContent_type; exact Hnorm|].
  intros H1 H2 H3. rewrite normalizeContent_unknown in Hnorm by assumption.
  congruence.
Qed.

Lemma callTool_keeps_unknown_items_witness :
  ∃ result w',
    callTool Sample.searchers "srvA" "web_search" [] Sample.searchWorld =
      (Return result, w') ∧
    res_content result !! 1 =
      Some {| item_type := "audio"; item_text := None; item_data := None;
              item_mimeType := None; item_url := None |} ∧
    ∃ instance wire,
      clients Sample.searchWorld !! "srvA" = Some instance ∧
      Client_callTool Sample.searchers (ticks Sample.searchWorld)
        (inst_client instance) "web_search" [] = inr wire ∧
      length (res_content result) = length (wire_content wire) ∧
      (∀ i c,
         wire_content wire !! i = Some c →
         ∃ item,
           res_content result !! i = Some item ∧
           item_type item = wire_type c ∧
           (wire_type c ≠ "text" → wire_type c ≠ "image" → wire_type c ≠ "resource" →
            item = {| item_type := wire_type c; item_text := None; item_data := None;
                      item_mimeType := None; item_url := None |})).
Proof.
  eexists _, _. split; [vm_compute; reflexivity|]. split; [reflexivity|].
  eapply (callTool_keeps_unknown_items Sample.searchers "srvA" "web_search" []
            Sample.searchWorld).
  vm_compute. reflexivity.
Defined.



(** C4.  Let a resolved tool call return a result that is not an error.
    Then the call is recorded with status ["success"] and no error text,
    whatever the object store did, and the content of the recorded result,
    which is also what the model gets as text, has the length of the
    content that the server sent and is, position by position: the item of
    the server when that is no image with inline data; for an image with
    inline data, the item with its data removed and the public URL in [url]
    (type, text and MIME type as before) when its upload returns that URL,
    and the item as the server sent it, data and MIME type included, when
    its upload throws.  The upload of an item is the one started when the
    uploads of the inline images before it have taken their two interactions
    each.  An upload never does anything but return or throw, and a throw
    stays inside the callback, where it is written to the console. *)
Theorem image_rehoming (E : Environment) (toolMap : gmap string ToolInfo)
    (acc : list ToolCall * list FunctionResponse) (fc : FunctionCall)
    (info : ToolInfo) (mcpResult : MCPToolCallResult) (w w1 : World) :
  toolMap !! fc_name fc = Some info →
  callTool E (ti_serverId info) (ti_toolName info) (fc_args fc) (elapsed 3 w) =
    (Return mcpResult, w1) →
  isError mcpResult = false →
  (∃ content' record w3,
     executeFunctionCall E toolMap acc fc w =
       (Return (acc.1 ++ [record],
                acc.2 ++ [{| fr_name := fc_name fc;
                             fr_response :=
                               ResultText (formatToolResult
                                             {| res_content := content';
                                                res_isError := res_isError mcpResult |}) |}]),
        w3) ∧
     tc_status record = success ∧
     tc_error record = None ∧
     tc_result record =
       Some {| res_content := content'; res_isError := res_isError mcpResult |} ∧
     length content' = length (res_content mcpResult) ∧
     (∀ i old,
        res_content mcpResult !! i = Some old →
        ∃ new,
          content' !! i = Some new ∧
          rehomedAt E (ticks w1 + 2 * inlineImagesBefore i (res_content mcpResult))
            old new)) ∧
  (∀ item url,
     item_data (rehomed item url) = None ∧
     item_url (rehomed item url) = Some url ∧
     item_type (rehomed item url) = item_type item ∧
     item_text (rehomed item url) = item_text item ∧
     item_mimeType (rehomed item url) = item_mimeType item) ∧
  (∀ item w0,
     inlineImage item = true →
     (uploadOf E item w0).1 ≠ OutOfFuel ∧
     (∀ url w',
        uploadOf E item w0 = (Return url, w') →
        rehomeImage E item w0 = (Return (rehomed item url), w')) ∧
     (∀ e w',
        uploadOf E item w0 = (Throw e, w') →
        rehomeImage E item w0 =
          (Return item,
           {| ticks := ticks w'; clients := clients w';
              trace := trace w' ++
                       [EvConsoleError "❌ [API] 이미지 업로드 실패:"] |}))).
Proof.
  intros Hres Hcall Hok. split; [|split].
  - apply (executeFunctionCall_rehomes E toolMap acc fc w info mcpResult w1 Hres Hcall Hok).
  - intros item url. cbn. auto.
  - intros item w0 Himg. split; [apply quiet_uploadImageToStorage|]. split.
    + intros url w' Hrun. apply (rehomeImage_uploaded E _ _ _ _ Himg Hrun).
    + intros e w' Hrun. apply (rehomeImage_failed E _ _ _ _ Himg Hrun).
Qed.

Lemma image_rehoming_witness :
  ∃ content' record w3,
    executeFunctionCall Sample.searchers Sample.searchTable ([], []) Sample.searchCall
      Sample.searchWorld =
      (Return ([] ++ [record],
               [] ++ [{| fr_name := "srvA__web_search";
                         fr_response :=
                           ResultText (formatToolResult
                                         {| res_content := content';
                                            res_isError := Some false |}) |}]),
       w3) ∧
    tc_status record = success ∧
    tc_result record = Some {| res_content := content'; res_isError := Some false |} ∧
    length content' = 3 ∧
    content' !! 2 =
      Some (rehomed Sample.picture
              "https://store.example/chart-image/1700000000004.png").
Proof.
  destruct (image_rehoming Sample.searchers Sample.searchTable ([], [])
              Sample.searchCall Sample.searchInfo
              {| res_content :=
                   [ {| item_type := "text"; item_text := Some "3 results";
                        item_data := None; item_mimeType := None; item_url := None |};
                     {| item_type := "audio"; item_text := None;
                        item_data := None; item_mimeType := None; item_url := None |};
                     Sample.picture ];
                 res_isError := Some false |}
              Sample.searchWorld
              {| ticks := 4;
                 clients := clients Sample.searchWorld;
                 trace := [EvCallTool (inst_client (Sample.handle 1 "srvA"))
                             "web_search" []] |}
              eq_refl ltac:(vm_compute; reflexivity) eq_refl)
    as [(content' & record & w3 & Hrun & Hstatus & _ & Hresult & Hlen & Hitems) _].
  exists content', record, w3. split; [exact Hrun|]. split; [exact Hstatus|].
  split; [exact Hresult|]. split; [exact Hlen|].
  destruct (Hitems 2 Sample.picture eq_refl) as (new & Hnew & Hat).
  rewrite Hnew. f_equal.
  unfold rehomedAt in Hat. cbn [inlineImage] in Hat.
  change (inlineImage Sample.picture) with true in Hat.
  destruct Hat as (wi & Hticks & [(url & wi' & Hup & ->)|(e & wi' & Hup & ->)]).
  - f_equal. revert Hup.
    unfold uploadOf, uploadImageToStorage, try_catch, generateFileName. run_M.
    rewrite Hticks. vm_compute. intros Hup. inversion Hup. reflexivity.
  - exfalso. revert Hup.
    unfold uploadOf, uploadImageToStorage, try_catch, generateFileName. run_M.
    rewrite Hticks. vm_compute. discriminate.
Defined.



(** C5.  Let the first step of [connect], the teardown of an old handle of
    the same id, have gone through.  If [connect] then fails, no handle is in
    the registry under the configuration's id and the registry is as the
    teardown left it; the error is the original one: either the error of
    building the transport, in which case nothing was constructed and nothing
    else happened, or the error of the handshake, in which case the new
    client is closed once, after the failure was reported on the console,
    and what the close does (returning or throwing) changes nothing. *)
Theorem failed_connect_installs_nothing (E : Environment) (config : MCPServerConfig)
    (w w1 w' : World) (e : exn) :
  disconnect E (cfg_id config) w = (Return tt, w1) →
  connect E config w = (Throw e, w') →
  clients w' !! cfg_id config = None ∧
  clients w' = clients w1 ∧
  ((createTransport E config = inl e ∧ w' = w1) ∨
   (∃ transport,
      let client := {| client_serial := ticks w1;
                       client_name := "mcp-client-app";
                       client_version := "1.0.0" |} in
      createTransport E config = inr transport ∧
      Client_connect E (S (ticks w1)) client transport = Some e ∧
      trace w' = trace w1 ++ [EvClientConnect client transport;
                              EvConsoleError "[MCP Client] 연결 실패:";
                              EvClientClose client])).
Proof.
  intros Hdis Hrun.
  assert (Hgone : clients w1 !! cfg_id config = None).
  { rewrite (disconnect_returned E _ _ _ Hdis). apply lookup_delete_eq. }
  destruct (createTransport E config) as [e0|transport] eqn:Hbuild.
  - rewrite (connect_no_transport E _ _ _ _ Hdis Hbuild) in Hrun.
    inversion Hrun; subst. auto.
  - destruct (Client_connect E (S (ticks w1))
                {| client_serial := ticks w1; client_name := "mcp-client-app";
                   client_version := "1.0.0" |} transport) as [e0|] eqn:Hshake.
    + rewrite (connect_handshake_failed E _ _ _ _ _ Hdis Hbuild Hshake) in Hrun.
      inversion Hrun; subst. cbn. split; [exact Hgone|]. split; [reflexivity|].
      right. exists transport. cbn. auto.
    + rewrite (connect_installed E _ _ _ _ Hdis Hbuild Hshake) in Hrun. discriminate.
Qed.

Lemma failed_connect_installs_nothing_witness :
  ∃ w',
    disconnect Sample.refusing "files" Sample.emptyWorld = (Return tt, Sample.emptyWorld) ∧
    connect Sample.refusing (Sample.stdioConfig "files" None) Sample.emptyWorld =
      (Throw (JsError "MCP error -32000: Connection closed"), w') ∧
    clients w' !! "files" = None ∧
    clients w' = clients Sample.emptyWorld.
Proof.
  eexists. split; [vm_compute; reflexivity|].
  assert (Hrun : connect Sample.refusing (Sample.stdioConfig "files" None)
                   Sample.emptyWorld =
                 (Throw (JsError "MCP error -32000: Connection closed"),
                  (connect Sample.refusing (Sample.stdioConfig "files" None)
                     Sample.emptyWorld).2))
    by (vm_compute; reflexivity).
  split; [exact Hrun|].
  destruct (failed_connect_installs_nothing Sample.refusing
              (Sample.stdioConfig "files" None) Sample.emptyWorld Sample.emptyWorld _ _
              ltac:(vm_compute; reflexivity) Hrun) as (Hnone & Hsame & _).
  split; [exact Hnone | exact Hsame].
Defined.

(** C8 (as amended).  [disconnectAll] calls [close()] on the client of every
    known server id, whatever becomes of the other closes, and does nothing
    else: in particular nothing is logged.  An id whose close returns is
    removed from the registry; an id whose close throws keeps its handle, and
    then [disconnectAll] itself throws.  [disconnectAll] returns only when no
    close threw, and the registry is then empty; when it throws, the error is
    that of a close that failed, and the handle of that id is still in the
    registry. *)
Theorem disconnectAll_outcome (E : Environment) (w : World) :
  ∃ r w' closes,
    disconnectAll E w = (r, w') ∧
    trace w' = trace w ++ closes ∧
    Forall is_close closes ∧
    (∀ id instance,
       clients w !! id = Some instance →
       EvClientClose (inst_client instance) ∈ closes ∧
       ∃ n,
         (Client_close E n (inst_client instance) = None ∧ clients w' !! id = None) ∨
         (∃ e, Client_close E n (inst_client instance) = Some e ∧
               clients w' !! id = Some instance ∧ ∃ e', r = Throw e')) ∧
    (∀ id, clients w !! id = None → clients w' !! id = None) ∧
    ((r = Return tt ∧ clients w' = ∅) ∨
     (∃ e id instance n,
        r = Throw e ∧
        clients w !! id = Some instance ∧
        Client_close E n (inst_client instance) = Some e ∧
        clients w' !! id = Some instance)).
Proof.
  destruct (settle_disconnects E ((map_to_list (clients w)).*1) w)
    as (rs & w' & closes & Hrun & Htrace & Hcloses & _ & Hnone & Hin & Hrej).
  { apply NoDup_fst_map_to_list. }
  assert (Hmem : ∀ id instance,
            clients w !! id = Some instance → id ∈ (map_to_list (clients w)).*1).
  { intros id instance Hlook. apply list_elem_of_fmap. exists (id, instance).
    split; [reflexivity|]. apply elem_of_map_to_list. exact Hlook. }
  rewrite disconnectAll_run, Hrun.
  destruct (first_rejection rs) as [e|] eqn:Hfirst.
  - exists (Throw e), w', closes. split; [reflexivity|]. split; [exact Htrace|].
    split; [exact Hcloses|]. split; [|split; [exact Hnone|]].
    + intros id instance Hlook.
      destruct (Hin id instance (Hmem _ _ Hlook) Hlook) as [Hev [n Hn]].
      split; [exact Hev|]. exists n.
      destruct Hn as [Hn|(e' & ? & ? & ?)]; [left; exact Hn|]. right. eauto 10.
    + right. apply first_rejection_Some in Hfirst.
      destruct (Hrej e Hfirst) as (id & instance & n & ? & ? & ?).
      exists e, id, instance, n. auto.
  - exists (Return tt), w', closes. split; [reflexivity|]. split; [exact Htrace|].
    split; [exact Hcloses|].
    assert (Hall : ∀ id instance,
              clients w !! id = Some instance →
              EvClientClose (inst_client instance) ∈ closes ∧
              ∃ n, Client_close E n (inst_client instance) = None ∧
                   clients w' !! id = None).
    { intros id instance Hlook.
      destruct (Hin id instance (Hmem _ _ Hlook) Hlook) as [Hev [n Hn]].
      split; [exact Hev|]. exists n.
      destruct Hn as [Hn|(e' & _ & _ & Hbad)]; [exact Hn|].
      exfalso. exact (first_rejection_None _ _ Hfirst Hbad). }
    split; [|split; [exact Hnone|]].
    + intros id instance Hlook. destruct (Hall id instance Hlook) as [Hev [n Hn]].
      split; [exact Hev|]. exists n. left. exact Hn.
    + left. split; [reflexivity|]. apply map_eq. intros id. rewrite lookup_empty.
      destruct (clients w !! id) as [instance|] eqn:Hlook.
      * destruct (Hall id instance Hlook) as [_ [n [_ Hgone]]]. exact Hgone.
      * apply Hnone, Hlook.
Qed.

(** C8, as stated, fails: with two connected servers of which one cannot be
    closed, [disconnectAll] throws the error of that close; the other server
    is removed from the registry, the failing one keeps its handle, and no
    line is written to the console. *)
Lemma disconnectAll_throws :
  (disconnectAll Sample.stubborn Sample.searchWorld).1 = Throw (JsError "close failed") ∧
  clients (disconnectAll Sample.stubborn Sample.searchWorld).2 !! "srvA" =
    Some (Sample.handle 1 "srvA") ∧
  clients (disconnectAll Sample.stubborn Sample.searchWorld).2 !! "srvB" = None ∧
  Forall is_close (trace (disconnectAll Sample.stubborn Sample.searchWorld).2).
Proof.
  split; [vm_compute; reflexivity|]. split; [vm_compute; reflexivity|].
  split; [vm_compute; reflexivity|]. vm_compute. repeat constructor.
Qed.

(** C6 (as amended).  Let the SDK accept the history of the request and let
    the model propose a function call in every answer, so that the loop uses
    up its budget of 10 rounds, and let [txt k] be the text of its answer to
    the message sent after [k] others.  Then the handler answers with status
    200 after 11 calls of [chat.sendMessage], and the content of the
    response is the text of the last answer, [txt 10], when that text is not
    empty, and the fixed note otherwise.  A text that is not empty is
    returned as it is: no note is added to it, and the only report that the
    budget was used up is the warning on the console, the last thing the
    handler does. *)
Theorem exhausted_budget_response (E : Environment) (txt : nat → string)
    (req : ChatRequest) (earlier : list Message) (newest : Message) (w : World) :
  truthy (mjoin (process_env E !! "GEMINI_API_KEY")) = true →
  req_messages req = earlier ++ [newest] →
  msg_content newest ≠ "" →
  historyAccepted E req →
  alwaysProposing E txt →
  ∃ toolCalls w',
    POST E req w =
      (Return {| status := 200;
                 body := ChatBody (if decide (txt 10 = "") then truncationNote else txt 10)
                           toolCalls |}, w') ∧
    sendMessageCount (trace w') = sendMessageCount (trace w) + 11 ∧
    last (trace w') = Some (EvConsoleWarn "⚠️ [API] 최대 반복 횟수 도달").
Proof.
  intros Hkey Hmsgs Hcontent Haccept Hmodel.
  unfold historyAccepted, chatOf in Haccept. rewrite Hmsgs in Haccept.
  unfold POST, try_catch. rewrite Hkey, Hmsgs, last_snoc.
  cbn [negb fmap option_fmap option_map or_default].
  rewrite (decide_False (P := msg_content newest = "")) by exact Hcontent.
  rewrite (decide_False (P := msg_content newest = "")) by exact Hcontent.
  destruct (total_run _ w (total_registerTools E req)) as (registered & w1 & Hreg & _).
  pose proof (sends_registerTools E req w) as Hcount1. rewrite Hreg in Hcount1.
  cbn [fst snd] in Hcount1.
  rewrite run_bind, Hreg, run_bind. unfold startChat at 1. rewrite Haccept.
  cbn [mret M_ret].
  match goal with |- context [chat_sendMessage E ?c ?i] =>
    destruct (chat_sendMessage_proposing E txt Hmodel c i w1) as (fc & fcs & Hfirst)
  end.
  rewrite run_bind, Hfirst. cbn [fst snd chat_sent length].
  match goal with |- context [(functionCallingLoop E ?tm maxIterations ?s0 ≫= _) ?w0] =>
    destruct (functionCallingLoop_exhausts E txt Hmodel tm maxIterations s0 w0 0 fc fcs)
      as (s' & w' & Hloop & Hfull & Htext & Hcount2)
  end; [reflexivity | reflexivity | reflexivity |].
  rewrite run_bind, Hloop. unfold finalText.
  rewrite (bool_decide_eq_true_2 (maxIterations ≤ ls_iterationCount s'))
    by (rewrite Hfull; reflexivity).
  rewrite Htext. run_M.
  eexists _, _. split; [reflexivity|]. cbn [trace]. split; [|apply last_snoc].
  rewrite sendMessageCount_snoc. cbn [is_sendMessage].
  cbn [trace] in Hcount2. rewrite sendMessageCount_snoc in Hcount2.
  cbn [is_sendMessage] in Hcount2. unfold maxIterations in Hcount2. lia.
Qed.

Lemma exhausted_budget_response_witness :
  truthy (mjoin (process_env Sample.insistent !! "GEMINI_API_KEY")) = true ∧
  req_messages Sample.hello = [] ++ [ {| msg_role := "user"; msg_content := "what is 2+2" |} ] ∧
  "what is 2+2" ≠ "" ∧
  historyAccepted Sample.insistent Sample.hello ∧
  alwaysProposing Sample.insistent (λ _, "still working") ∧
  ∃ toolCalls w',
    POST Sample.insistent Sample.hello Sample.emptyWorld =
      (Return {| status := 200; body := ChatBody "still working" toolCalls |}, w') ∧
    sendMessageCount (trace w') = sendMessageCount (trace Sample.emptyWorld) + 11 ∧
    last (trace w') = Some (EvConsoleWarn "⚠️ [API] 최대 반복 횟수 도달").
Proof.
  assert (Hkey : truthy (mjoin (process_env Sample.insistent !! "GEMINI_API_KEY")) = true)
    by (vm_compute; reflexivity).
  assert (Hne : "what is 2+2" ≠ "") by discriminate.
  assert (Haccept : historyAccepted Sample.insistent Sample.hello)
    by (intros tools; reflexivity).
  assert (Hmodel : alwaysProposing Sample.insistent (λ _, "still working"))
    by (intros n chat input; eexists _, _; reflexivity).
  split; [exact Hkey|]. split; [reflexivity|]. split; [exact Hne|].
  split; [exact Haccept|]. split; [exact Hmodel|].
  apply (exhausted_budget_response Sample.insistent (λ _, "still working") Sample.hello
           [] {| msg_role := "user"; msg_content := "what is 2+2" |} Sample.emptyWorld
           Hkey eq_refl Hne Haccept Hmodel).
Defined.

(** C6, as stated, fails: the model proposes a call in every answer, with
    the text "still working"; after the eleventh round-trip the handler
    returns exactly that text, and the note is nowhere in the response. *)
Lemma exhausted_budget_without_note :
  (POST Sample.insistent Sample.hello Sample.emptyWorld).1 =
    Return {| status := 200; body := ChatBody "still working" None |} ∧
  sendMessageCount (trace (POST Sample.insistent Sample.hello Sample.emptyWorld).2) = 11 ∧
  contains truncationNote "still working" = false.
Proof. vm_compute. auto. Qed.

(** * Further properties of the code *)

(** ** Building a transport *)

(** X1.  [createTransport] builds a transport exactly for a stdio
    configuration with a non-empty command and for an sse or streamable-http
    configuration with a non-empty URL that parses; the kind and the fields
    of the transport are those of the configuration, and a missing [args]
    becomes the empty list. *)
Theorem createTransport_succeeds_iff (E : Environment) (config : MCPServerConfig) :
  ((∃ transport, createTransport E config = inr transport) ↔
   (cfg_transport config = "stdio" ∧ truthy (cfg_command config) = true) ∨
   ((cfg_transport config = "sse" ∨ cfg_transport config = "streamable-http") ∧
    truthy (cfg_url config) = true ∧
    URL_valid E (default "" (cfg_url config)) = true)) ∧
  (∀ transport,
     createTransport E config = inr transport →
     match transport with
     | StdioClientTransport command args env =>
         cfg_transport config = "stdio" ∧ cfg_command config = Some command ∧
         args = default [] (cfg_args config) ∧ env = stripEnv (envRaw E config)
     | SSEClientTransport url =>
         cfg_transport config = "sse" ∧ cfg_url config = Some url
     | StreamableHTTPClientTransport url =>
         cfg_transport config = "streamable-http" ∧ cfg_url config = Some url
     end).
Proof.
  unfold createTransport, new_URL.
  destruct (decide (cfg_transport config = "stdio")) as [Hstdio|Hstdio].
  { destruct (cfg_command config) as [command|] eqn:Hcommand; cbn.
    - case_bool_decide as Hne; cbn.
      + split.
        * split; [intros _; left; auto | eauto].
        * intros transport Heq. inversion Heq; subst. auto.
      + split.
        * split; [intros [? ?]; discriminate|].
          intros [[_ ?]|[[Hs|Hs] _]]; [discriminate| |]; rewrite Hstdio in Hs; discriminate.
        * intros transport Heq. discriminate.
    - split.
      + split; [intros [? ?]; discriminate|].
        intros [[_ ?]|[[Hs|Hs] _]]; [discriminate| |]; rewrite Hstdio in Hs; discriminate.
      + intros transport Heq. discriminate. }
  destruct (decide (cfg_transport config = "sse")) as [Hsse|Hsse].
  { destruct (cfg_url config) as [url|] eqn:Hurl; cbn.
    - case_bool_decide as Hne; cbn.
      + destruct (URL_valid E url) eqn:Hvalid.
        * split; [split; [intros _; right; auto | eauto]|].
          intros transport Heq. inversion Heq; subst. auto.
        * split; [|intros transport Heq; discriminate].
          split; [intros [? ?]; discriminate|].
          intros [[? _]|(_ & _ & ?)]; [contradiction | discriminate].
      + split; [|intros transport Heq; discriminate].
        split; [intros [? ?]; discriminate|].
        intros [[? _]|(_ & ? & _)]; [contradiction | discriminate].
    - split; [|intros transport Heq; discriminate].
      split; [intros [? ?]; discriminate|].
      intros [[? _]|(_ & ? & _)]; [contradiction | discriminate]. }
  destruct (decide (cfg_transport config = "streamable-http")) as [Hhttp|Hhttp].
  { destruct (cfg_url config) as [url|] eqn:Hurl; cbn.
    - case_bool_decide as Hne; cbn.
      + destruct (URL_valid E url) eqn:Hvalid.
        * split; [split; [intros _; right; auto | eauto]|].
          intros transport Heq. inversion Heq; subst. auto.
        * split; [|intros transport Heq; discriminate].
          split; [intros [? ?]; discriminate|].
          intros [[? _]|(_ & _ & ?)]; [contradiction | discriminate].
      + split; [|intros transport Heq; discriminate].
        split; [intros [? ?]; discriminate|].
        intros [[? _]|(_ & ? & _)]; [contradiction | discriminate].
    - split; [|intros transport Heq; discriminate].
      split; [intros [? ?]; discriminate|].
      intros [[? _]|(_ & ? & _)]; [contradiction | discriminate]. }
  split; [|intros transport Heq; discriminate].
  split; [intros [? ?]; discriminate|].
  intros [[? _]|[[?|?] _]]; contradiction.
Qed.

(** ** The life of a handle *)

Section Handles.
Variable E : Environment.

(** The three ways a [disconnect] can go. *)
Lemma disconnect_cases serverId w :
  (clients w !! serverId = None ∧ disconnect E serverId w = (Return tt, w)) ∨
  (∃ instance,
     clients w !! serverId = Some instance ∧
     Client_close E (ticks w) (inst_client instance) = None ∧
     disconnect E serverId w =
       (Return tt,
        {| ticks := S (ticks w); clients := delete serverId (clients w);
           trace := trace w ++ [EvClientClose (inst_client instance)] |})) ∨
  (∃ instance e,
     clients w !! serverId = Some instance ∧
     Client_close E (ticks w) (inst_client instance) = Some e ∧
     disconnect E serverId w =
       (Throw e,
        {| ticks := S (ticks w); clients := clients w;
           trace := trace w ++ [EvClientClose (inst_client instance)] |})).
Proof.
  destruct (clients w !! serverId) as [instance|] eqn:Hlook.
  - destruct (Client_close E (ticks w) (inst_client instance)) as [e|] eqn:Hclose.
    + right; right. exists instance, e. eauto using disconnect_failed.
    + right; left. exists instance. eauto using disconnect_closed.
  - left. eauto using disconnect_absent.
Qed.

(** What has happened when [connect] has returned. *)
Lemma connect_returned config w w' :
  connect E config w = (Return tt, w') →
  ∃ w1 transport,
    disconnect E (cfg_id config) w = (Return tt, w1) ∧
    createTransport E config = inr transport ∧
    w' = {| ticks := 2 + ticks w1;
            clients :=
              <[cfg_id config :=
                  {| inst_client := {| client_serial := ticks w1;
                                       client_name := "mcp-client-app";
                                       client_version := "1.0.0" |};
                     inst_transport := transport;
                     inst_config := config |}]> (clients w1);
            trace := trace w1 ++
                     [EvClientConnect {| client_serial := ticks w1;
                                         client_name := "mcp-client-app";
                                         client_version := "1.0.0" |} transport] |}.
Proof.
  intros Hrun.
  destruct (disconnect_cases (cfg_id config) w)
    as [[Hnone Hdis]|[(old & Hold & _ & Hdis)|(old & e & Hold & _ & Hdis)]];
    [| |rewrite connect_unfold, run_bind, Hdis in Hrun; discriminate].
  all: destruct (createTransport E config) as [e|transport] eqn:Hbuild;
    [rewrite (connect_no_transport E _ _ _ _ Hdis Hbuild) in Hrun; discriminate|].
  all: match type of Hdis with _ = (_, ?w1) =>
         destruct (Client_connect E (S (ticks w1))
                     {| client_serial := ticks w1; client_name := "mcp-client-app";
                        client_version := "1.0.0" |} transport) as [e|] eqn:Hshake;
         [rewrite (connect_handshake_failed E _ _ _ _ _ Hdis Hbuild Hshake) in Hrun;
          discriminate|];
         rewrite (connect_installed E _ _ _ _ Hdis Hbuild Hshake) in Hrun;
         inversion Hrun; subst w'; exists w1, transport; auto
       end.
Qed.

End Handles.

(** X2.  When [connect] returns, the registry holds a handle for the
    configuration's id that carries this configuration and the transport
    built from it, every other id is as before, and the events are: the
    close of the client that was registered under the id before, if there
    was one, followed by the handshake of the new client. *)
Theorem connect_installs_handle (E : Environment) (config : MCPServerConfig)
    (w w' : World) :
  connect E config w = (Return tt, w') →
  ∃ instance,
    clients w' !! cfg_id config = Some instance ∧
    inst_config instance = config ∧
    createTransport E config = inr (inst_transport instance) ∧
    (∀ id, id ≠ cfg_id config → clients w' !! id = clients w !! id) ∧
    trace w' =
      trace w ++
      match clients w !! cfg_id config with
      | Some old => [EvClientClose (inst_client old)]
      | None => []
      end ++
      [EvClientConnect (inst_client instance) (inst_transport instance)].
Proof.
  intros Hrun.
  destruct (connect_returned E config w w' Hrun) as (w1 & transport & Hdis & Hbuild & ->).
  cbn. eexists. split; [apply lookup_insert_eq|]. cbn.
  split; [reflexivity|]. split; [exact Hbuild|].
  destruct (disconnect_cases E (cfg_id config) w)
    as [[Hnone Hdis']|[(old & Hold & _ & Hdis')|(old & e & Hold & _ & Hdis')]];
    rewrite Hdis' in Hdis; inversion Hdis; subst w1; clear Hdis; cbn.
  - rewrite Hnone. split; [|reflexivity].
    intros id Hid. apply lookup_insert_ne. congruence.
  - rewrite Hold. split; [|rewrite <- app_assoc; reflexivity].
    intros id Hid. rewrite lookup_insert_ne by congruence.
    apply lookup_delete_ne. congruence.
Qed.

Lemma connect_installs_handle_witness :
  ∃ w',
    connect Sample.calm More.filesConfig Sample.emptyWorld = (Return tt, w') ∧
    ∃ instance,
      clients w' !! "files" = Some instance ∧
      inst_config instance = More.filesConfig.
Proof.
  eexists. split; [vm_compute; reflexivity|].
  destruct (connect_installs_handle Sample.calm More.filesConfig Sample.emptyWorld _
              ltac:(vm_compute; reflexivity)) as (instance & Hlook & Hconfig & _).
  exists instance. split; [exact Hlook | exact Hconfig].
Defined.

(** X3.  A [connect] for an id whose registered client cannot be closed
    fails with the error of that close before anything is built: no
    transport, no client, no handshake; the old handle stays in the
    registry. *)
Theorem connect_blocked_by_failing_close (E : Environment) (config : MCPServerConfig)
    (w : World) (old : MCPClientInstance) (e : exn) :
  clients w !! cfg_id config = Some old →
  Client_close E (ticks w) (inst_client old) = Some e →
  connect E config w =
    (Throw e,
     {| ticks := S (ticks w);
        clients := clients w;
        trace := trace w ++ [EvClientClose (inst_client old)] |}).
Proof.
  intros Hold Hclose.
  rewrite connect_unfold, run_bind, (disconnect_failed E _ _ _ _ Hold Hclose).
  reflexivity.
Qed.

Lemma connect_blocked_by_failing_close_witness :
  clients Sample.searchWorld !! cfg_id More.srvAConfig = Some (Sample.handle 1 "srvA") ∧
  Client_close Sample.stubborn (ticks Sample.searchWorld)
    (inst_client (Sample.handle 1 "srvA")) = Some (JsError "close failed") ∧
  (connect Sample.stubborn More.srvAConfig Sample.searchWorld).1 =
    Throw (JsError "close failed") ∧
  clients (connect Sample.stubborn More.srvAConfig Sample.searchWorld).2 !! "srvA" =
    Some (Sample.handle 1 "srvA").
Proof.
  assert (Hold : clients Sample.searchWorld !! cfg_id More.srvAConfig =
                 Some (Sample.handle 1 "srvA")) by (vm_compute; reflexivity).
  assert (Hclose : Client_close Sample.stubborn (ticks Sample.searchWorld)
                     (inst_client (Sample.handle 1 "srvA")) =
                   Some (JsError "close failed")) by reflexivity.
  split; [exact Hold|]. split; [exact Hclose|].
  rewrite (connect_blocked_by_failing_close Sample.stubborn More.srvAConfig
             Sample.searchWorld _ _ Hold Hclose).
  split; [reflexivity | exact Hold].
Defined.

(** X4.  [disconnect] touches no id but its own.  Without a handle for the
    id it does nothing at all.  When it returns there is no handle for the
    id; when it throws, the error is that of the close and the handle is
    still registered. *)
Theorem disconnect_outcome (E : Environment) (serverId : string) (w : World) :
  ∃ r w',
    disconnect E serverId w = (r, w') ∧
    r ≠ OutOfFuel ∧
    (∀ id, id ≠ serverId → clients w' !! id = clients w !! id) ∧
    (clients w !! serverId = None → r = Return tt ∧ w' = w) ∧
    (r = Return tt → clients w' !! serverId = None) ∧
    (∀ e, r = Throw e →
       clients w' = clients w ∧
       ∃ instance,
         clients w !! serverId = Some instance ∧
         Client_close E (ticks w) (inst_client instance) = Some e).
Proof.
  destruct (disconnect_cases E serverId w)
    as [[Hnone Hdis]|[(old & Hold & Hclose & Hdis)|(old & e & Hold & Hclose & Hdis)]];
    rewrite Hdis; eexists _, _; (split; [reflexivity|]); cbn.
  - split; [discriminate|]. split; [auto|]. split; [auto|]. split; [auto|].
    intros e He. discriminate.
  - split; [discriminate|]. split; [intros id Hid; apply lookup_delete_ne; congruence|].
    split; [intros Hnone; congruence|]. split; [intros _; apply lookup_delete_eq|].
    intros e He. discriminate.
  - split; [discriminate|]. split; [auto|]. split; [intros Hnone; congruence|].
    split; [discriminate|]. intros e' He'. inversion He'; subst. eauto.
Qed.

(** X5.  A [connect] that returns followed by a [disconnect] that returns
    leaves the registry as it was without the id: nothing of the connection
    remains, and the other handles are the same. *)
Theorem connect_then_disconnect (E : Environment) (config : MCPServerConfig)
    (w w1 w2 : World) :
  connect E config w = (Return tt, w1) →
  disconnect E (cfg_id config) w1 = (Return tt, w2) →
  clients w2 = delete (cfg_id config) (clients w) ∧
  (isConnected (cfg_id config) w2).1 = Return false.
Proof.
  intros Hconnect Hdisconnect.
  destruct (connect_returned E config w w1 Hconnect) as (w0 & transport & Hdis & _ & ->).
  apply disconnect_returned in Hdisconnect. apply disconnect_returned in Hdis.
  cbn in Hdisconnect.
  assert (Hclients : clients w2 = delete (cfg_id config) (clients w)).
  { rewrite Hdisconnect, Hdis. apply map_eq. intros id.
    destruct (decide (id = cfg_id config)) as [->|Hne].
    - rewrite !lookup_delete_eq. reflexivity.
    - rewrite !lookup_delete_ne by congruence.
      rewrite lookup_insert_ne by congruence. apply lookup_delete_ne. congruence. }
  split; [exact Hclients|].
  unfold isConnected. run_M. rewrite Hclients, lookup_delete_eq.
  rewrite bool_decide_eq_false_2 by (intros [? ?]; discriminate). reflexivity.
Qed.

Lemma connect_then_disconnect_witness :
  ∃ w1 w2,
    connect Sample.calm More.filesConfig Sample.emptyWorld = (Return tt, w1) ∧
    disconnect Sample.calm (cfg_id More.filesConfig) w1 = (Return tt, w2) ∧
    clients w2 = delete (cfg_id More.filesConfig) (clients Sample.emptyWorld) ∧
    (isConnected (cfg_id More.filesConfig) w2).1 = Return false.
Proof.
  eexists _, _.
  split; [vm_compute; reflexivity|]. split; [vm_compute; reflexivity|].
  eapply (connect_then_disconnect Sample.calm More.filesConfig Sample.emptyWorld);
    vm_compute; reflexivity.
Defined.

(** ** Requests to servers *)

Lemma getClient_absent serverId w :
  clients w !! serverId = None →
  getClient serverId w =
    (Throw (JsError ("Server " +:+ serverId +:+ " is not connected")), w).
Proof. intros H. unfold getClient. run_M. rewrite H. reflexivity. Qed.

Lemma getClient_present serverId w instance :
  clients w !! serverId = Some instance →
  getClient serverId w = (Return (inst_client instance), w).
Proof. intros H. unfold getClient. run_M. rewrite H. reflexivity. Qed.

(** X6.  Each of the six requests, made for an id without a handle, throws
    "Server <id> is not connected" and does nothing else: the server is not
    contacted, nothing is written, the world is the same. *)
Theorem requests_need_a_handle (E : Environment) (C : CapabilityOracles)
    (serverId : string) (w : World) :
  clients w !! serverId = None →
  let notConnected := JsError ("Server " +:+ serverId +:+ " is not connected") in
  listTools E serverId w = (Throw notConnected, w) ∧
  listPrompts C serverId w = (Throw notConnected, w) ∧
  listResources C serverId w = (Throw notConnected, w) ∧
  (∀ toolName args, callTool E serverId toolName args w = (Throw notConnected, w)) ∧
  (∀ promptName args, getPrompt C serverId promptName args w = (Throw notConnected, w)) ∧
  (∀ uri, readResource C serverId uri w = (Throw notConnected, w)).
Proof.
  intros Hnone notConnected.
  unfold listTools, listPrompts, listResources, callTool, getPrompt, readResource.
  repeat split; intros; rewrite run_bind, (getClient_absent _ _ Hnone); reflexivity.
Qed.

Lemma requests_need_a_handle_witness :
  clients Sample.emptyWorld !! "files" = None ∧
  listTools Sample.calm "files" Sample.emptyWorld =
    (Throw (JsError "Server files is not connected"), Sample.emptyWorld) ∧
  callTool Sample.calm "files" "read" [] Sample.emptyWorld =
    (Throw (JsError "Server files is not connected"), Sample.emptyWorld).
Proof.
  split; [reflexivity|].
  destruct (requests_need_a_handle Sample.calm
              {| Client_listPrompts := λ _ _, inr [];
                 Client_listResources := λ _ _, inr [];
                 Client_getPrompt := λ _ _ _ _, inl (JsError "no prompt");
                 Client_readResource := λ _ _ _, inl (JsError "no resource") |}
              "files" Sample.emptyWorld eq_refl) as (Htools & _ & _ & Hcall & _).
  split; [exact Htools | apply Hcall].
Defined.

(** X7.  [callTool] returns exactly when the server has a handle, the
    request is answered, and every content item of type ["resource"] has its
    [resource] field; one malformed resource item makes the whole call
    throw. *)
Theorem callTool_returns_iff (E : Environment) (serverId toolName : string)
    (args : Args) (w : World) :
  (∃ result w', callTool E serverId toolName args w = (Return result, w')) ↔
  (∃ instance wire,
     clients w !! serverId = Some instance ∧
     Client_callTool E (ticks w) (inst_client instance) toolName args = inr wire ∧
     Forall (λ c, wire_type c = "resource" → is_Some (wire_resource c))
       (wire_content wire)).
Proof.
  split.
  - intros (result & w' & Hrun).
    destruct (callTool_returns E _ _ _ _ _ _ Hrun) as (instance & wire & Hc & Hcall & Hmap & _).
    exists instance, wire. split; [exact Hc|]. split; [exact Hcall|].
    clear -Hmap. revert Hmap. generalize (res_content result).
    induction (wire_content wire) as [|c cs IH]; intros items Hmap; [constructor|].
    cbn in Hmap. destruct (normalizeContent c) as [e|item] eqn:Hc; [discriminate|].
    destruct (map_throwing normalizeContent cs) as [e|rest] eqn:Hrest; [discriminate|].
    constructor; [|eapply IH; reflexivity].
    intros Htype. unfold normalizeContent in Hc. rewrite Htype in Hc. cbn in Hc.
    destruct (wire_resource c); [eauto | discriminate].
  - intros (instance & wire & Hc & Hcall & Hall).
    assert (Hmap : ∃ items, map_throwing normalizeContent (wire_content wire) = inr items).
    { clear -Hall. induction Hall as [|c cs Hc _ [items IH]]; [eexists; reflexivity|].
      cbn. rewrite IH.
      assert (Hitem : ∃ item, normalizeContent c = inr item).
      { unfold normalizeContent. repeat case_decide; eauto.
        destruct (Hc ltac:(assumption)) as [r ->]. eauto. }
      destruct Hitem as [item ->]. eauto. }
    destruct Hmap as [items Hmap].
    unfold callTool. rewrite run_bind, (getClient_present _ _ _ Hc). run_M.
    rewrite Hcall. cbn. rewrite Hmap. cbn. eauto.
Qed.

(** ** Listing the registry *)

Lemma rebuilt_tools (tools : list MCPTool) :
  map (λ tool, {| tool_name := tool_name tool;
                  tool_description := tool_description tool;
                  tool_inputSchema := tool_inputSchema tool |}) tools = tools.
Proof. induction tools as [|[] tools IH]; cbn; [|rewrite IH]; reflexivity. Qed.

Section Listing.
Variable E : Environment.

(** One turn of the loop of [getAllTools], for a registered server. *)
Lemma collectTools_run results id instance w :
  clients w !! id = Some instance →
  ∃ w',
    clients w' = clients w ∧ ticks w' = S (ticks w) ∧
    match Client_listTools E (ticks w) (inst_client instance) with
    | inr tools =>
        collectTools E results (id, instance) w =
          (Return (results ++ [{| st_serverId := id;
                                  st_serverName := cfg_name (inst_config instance);
                                  st_tools := tools |}]), w')
    | inl _ => collectTools E results (id, instance) w = (Return results, w')
    end.
Proof.
  intros Hc. unfold collectTools, try_catch, listTools, getClient. run_M.
  rewrite Hc. run_M.
  destruct (Client_listTools E (ticks w) (inst_client instance)) as [e|tools]; run_M.
  - eexists. split; [|split; [|reflexivity]]; reflexivity.
  - rewrite rebuilt_tools. eexists. split; [|split; [|reflexivity]]; reflexivity.
Qed.

Lemma for_of_collectTools entries results w :
  (∀ id instance, (id, instance) ∈ entries → clients w !! id = Some instance) →
  ∃ found w',
    for_of (collectTools E) entries results w = (Return (results ++ found), w') ∧
    clients w' = clients w ∧
    ticks w' = ticks w + length entries ∧
    sublist (map st_serverId found) (map fst entries) ∧
    Forall (λ r, ∃ instance n,
              (st_serverId r, instance) ∈ entries ∧
              st_serverName r = cfg_name (inst_config instance) ∧
              ticks w ≤ n < ticks w' ∧
              Client_listTools E n (inst_client instance) = inr (st_tools r)) found ∧
    (∀ id instance tools,
       (id, instance) ∈ entries →
       (∀ n, Client_listTools E n (inst_client instance) = inr tools) →
       {| st_serverId := id;
          st_serverName := cfg_name (inst_config instance);
          st_tools := tools |} ∈ found).
Proof.
  revert results w. induction entries as [|[sid inst] entries IH]; intros results w Hreg;
    cbn [for_of].
  - exists [], w. rewrite app_nil_r. split; [reflexivity|]. split; [reflexivity|].
    split; [cbn; lia|]. split; [constructor|]. split; [constructor|].
    intros id instance tools Hin. apply elem_of_nil in Hin. contradiction.
  - destruct (collectTools_run results sid inst w) as (w1 & Hc1 & Ht1 & Hstep);
      [apply Hreg; left|].
    assert (Hreg1 : ∀ id instance, (id, instance) ∈ entries →
                                   clients w1 !! id = Some instance).
    { intros id instance Hin. rewrite Hc1. apply Hreg. right. exact Hin. }
    destruct (Client_listTools E (ticks w) (inst_client inst)) as [e|tools] eqn:Hanswer;
      rewrite run_bind, Hstep.
    + destruct (IH results w1 Hreg1) as (found & w' & Hrun & Hc & Ht & Hsub & Hall & Hkept).
      exists found, w'. split; [exact Hrun|]. split; [congruence|].
      split; [cbn; lia|]. split; [cbn; apply sublist_cons, Hsub|]. split.
      * eapply Forall_impl; [exact Hall|]. intros r (instance & n & Hin & Hname & Hn & Hr).
        exists instance, n. split; [right; exact Hin|]. split; [exact Hname|].
        split; [lia | exact Hr].
      * intros id instance tools Hin Halways. apply elem_of_cons in Hin as [Heq|Hin].
        -- inversion Heq; subst. rewrite Halways in Hanswer. discriminate.
        -- apply (Hkept id instance tools Hin Halways).
    + match goal with |- context [for_of _ _ (results ++ [?r])] =>
        destruct (IH (results ++ [r]) w1 Hreg1)
          as (found & w' & Hrun & Hc & Ht & Hsub & Hall & Hkept);
        exists (r :: found), w'
      end.
      rewrite <- app_assoc in Hrun. split; [exact Hrun|]. split; [congruence|].
      split; [cbn; lia|]. split; [cbn; apply sublist_skip, Hsub|]. split.
      * constructor.
        -- exists inst, (ticks w). cbn. split; [left|]. split; [reflexivity|].
           split; [lia | exact Hanswer].
        -- eapply Forall_impl; [exact Hall|].
           intros r (instance & n & Hin & Hname & Hn & Hr).
           exists instance, n. split; [right; exact Hin|]. split; [exact Hname|].
           split; [lia | exact Hr].
      * intros id instance tools' Hin Halways. apply elem_of_cons in Hin as [Heq|Hin].
        -- inversion Heq; subst. rewrite Halways in Hanswer. inversion Hanswer; subst.
           left.
        -- right. apply (Hkept id instance tools' Hin Halways).
Qed.

End Listing.

(** X8.  [getAllTools] never throws and leaves the registry alone.  It asks
    every connected server for its tools once, one after the other, and its
    result has one entry for each server that answers, in the order in which
    the registry lists them, with the id, the configured name and the tools
    of that answer; a server whose listing fails is left out (with a line on
    the console).  So a server that always answers with the same tools has
    its entry with these tools in the result, and no id occurs twice. *)
Theorem getAllTools_outcome (E : Environment) (w : World) :
  ∃ results w',
    getAllTools E w = (Return results, w') ∧
    clients w' = clients w ∧
    ticks w' = ticks w + size (clients w) ∧
    sublist (map st_serverId results) (map fst (map_to_list (clients w))) ∧
    NoDup (map st_serverId results) ∧
    Forall (λ r, ∃ instance n,
              clients w !! st_serverId r = Some instance ∧
              st_serverName r = cfg_name (inst_config instance) ∧
              ticks w ≤ n < ticks w' ∧
              Client_listTools E n (inst_client instance) = inr (st_tools r)) results ∧
    (∀ id instance tools,
       clients w !! id = Some instance →
       (∀ n, Client_listTools E n (inst_client instance) = inr tools) →
       {| st_serverId := id;
          st_serverName := cfg_name (inst_config instance);
          st_tools := tools |} ∈ results).
Proof.
  unfold getAllTools. rewrite run_bind. cbn [get_clients].
  destruct (for_of_collectTools E (map_to_list (clients w)) [] w)
    as (found & w' & Hrun & Hc & Ht & Hsub & Hall & Hkept).
  { intros id instance Hin. apply elem_of_map_to_list. exact Hin. }
  exists found, w'. split; [exact Hrun|]. split; [exact Hc|].
  split; [rewrite Ht, length_map_to_list; reflexivity|]. split; [exact Hsub|].
  split; [|split].
  - eapply sublist_NoDup; [|exact Hsub]. apply NoDup_fst_map_to_list.
  - eapply Forall_impl; [exact Hall|]. intros r (instance & n & Hin & Hname & Hn & Hr).
    exists instance, n. split; [apply elem_of_map_to_list; exact Hin|]. auto.
  - intros id instance tools Hlook Halways.
    apply (Hkept id instance tools); [|exact Halways].
    apply elem_of_map_to_list. exact Hlook.
Qed.

(** X9.  The three reads of the registry agree: [getConnectedServerIds]
    lists, without repetition, exactly the ids for which [isConnected]
    answers true; [getConnectedServers] lists the same ids in the same order,
    each with the configuration of its handle; the status route answers with
    the same flag for an id and with the same list without one.  None of them
    changes anything. *)
Theorem registry_reads_agree (w : World) :
  ∃ ids servers,
    getConnectedServerIds w = (Return ids, w) ∧
    getConnectedServers w = (Return servers, w) ∧
    NoDup ids ∧
    map fst servers = ids ∧
    (∀ id, id ∈ ids ↔ isConnected id w = (Return true, w)) ∧
    (∀ id, id ∉ ids ↔ isConnected id w = (Return false, w)) ∧
    (∀ id config,
       (id, config) ∈ servers ↔
       ∃ instance, clients w !! id = Some instance ∧ inst_config instance = config) ∧
    (∀ id, id ≠ "" →
       StatusRoute.GET (Some id) w =
         (Return {| route_status := 200;
                    route_body := JsonStatus id (bool_decide (id ∈ ids)) |}, w)) ∧
    StatusRoute.GET None w =
      (Return {| route_status := 200; route_body := JsonConnectedServers ids |}, w).
Proof.
  exists (map fst (map_to_list (clients w))),
         (map (λ entry, (entry.1, inst_config entry.2)) (map_to_list (clients w))).
  assert (Hmem : ∀ id, id ∈ map fst (map_to_list (clients w)) ↔
                       is_Some (clients w !! id)).
  { intros id. change (map fst (map_to_list (clients w)))
      with ((map_to_list (clients w)).*1).
    rewrite list_elem_of_fmap. split.
    - intros ([id' instance] & -> & Hin). apply elem_of_map_to_list in Hin. eauto.
    - intros [instance Hlook]. exists (id, instance). split; [reflexivity|].
      apply elem_of_map_to_list. exact Hlook. }
  split; [reflexivity|]. split; [reflexivity|].
  split; [apply NoDup_fst_map_to_list|].
  split; [rewrite map_map; reflexivity|].
  split; [|split; [|split; [|split]]].
  - intros id. rewrite Hmem. unfold isConnected. run_M. split.
    + intros H. rewrite bool_decide_eq_true_2 by exact H. reflexivity.
    + intros H. inversion H as [Hb]. apply bool_decide_eq_true in Hb. exact Hb.
  - intros id. rewrite Hmem. unfold isConnected. run_M. split.
    + intros H. rewrite bool_decide_eq_false_2 by exact H. reflexivity.
    + intros H. inversion H as [Hb]. apply bool_decide_eq_false in Hb. exact Hb.
  - intros id config.
    change (map (λ entry : string * MCPClientInstance, (entry.1, inst_config entry.2))
              (map_to_list (clients w)))
      with ((λ entry : string * MCPClientInstance, (entry.1, inst_config entry.2))
              <$> map_to_list (clients w)).
    rewrite list_elem_of_fmap. split.
    + intros ([id' instance] & Heq & Hin). inversion Heq; subst.
      apply elem_of_map_to_list in Hin. eauto.
    + intros (instance & Hlook & <-). exists (id, instance).
      split; [reflexivity|]. apply elem_of_map_to_list. exact Hlook.
  - intros id Hid. unfold StatusRoute.GET, try_catch, isConnected, json. cbn [truthy].
    rewrite bool_decide_eq_true_2 by exact Hid. run_M.
    rewrite (bool_decide_ext _ _ (Hmem id)). reflexivity.
  - reflexivity.
Qed.

(** ** Names and uploads of images *)

(** X10.  [getExtensionFromMimeType] answers with one of five extensions
    for every MIME type but two: a type that is, up to the case of its ASCII
    letters, [constructor] or [__proto__] finds a value that the table
    inherits, which is truthy and no string, so that the extension of the
    file name is the text of that value.  Any other type that is none of the
    six keys of the table gets [png]. *)
Theorem getExtensionFromMimeType_range (mimeType : string) :
  let key := toLowerCase mimeType in
  (key = "constructor" → getExtensionFromMimeType mimeType = ObjectConstructor) ∧
  (key = "__proto__" → getExtensionFromMimeType mimeType = ObjectPrototype) ∧
  (key ≠ "constructor" → key ≠ "__proto__" →
   ∃ extension,
     getExtensionFromMimeType mimeType = OwnString extension ∧
     extension ∈ knownExtensions ∧
     (¬ key ∈ knownMimeTypes → extension = "png")) ∧
  (String_of (getExtensionFromMimeType mimeType) ∈ knownExtensions ↔
   key ≠ "constructor" ∧ key ≠ "__proto__").
Proof.
  cbn zeta. unfold getExtensionFromMimeType, mimeToExt.
  generalize (toLowerCase mimeType). intros key.
  assert (Hext : ∀ s, s ∈ knownExtensions ↔
                      s = "png" ∨ s = "jpg" ∨ s = "gif" ∨ s = "webp" ∨ s = "svg").
  { intros s. unfold knownExtensions. rewrite !elem_of_cons, elem_of_nil. tauto. }
  assert (Hkey : key ∈ knownMimeTypes ↔
                 key = "image/png" ∨ key = "image/jpeg" ∨ key = "image/jpg" ∨
                 key = "image/gif" ∨ key = "image/webp" ∨ key = "image/svg+xml").
  { unfold knownMimeTypes. rewrite !elem_of_cons, elem_of_nil. tauto. }
  destruct (decide (key = "image/png")) as [->|H1];
    [cbn [default String_of]; split; [intros; discriminate|];
     split; [intros; discriminate|]; split;
     [intros _ _; eexists; split; [reflexivity|]; split; [apply Hext; tauto|];
      intros Hno; exfalso; apply Hno, Hkey; tauto
     |split; [intros _; split; discriminate | intros _; apply Hext; tauto]]|].
  destruct (decide (key = "image/jpeg")) as [->|H2];
    [cbn [default String_of]; split; [intros; discriminate|];
     split; [intros; discriminate|]; split;
     [intros _ _; eexists; split; [reflexivity|]; split; [apply Hext; tauto|];
      intros Hno; exfalso; apply Hno, Hkey; tauto
     |split; [intros _; split; discriminate | intros _; apply Hext; tauto]]|].
  destruct (decide (key = "image/jpg")) as [->|H3];
    [cbn [default String_of]; split; [intros; discriminate|];
     split; [intros; discriminate|]; split;
     [intros _ _; eexists; split; [reflexivity|]; split; [apply Hext; tauto|];
      intros Hno; exfalso; apply Hno, Hkey; tauto
     |split; [intros _; split; discriminate | intros _; apply Hext; tauto]]|].
  destruct (decide (key = "image/gif")) as [->|H4];
    [cbn [default String_of]; split; [intros; discriminate|];
     split; [intros; discriminate|]; split;
     [intros _ _; eexists; split; [reflexivity|]; split; [apply Hext; tauto|];
      intros Hno; exfalso; apply Hno, Hkey; tauto
     |split; [intros _; split; discriminate | intros _; apply Hext; tauto]]|].
  destruct (decide (key = "image/webp")) as [->|H5];
    [cbn [default String_of]; split; [intros; discriminate|];
     split; [intros; discriminate|]; split;
     [intros _ _; eexists; split; [reflexivity|]; split; [apply Hext; tauto|];
      intros Hno; exfalso; apply Hno, Hkey; tauto
     |split; [intros _; split; discriminate | intros _; apply Hext; tauto]]|].
  destruct (decide (key = "image/svg+xml")) as [->|H6];
    [cbn [default String_of]; split; [intros; discriminate|];
     split; [intros; discriminate|]; split;
     [intros _ _; eexists; split; [reflexivity|]; split; [apply Hext; tauto|];
      intros Hno; exfalso; apply Hno, Hkey; tauto
     |split; [intros _; split; discriminate | intros _; apply Hext; tauto]]|].
  destruct (decide (key = "constructor")) as [->|H7].
  { cbn [default String_of]. split; [reflexivity|]. split; [intros; discriminate|].
    split; [intros Hc; contradiction|]. rewrite Hext.
    split; [intros [?|[?|[?|[?|?]]]]; discriminate | intros [Hc _]; contradiction]. }
  destruct (decide (key = "__proto__")) as [->|H8].
  { cbn [default String_of]. split; [intros; discriminate|]. split; [reflexivity|].
    split; [intros _ Hp; contradiction|]. rewrite Hext.
    split; [intros [?|[?|[?|[?|?]]]]; discriminate | intros [_ Hp]; contradiction]. }
  cbn [default String_of]. split; [intros; contradiction|].
  split; [intros; contradiction|].
  split; [|split; [auto | intros _; apply Hext; tauto]].
  intros _ _. exists "png". split; [reflexivity|]. split; [apply Hext; tauto | reflexivity].
Qed.

(** X11.  The name of an uploaded file is the time of the clock, a dot and
    the text of the value found for the MIME type.  So two uploads whose
    MIME types find the same value get the same file name exactly when the
    clock shows the same time for both. *)
Theorem generateFileName_collides_iff (E : Environment) (mimeType1 mimeType2 : string)
    (w1 w2 : World) :
  getExtensionFromMimeType mimeType1 = getExtensionFromMimeType mimeType2 →
  (generateFileName E mimeType1 w1).1 =
    Return (pretty (Date_now E (ticks w1)) +:+ "." +:+
            String_of (getExtensionFromMimeType mimeType1)) ∧
  ((generateFileName E mimeType1 w1).1 = (generateFileName E mimeType2 w2).1 ↔
   Date_now E (ticks w1) = Date_now E (ticks w2)).
Proof.
  intros Hext. unfold generateFileName. run_M. split; [reflexivity|].
  rewrite Hext. split.
  - intros Heq. inversion Heq as [Hname].
    apply string_app_inv_tail in Hname. apply (inj pretty) in Hname. exact Hname.
  - intros ->. reflexivity.
Qed.

Lemma generateFileName_collides_iff_witness :
  getExtensionFromMimeType "image/jpeg" = getExtensionFromMimeType "image/jpg" ∧
  (generateFileName Sample.calm "image/jpeg" Sample.emptyWorld).1 =
    (generateFileName Sample.calm "image/jpg" Sample.emptyWorld).1.
Proof.
  split; [reflexivity|].
  apply (generateFileName_collides_iff Sample.calm "image/jpeg" "image/jpg"
           Sample.emptyWorld Sample.emptyWorld eq_refl).
  reflexivity.
Defined.

(** X12.  [uploadImageToStorage] returns a URL exactly when the store takes
    the file without an error and with data, and has a non-empty public URL
    for the file name; the URL returned is that one.  When the store answers
    with an error, the function throws "이미지 업로드 실패: " followed by the
    message of the store.  The payload sent is the piece of the string
    between its first comma and the next, or the whole string when there is
    no comma. *)
Theorem uploadImageToStorage_returns_iff (E : Environment) (base64Data mimeType : string)
    (w : World) :
  let fileName :=
    pretty (Date_now E (ticks w)) +:+ "." +:+
    String_of (getExtensionFromMimeType mimeType) in
  let answer :=
    Storage_upload E (S (ticks w)) fileName
      (Buffer_from_base64 E (base64Payload base64Data)) mimeType in
  (∀ url w',
     uploadImageToStorage E base64Data mimeType w = (Return url, w') ↔
     (∃ data, answer = inr {| upload_data := Some data; upload_error := None |}) ∧
     Storage_getPublicUrl E fileName = Some url ∧
     url ≠ "" ∧
     w' = {| ticks := 2 + ticks w; clients := clients w;
             trace := trace w ++ [EvStorageUpload fileName mimeType] |}) ∧
  (∀ data message,
     answer = inr {| upload_data := data; upload_error := Some message |} →
     (uploadImageToStorage E base64Data mimeType w).1 =
       Throw (JsError ("이미지 업로드 실패: " +:+ message))).
Proof.
  intros fileName answer.
  unfold uploadImageToStorage, try_catch, generateFileName. run_M.
  fold fileName. fold answer. split.
  - intros url w'.
    destruct answer as [e|[data [message|]]] eqn:Hanswer; cbn.
    + split; [discriminate | intros [[? ?] _]; discriminate].
    + split; [discriminate | intros [[? ?] _]; discriminate].
    + destruct data as [data|]; cbn.
      * destruct (Storage_getPublicUrl E fileName) as [u|] eqn:Hurl; cbn.
        -- case_bool_decide as Hne; cbn.
           ++ split.
              ** intros Heq. inversion Heq; subst. eauto 10.
              ** intros (_ & Hu & _ & ->). inversion Hu; subst. reflexivity.
           ++ split; [discriminate|].
              intros (_ & Hu & Hn & _). inversion Hu; subst. contradiction.
        -- split; [discriminate | intros (_ & ? & _); discriminate].
      * split; [discriminate | intros [[? ?] _]; discriminate].
  - intros data message ->. reflexivity.
Qed.

#[local] Arguments uploadCount : simpl never.

Lemma uploadCount_snoc (tr : list Event) (ev : Event) :
  uploadCount (tr ++ [ev]) = uploadCount tr + (if is_upload ev then 1 else 0).
Proof.
  unfold uploadCount. rewrite filter_app, length_app. f_equal.
  destruct ev; reflexivity.
Qed.

Section Batch.
Variable E : Environment.

(** Whatever becomes of it, an upload is sent to the store once. *)
Lemma uploadImageToStorage_counts data mimeType w :
  uploadCount (trace (uploadImageToStorage E data mimeType w).2) =
  S (uploadCount (trace w)).
Proof.
  unfold uploadImageToStorage, try_catch, generateFileName. run_M.
  destruct (Storage_upload E _ _ _ _) as [e|[data' [message|]]]; cbn.
  - rewrite !uploadCount_snoc. cbn. lia.
  - rewrite !uploadCount_snoc. cbn. lia.
  - destruct data'; cbn.
    + destruct (truthy _); cbn; rewrite !uploadCount_snoc; cbn; lia.
    + rewrite !uploadCount_snoc. cbn. lia.
Qed.

Lemma all_settled_uploads (images : list ImageToUpload) w :
  ∃ rs w',
    all_settled
      (map (λ img, uploadImageToStorage E (img_data img)
                     (or_default (img_mimeType img) "image/png")) images) w =
      (Return rs, w') ∧
    length rs = length images ∧
    uploadCount (trace w') = uploadCount (trace w) + length images.
Proof.
  revert w. induction images as [|img images IH]; intros w; cbn [map all_settled].
  - exists [], w. split; [reflexivity|]. split; [reflexivity|]. cbn. lia.
  - unfold try_catch. rewrite !run_bind.
    pose proof (uploadImageToStorage_counts (img_data img)
                  (or_default (img_mimeType img) "image/png") w) as Hcount.
    destruct (quiet_uploadImageToStorage E (img_data img)
                (or_default (img_mimeType img) "image/png") w) as [Hfuel _].
    destruct (uploadImageToStorage E (img_data img)
                (or_default (img_mimeType img) "image/png") w) as [[url|e|] w1];
      cbn in Hcount, Hfuel; [| |contradiction].
    + run_M. destruct (IH w1) as (rs & w' & Hrun & Hlen & Hcount').
      rewrite Hrun. exists (inr url :: rs), w'. split; [reflexivity|].
      split; [cbn; lia|]. cbn [length]. lia.
    + run_M. destruct (IH w1) as (rs & w' & Hrun & Hlen & Hcount').
      rewrite Hrun. exists (inl e :: rs), w'. split; [reflexivity|].
      split; [cbn; lia|]. cbn [length]. lia.
Qed.

Lemma fulfilled_length {A} (rs : list (exn + A)) :
  first_rejection rs = None → length (fulfilled rs) = length rs.
Proof.
  induction rs as [|[e|a] rs IH]; cbn; intros H; [reflexivity|discriminate|].
  rewrite IH by exact H. reflexivity.
Qed.

End Batch.

(** X13.  [uploadImagesToStorage] sends every image of the batch to the
    store, also when one of the uploads fails and the batch is rejected: the
    number of uploads is the number of images in every outcome.  When it
    returns, it returns one URL per image. *)
Theorem uploadImagesToStorage_outcome (E : Environment) (images : list ImageToUpload)
    (w : World) :
  (uploadImagesToStorage E images w).1 ≠ OutOfFuel ∧
  uploadCount (trace (uploadImagesToStorage E images w).2) =
    uploadCount (trace w) + length images ∧
  (∀ urls w',
     uploadImagesToStorage E images w = (Return urls, w') →
     length urls = length images).
Proof.
  unfold uploadImagesToStorage, Promise_all. rewrite run_bind.
  destruct (all_settled_uploads E images w) as (rs & w1 & Hrun & Hlen & Hcount).
  rewrite Hrun. destruct (first_rejection rs) as [e|] eqn:Hfirst; cbn.
  - split; [discriminate|]. split; [exact Hcount|]. intros urls w' Heq. discriminate.
  - split; [discriminate|]. split; [exact Hcount|].
    intros urls w' Heq. inversion Heq; subst.
    rewrite fulfilled_length by exact Hfirst. exact Hlen.
Qed.

(** ** Declarations and result texts for the model *)

(** X14.  The declaration made from a tool has the bridged name, a
    description that is never empty, parameters of type ["OBJECT"] with
    exactly the property names of the tool's input schema (none when the
    schema has no properties), each with one of the five type tags of the
    provider and the description of the schema, and the schema's list of
    required properties (empty when there is none). *)
Theorem convertMCPToolToFunctionDeclaration_shape (tool : MCPTool) (serverId : string) :
  let decl := convertMCPToolToFunctionDeclaration tool serverId in
  let properties := default ∅ (schema_properties (tool_inputSchema tool)) in
  decl_name decl = functionName serverId (tool_name tool) ∧
  decl_description decl ≠ "" ∧
  gpar_type (decl_parameters decl) = "OBJECT" ∧
  gpar_required (decl_parameters decl) =
    default [] (schema_required (tool_inputSchema tool)) ∧
  dom (gpar_properties (decl_parameters decl)) = dom properties ∧
  (∀ key prop,
     properties !! key = Some prop →
     ∃ declared,
       gpar_properties (decl_parameters decl) !! key = Some declared ∧
       gprop_type declared = schemaType prop ∧
       gprop_type declared ∈ schemaTags ∧
       gprop_description declared = prop_description prop).
Proof.
  cbn. split; [reflexivity|]. split; [|split; [reflexivity|split; [reflexivity|]]].
  - unfold or_default. destruct (tool_description tool) as [d|].
    + destruct (decide (d = "")); [discriminate | assumption].
    + discriminate.
  - destruct (schema_properties (tool_inputSchema tool)) as [props|]; cbn.
    + split; [apply dom_fmap_L|].
      intros key prop Hlook. eexists. rewrite lookup_fmap, Hlook. cbn.
      split; [reflexivity|]. split; [reflexivity|]. split; [|reflexivity].
      unfold schemaType, schemaTags. destruct (bool_decide _); [set_solver|].
      repeat (destruct (decide _); [set_solver|]). set_solver.
    + split; [reflexivity|]. intros key prop Hlook. rewrite lookup_empty in Hlook.
      discriminate.
Qed.

Lemma string_app_nonempty (s t : string) : s ≠ "" → s +:+ t ≠ "".
Proof. destruct s; [contradiction|]. intros _. rewrite string_app_cons. discriminate. Qed.

Lemma concat_nonempty (sep : string) (pieces : list string) :
  Forall (λ p, p ≠ "") pieces → pieces ≠ [] → String.concat sep pieces ≠ "".
Proof.
  intros Hall Hne. destruct Hall as [|p ps Hp _]; [contradiction|].
  cbn. destruct ps; [exact Hp | apply string_app_nonempty, Hp].
Qed.

(** X15.  The text that the model gets for a tool result is empty only for
    a result that is not an error and has no content: every content item
    contributes a piece that is not empty, and the text of an error result
    starts with "Error: ". *)
Theorem formatToolResult_empty_iff (result : MCPToolCallResult) :
  (formatToolResult result = "" ↔ isError result = false ∧ res_content result = []) ∧
  (isError result = true → ∃ rest, formatToolResult result = "Error: " +:+ rest).
Proof.
  split; [|intros Herr; unfold formatToolResult; rewrite Herr; eexists; reflexivity].
  unfold formatToolResult. destruct (isError result).
  { split; [intros Hempty; discriminate | intros [Hfalse _]; discriminate]. }
  split.
  - intros Hempty. split; [reflexivity|].
    destruct (res_content result) as [|c cs] eqn:Hcontent; [reflexivity|].
    exfalso. revert Hempty. apply concat_nonempty; [|discriminate].
    apply List.Forall_forall. intros piece Hin.
    apply List.in_map_iff in Hin as (item & <- & _).
    destruct (bool_decide (item_type item = "text") && truthy (item_text item)) eqn:Htext.
    + apply andb_true_iff in Htext as [_ Htext]. unfold truthy in Htext.
      destruct (item_text item) as [t|]; [|discriminate].
      apply bool_decide_eq_true in Htext. exact Htext.
    + destruct (decide (item_type item = "image")); [discriminate|].
      destruct (decide (item_type item = "resource")); [|discriminate].
      unfold or_default. destruct (item_text item) as [t|]; [|discriminate].
      destruct (decide (t = "")); [discriminate | assumption].
  - intros [_ ->]. reflexivity.
Qed.

(** ** The chat route: tools that fail, tables that stay empty *)

(** X16.  When the tool of a resolved call answers with [isError], the call
    is recorded with status [error], keeps the result as the server gave it
    and has no error text; the model gets the text of the result, which
    starts with "Error: ", under the key [result]; and nothing is uploaded:
    the world is the one that [callTool] left, one reading of the clock
    later. *)
Theorem executeFunctionCall_tool_error (E : Environment)
    (toolMap : gmap string ToolInfo) (acc : list ToolCall * list FunctionResponse)
    (fc : FunctionCall) (w : World) (info : ToolInfo)
    (mcpResult : MCPToolCallResult) (w1 : World) :
  toolMap !! fc_name fc = Some info →
  callTool E (ti_serverId info) (ti_toolName info) (fc_args fc) (elapsed 3 w) =
    (Return mcpResult, w1) →
  isError mcpResult = true →
  ∃ record rest,
    executeFunctionCall E toolMap acc fc w =
      (Return (acc.1 ++ [record],
               acc.2 ++ [{| fr_name := fc_name fc;
                            fr_response := ResultText ("Error: " +:+ rest) |}]),
       elapsed 1 w1) ∧
    formatToolResult mcpResult = "Error: " +:+ rest ∧
    tc_status record = error ∧
    tc_error record = None ∧
    tc_result record = Some mcpResult ∧
    tc_serverId record = ti_serverId info ∧
    tc_toolName record = ti_toolName info ∧
    tc_args record = fc_args fc.
Proof.
  intros Hres Hcall Herr.
  unfold executeFunctionCall, try_catch. rewrite Hres. run_M.
  change {| ticks := S (S (S (ticks w))); clients := clients w; trace := trace w |}
    with (elapsed 3 w).
  rewrite Hcall, Herr. cbn. rewrite insert_snoc, Herr.
  eexists _, _. split; [unfold formatToolResult; rewrite Herr; reflexivity|].
  cbn. unfold formatToolResult. rewrite Herr. auto 10.
Qed.

Lemma executeFunctionCall_tool_error_witness :
  ∃ record rest,
    executeFunctionCall More.brokenTool More.calcTable ([], [])
      {| fc_name := "calc__add"; fc_args := [] |} Sample.calcWorld =
      (Return ([] ++ [record],
               [] ++ [{| fr_name := "calc__add";
                         fr_response := ResultText ("Error: " +:+ rest) |}]),
       {| ticks := 5;
          clients := clients Sample.calcWorld;
          trace := [EvCallTool (inst_client (Sample.handle 1 "calc")) "add" []] |}) ∧
    tc_status record = error.
Proof.
  destruct (executeFunctionCall_tool_error More.brokenTool More.calcTable ([], [])
              {| fc_name := "calc__add"; fc_args := [] |} Sample.calcWorld
              {| ti_serverId := "calc"; ti_toolName := "add"; ti_serverName := "calc" |}
              {| res_content :=
                   [ {| item_type := "text"; item_text := Some "division by zero";
                        item_data := None; item_mimeType := None; item_url := None |};
                     {| item_type := "image"; item_text := None;
                        item_data := Some "iVBORw0KGgo=";
                        item_mimeType := Some "image/png"; item_url := None |} ];
                 res_isError := Some true |}
              {| ticks := 4;
                 clients := clients Sample.calcWorld;
                 trace := [EvCallTool (inst_client (Sample.handle 1 "calc")) "add" []] |})
    as (record & rest & Hrun & _ & Hstatus & _).
  - reflexivity.
  - vm_compute. reflexivity.
  - reflexivity.
  - exists record, rest. split; [exact Hrun | exact Hstatus].
Defined.

(** ** What a request adds to the trace *)

Lemma adds_ret P {A} (a : A) : adds P (mret a : M A).
Proof. intros w. exists []. cbn. rewrite app_nil_r. auto. Qed.

Lemma adds_throw P {A} (e : exn) : adds P (mthrow e : M A).
Proof. intros w. exists []. cbn. rewrite app_nil_r. auto. Qed.

Lemma adds_out_of_fuel P {A} : adds P (out_of_fuel : M A).
Proof. intros w. exists []. cbn. rewrite app_nil_r. auto. Qed.

Lemma adds_of_result P {A} (r : exn + A) : adds P (of_result r).
Proof. destruct r; [apply adds_throw | apply adds_ret]. Qed.

Lemma adds_tick P : adds P tick.
Proof. intros w. exists []. cbn. rewrite app_nil_r. auto. Qed.

Lemma adds_emit (P : Event → bool) ev : P ev = true → adds P (emit ev).
Proof. intros H w. exists [ev]. cbn. auto. Qed.

Lemma adds_bind P {A B} (m : M A) (f : A → M B) :
  adds P m → (∀ a, adds P (f a)) → adds P (m ≫= f).
Proof.
  intros Hm Hf w. rewrite run_bind. destruct (Hm w) as (evs & Htr & Hall).
  destruct (m w) as [[a| |] w1]; cbn in *; eauto.
  destruct (Hf a w1) as (evs' & Htr' & Hall').
  exists (evs ++ evs'). rewrite Htr', Htr, app_assoc. split; [reflexivity|].
  apply Forall_app; auto.
Qed.

Lemma adds_try_catch P {A} (m : M A) (h : exn → M A) :
  adds P m → (∀ e, adds P (h e)) → adds P (try_catch m h).
Proof.
  intros Hm Hh w. unfold try_catch. destruct (Hm w) as (evs & Htr & Hall).
  destruct (m w) as [[a|e|] w1]; cbn in *; eauto.
  destruct (Hh e w1) as (evs' & Htr' & Hall').
  exists (evs ++ evs'). rewrite Htr', Htr, app_assoc. split; [reflexivity|].
  apply Forall_app; auto.
Qed.

Lemma adds_bind_ret P {A B} (a : A) (f : A → M B) :
  adds P (f a) → adds P (mret a ≫= f).
Proof. intros H w. exact (H w). Qed.

Lemma adds_for_of P {A S} (step : S → A → M S) (xs : list A) (acc : S) :
  (∀ acc x, adds P (step acc x)) → adds P (for_of step xs acc).
Proof.
  intros Hstep. revert acc. induction xs as [|x xs IH]; intros acc; cbn [for_of].
  - apply adds_ret.
  - apply adds_bind; [apply Hstep | apply IH].
Qed.

Section Offline.
Variable E : Environment.

Lemma adds_startChat chat : adds offline (startChat E chat).
Proof. unfold startChat. destruct (Model_startChat E chat); [apply adds_throw | apply adds_ret]. Qed.

Lemma adds_chat_sendMessage chat input : adds offline (chat_sendMessage E chat input).
Proof.
  unfold chat_sendMessage.
  apply adds_bind; [apply adds_tick | intros n].
  apply adds_bind; [apply adds_emit; reflexivity | intros _].
  apply adds_bind; [apply adds_of_result | intros; apply adds_ret].
Qed.

Lemma adds_finalText s : adds offline (finalText s).
Proof.
  unfold finalText. case_bool_decide; [|apply adds_ret].
  apply adds_bind; [apply adds_emit; reflexivity | intros _].
  apply adds_bind; [apply adds_of_result | intros; apply adds_ret].
Qed.

(** With an empty table every proposed call is unknown. *)
Lemma adds_executeFunctionCall_empty acc fc :
  adds offline (executeFunctionCall E ∅ acc fc).
Proof.
  intros w. rewrite executeFunctionCall_unknown by apply lookup_empty.
  eexists [_]. cbn. auto.
Qed.

Lemma adds_functionCallingLoop_empty fuel s :
  adds offline (functionCallingLoop E ∅ fuel s).
Proof.
  revert s. induction fuel as [|fuel IH]; intros s; cbn [functionCallingLoop];
    case_bool_decide; try apply adds_ret; try apply adds_out_of_fuel.
  apply adds_bind; [apply adds_of_result | intros calls].
  destruct calls as [[|fc fcs]|];
    try (apply adds_bind; [apply adds_of_result | intros; apply adds_ret]).
  apply adds_bind; [apply adds_for_of, adds_executeFunctionCall_empty | intros round].
  apply adds_bind; [apply adds_chat_sendMessage | intros sent]. apply IH.
Qed.

Lemma no_record_of_empty_table (records : list ToolCall) :
  Forall (recorded ∅) records → records = [].
Proof.
  destruct 1 as [|record records (name & info & Hlook & _) _]; [reflexivity|].
  rewrite lookup_empty in Hlook. discriminate.
Qed.

Lemma registerTools_inactive req :
  req_mcpEnabled req ≠ Some true ∨ default [] (req_enabledTools req) = [] →
  registerTools E req = mret ([], ∅).
Proof.
  intros Hoff. unfold registerTools.
  destruct (req_mcpEnabled req) as [[]|], (req_enabledTools req) as [[]|];
    try reflexivity.
  destruct Hoff as [Hoff|Hoff]; [contradiction | discriminate].
Qed.

(** The ways in which the handler can answer. *)
Lemma POST_cases req w :
  let userMessage := or_default (msg_content <$> last (req_messages req)) "" in
  let key := truthy (mjoin (process_env E !! "GEMINI_API_KEY")) in
  ∃ response w',
    POST E req w = (Return response, w') ∧
    clients w' = clients w ∧
    ((key = false ∧
      response = {| status := 500;
                    body := ErrorBody "GEMINI_API_KEY가 설정되지 않았습니다." |} ∧
      sendMessageCount (trace w') = sendMessageCount (trace w)) ∨
     (key = true ∧ userMessage = "" ∧
      response = {| status := 400; body := ErrorBody "메시지가 없습니다." |} ∧
      sendMessageCount (trace w') = sendMessageCount (trace w)) ∨
     (key = true ∧ userMessage ≠ "" ∧
      response = {| status := 500; body := ErrorBody "서버 오류가 발생했습니다." |}) ∨
     (key = true ∧ userMessage ≠ "" ∧
      ∃ content registered w1 records,
        registerTools E req w = (Return registered, w1) ∧
        Forall (recorded registered.2) records ∧
        response =
          {| status := 200;
             body := ChatBody content
                       (if bool_decide (0 < length records)
                        then Some records else None) |})).
Proof.
  cbn zeta.
  destruct (total_run _ w (total_POST E req)) as (response & w' & Hrun & Hclients).
  exists response, w'. split; [exact Hrun|]. split; [exact Hclients|].
  revert Hrun. unfold POST, try_catch.
  destruct (truthy _); cbn [negb].
  2:{ run_M. intros Hrun. inversion Hrun; subst. left. cbn [trace].
      rewrite sendMessageCount_snoc. cbn. auto with lia. }
  destruct (decide _) as [Hempty|Hmessage].
  { run_M. intros Hrun. inversion Hrun; subst. right; left. cbn [trace].
    rewrite sendMessageCount_snoc. cbn. auto with lia. }
  destruct (total_run _ w (total_registerTools E req)) as (registered & w1 & Hreg & _).
  rewrite run_bind, Hreg, run_bind. unfold startChat at 1.
  destruct (Model_startChat E _) as [e|];
    [run_M; intros Hrun; inversion Hrun; subst; right; right; left; auto|].
  cbn [mret M_ret]. rewrite run_bind.
  destruct (chat_sendMessage E _ _ w1) as [[first|e|] w2];
    [|run_M; intros Hrun; inversion Hrun; subst; right; right; left; auto|discriminate].
  rewrite run_bind.
  match goal with |- context [functionCallingLoop E ?tm ?f ?s0 w2] =>
    destruct (functionCallingLoop E tm f s0 w2) as [[s'|e|] w3] eqn:Hloop
  end; [|run_M; intros Hrun; inversion Hrun; subst; right; right; left; auto|discriminate].
  apply functionCallingLoop_records in Hloop; [|constructor].
  rewrite run_bind.
  destruct (finalText s' w3) as [[final|e|] w4];
    [|run_M; intros Hrun; inversion Hrun; subst; right; right; left; auto|discriminate].
  run_M. intros Hrun. inversion Hrun; subst. right; right; right.
  split; [reflexivity|]. split; [exact Hmessage|]. eauto 10.
Qed.

End Offline.

(** X17.  A request with MCP switched off, or without enabled tools,
    contacts no server and no store: all it adds to the trace are messages
    to the model and console lines, also when the model proposes function
    calls (each is answered as unknown).  The response carries no tool call
    records. *)
Theorem POST_without_tools (E : Environment) (req : ChatRequest) (w : World) :
  req_mcpEnabled req ≠ Some true ∨ default [] (req_enabledTools req) = [] →
  ∃ response w' evs,
    POST E req w = (Return response, w') ∧
    trace w' = trace w ++ evs ∧
    Forall (λ ev, offline ev = true) evs ∧
    clients w' = clients w ∧
    (∀ content toolCalls,
       body response = ChatBody content toolCalls → toolCalls = None).
Proof.
  intros Hoff.
  assert (Hadds : adds offline (POST E req)).
  { unfold POST. rewrite (registerTools_inactive E req Hoff).
    apply adds_try_catch.
    2:{ intros e. apply adds_bind; [apply adds_emit; reflexivity | intros; apply adds_ret]. }
    destruct (negb _).
    { apply adds_bind; [apply adds_emit; reflexivity | intros; apply adds_ret]. }
    destruct (decide _).
    { apply adds_bind; [apply adds_emit; reflexivity | intros; apply adds_ret]. }
    apply adds_bind_ret. cbn [fst snd].
    apply adds_bind; [apply adds_startChat | intros _].
    apply adds_bind; [apply adds_chat_sendMessage | intros first].
    apply adds_bind; [apply adds_functionCallingLoop_empty | intros s].
    apply adds_bind; [apply adds_finalText | intros; apply adds_ret]. }
  destruct (POST_cases E req w) as (response & w' & Hrun & Hclients & Hcases).
  destruct (Hadds w) as (evs & Htrace & Hall). rewrite Hrun in Htrace.
  exists response, w', evs. split; [exact Hrun|]. split; [exact Htrace|].
  split; [exact Hall|]. split; [exact Hclients|].
  intros content toolCalls Hbody.
  destruct Hcases as [(_ & -> & _)|[(_ & _ & -> & _)|[(_ & _ & ->)|Hok]]];
    try discriminate.
  destruct Hok as (_ & _ & content' & registered & w1 & records & Hreg & Hrecs & ->).
  rewrite (registerTools_inactive E req Hoff) in Hreg. inversion Hreg; subst.
  apply no_record_of_empty_table in Hrecs. subst records.
  cbn in Hbody. inversion Hbody. reflexivity.
Qed.

Lemma POST_without_tools_witness :
  ∃ response w' evs,
    POST Sample.calm Sample.hello Sample.emptyWorld = (Return response, w') ∧
    trace w' = trace Sample.emptyWorld ++ evs ∧
    Forall (λ ev, offline ev = true) evs ∧
    clients w' = clients Sample.emptyWorld ∧
    (∀ content toolCalls,
       body response = ChatBody content toolCalls → toolCalls = None).
Proof.
  apply (POST_without_tools Sample.calm Sample.hello Sample.emptyWorld).
  left. discriminate.
Defined.

(** X18.  The handler always answers, and never changes the table of
    connected servers.  The status is 200, 400 or 500; it is 400 exactly
    when the API key is set and the last message is missing or empty, and
    then, as when the key is missing, no message is sent to the model.  An
    error body is one of three fixed texts, so the text of a provider error
    never reaches the caller; a 200 body never has an empty list of tool
    calls. *)
Theorem POST_response (E : Environment) (req : ChatRequest) (w : World) :
  let userMessage := or_default (msg_content <$> last (req_messages req)) "" in
  let key := truthy (mjoin (process_env E !! "GEMINI_API_KEY")) in
  ∃ response w',
    POST E req w = (Return response, w') ∧
    clients w' = clients w ∧
    status response ∈ [200; 400; 500] ∧
    (status response = 400 ↔ key = true ∧ userMessage = "") ∧
    (key = false → status response = 500) ∧
    (key = false ∨ userMessage = "" →
     sendMessageCount (trace w') = sendMessageCount (trace w)) ∧
    match body response with
    | ChatBody _ toolCalls => status response = 200 ∧ toolCalls ≠ Some []
    | ErrorBody message =>
        status response ≠ 200 ∧
        message ∈ ["GEMINI_API_KEY가 설정되지 않았습니다."; "메시지가 없습니다.";
                   "서버 오류가 발생했습니다."]
    end.
Proof.
  cbn zeta.
  destruct (POST_cases E req w) as (response & w' & Hrun & Hclients & Hcases).
  exists response, w'. split; [exact Hrun|]. split; [exact Hclients|].
  destruct Hcases as [(Hkey & -> & Hsends)|[(Hkey & Hmsg & -> & Hsends)|
                      [(Hkey & Hmsg & ->)|Hok]]]; cbn [status body].
  - rewrite Hkey. split; [set_solver|].
    split; [split; [intros; discriminate | intros [? _]; discriminate]|].
    split; [reflexivity|]. split; [intros _; exact Hsends|].
    split; [discriminate | set_solver].
  - rewrite Hkey. split; [set_solver|].
    split; [split; [intros _; split; [reflexivity | exact Hmsg] | reflexivity]|].
    split; [intros; discriminate|].
    split; [intros _; exact Hsends|]. split; [discriminate | set_solver].
  - rewrite Hkey. split; [set_solver|].
    split; [split; [intros; discriminate | intros [_ ?]; contradiction]|].
    split; [intros; discriminate|].
    split; [intros [?|?]; [discriminate | contradiction]|].
    split; [discriminate | set_solver].
  - destruct Hok as (Hkey & Hmsg & content & registered & w1 & records & _ & _ & ->).
    cbn [status body]. rewrite Hkey. split; [set_solver|].
    split; [split; [intros; discriminate | intros [_ ?]; contradiction]|].
    split; [intros; discriminate|].
    split; [intros [?|?]; [discriminate | contradiction]|].
    split; [reflexivity|].
    case_bool_decide as Hlen; [|discriminate].
    intros Hnil. inversion Hnil as [Hrecords]. rewrite Hrecords in Hlen. cbn in Hlen. lia.
Qed.

(** X19.  When the chat cannot be had, the handler answers 500 with the
    fixed text and not with the text of the error, and the registry is as
    before.  If the SDK refuses to start the chat (as it does for a history
    that it does not accept), no message is sent to the model; if the chat
    starts and the provider rejects the first message, exactly one is. *)
Theorem POST_model_down (E : Environment) (req : ChatRequest) (w : World) :
  truthy (mjoin (process_env E !! "GEMINI_API_KEY")) = true →
  or_default (msg_content <$> last (req_messages req)) "" ≠ "" →
  (∀ tools, is_Some (Model_startChat E (chatOf req tools))) ∨
  (historyAccepted E req ∧ ∀ n chat input, ∃ e, Chat_sendMessage E n chat input = inl e) →
  ∃ w',
    POST E req w =
      (Return {| status := 500; body := ErrorBody "서버 오류가 발생했습니다." |}, w') ∧
    sendMessageCount (trace w') =
      sendMessageCount (trace w) +
      match Model_startChat E (chatOf req None) with Some _ => 0 | None => 1 end ∧
    clients w' = clients w.
Proof.
  intros Hkey Hmsg Hdown. unfold POST, try_catch. rewrite Hkey. cbn [negb].
  destruct (decide _) as [Hempty|_]; [contradiction|].
  destruct (total_run _ w (total_registerTools E req)) as (registered & w1 & Hreg & Hcl).
  pose proof (sends_registerTools E req w) as Hcount. rewrite Hreg in Hcount.
  cbn [fst snd] in Hcount.
  rewrite run_bind, Hreg, run_bind. unfold startChat at 1.
  match goal with |- context [Model_startChat E ?chat] =>
    change chat with (chatOf req (if bool_decide (0 < length registered.1)
                                  then Some registered.1 else None))
  end.
  destruct Hdown as [Hrefused|[Haccept Hdown]].
  - destruct (Hrefused (if bool_decide (0 < length registered.1)
                        then Some registered.1 else None)) as [e ->].
    destruct (Hrefused None) as [e' ->].
    run_M. eexists. split; [reflexivity|]. cbn [trace clients].
    rewrite sendMessageCount_snoc. cbn [is_sendMessage]. split; [lia | exact Hcl].
  - rewrite !Haccept. cbn [mret M_ret]. rewrite run_bind. unfold chat_sendMessage at 1.
    match goal with |- context [Chat_sendMessage E _ ?chat ?input] =>
      destruct (Hdown (ticks w1) chat input) as [e He]
    end.
    run_M. rewrite He. cbn. eexists. split; [reflexivity|]. cbn [trace clients].
    rewrite !sendMessageCount_snoc. cbn [is_sendMessage]. split; [lia | exact Hcl].
Qed.

Lemma POST_model_down_witness :
  (∃ w',
     POST More.modelDown Sample.hello Sample.emptyWorld =
       (Return {| status := 500; body := ErrorBody "서버 오류가 발생했습니다." |}, w') ∧
     sendMessageCount (trace w') = sendMessageCount (trace Sample.emptyWorld) + 1 ∧
     clients w' = clients Sample.emptyWorld) ∧
  (∃ w',
     POST More.strictSDK More.modelFirst Sample.emptyWorld =
       (Return {| status := 500; body := ErrorBody "서버 오류가 발생했습니다." |}, w') ∧
     sendMessageCount (trace w') = sendMessageCount (trace Sample.emptyWorld) + 0 ∧
     clients w' = clients Sample.emptyWorld).
Proof.
  split.
  - apply (POST_model_down More.modelDown Sample.hello Sample.emptyWorld).
    + reflexivity.
    + vm_compute. discriminate.
    + right. split; [intros tools; reflexivity|].
      intros n chat input. eexists. reflexivity.
  - apply (POST_model_down More.strictSDK More.modelFirst Sample.emptyWorld).
    + reflexivity.
    + vm_compute. discriminate.
    + left. intros tools. eexists. reflexivity.
Defined.

(** ** A model that answers after some rounds *)

Section Rounds.
Variable E : Environment.
Variable n : nat.
Variable t : string.
Hypothesis Hmodel : answersAfter E n t.

Lemma chat_sendMessage_answers chat input w :
  ∃ response,
    chat_sendMessage E chat input w =
    (Return ({| chat_model := chat_model chat;
                chat_tools := chat_tools chat;
                chat_history := chat_history chat;
                chat_sent := chat_sent chat ++ [input] |}, response),
     {| ticks := S (ticks w);
        clients := clients w;
        trace := trace w ++ [EvSendMessage input] |}) ∧
    answerAt n t (length (chat_sent chat)) response.
Proof using Hmodel.
  destruct (Hmodel (ticks w) chat input) as [Hbefore Hafter].
  unfold chat_sendMessage. run_M.
  destruct (decide (length (chat_sent chat) < n)) as [Hlt|Hge].
  - destruct (Hbefore Hlt) as (fc & fcs & txt & Hanswer). rewrite Hanswer. cbn.
    eexists. split; [reflexivity|]. split; [eauto | lia].
  - destruct (Hafter ltac:(lia)) as (calls & Hcalls & Hanswer). rewrite Hanswer. cbn.
    eexists. split; [reflexivity|]. split; [lia | eauto].
Qed.

Hypothesis Hn : n < maxIterations.

Lemma functionCallingLoop_answers toolMap fuel s w :
  fuel + ls_iterationCount s = maxIterations →
  ls_iterationCount s ≤ n →
  length (chat_sent (ls_chat s)) = S (ls_iterationCount s) →
  answerAt n t (ls_iterationCount s) (ls_response s) →
  ∃ s' w',
    functionCallingLoop E toolMap fuel s w = (Return s', w') ∧
    ls_iterationCount s' = S n ∧
    ls_finalResponse s' = t ∧
    text (ls_response s') = inr t ∧
    sendMessageCount (trace w') =
      sendMessageCount (trace w) + (n - ls_iterationCount s) ∧
    (ls_iterationCount s = n → ls_toolCalls s' = ls_toolCalls s ∧ w' = w).
Proof using Hmodel Hn.
  revert s w.
  induction fuel as [|fuel IH]; intros s w Hbudget Hle Hsent [Hbefore Hafter];
    cbn [functionCallingLoop].
  { exfalso. cbn in Hbudget. lia. }
  rewrite bool_decide_eq_true_2 by lia.
  destruct (decide (ls_iterationCount s < n)) as [Hlt|Hge].
  - destruct (Hbefore Hlt) as (fc & fcs & txt & Hresp).
    rewrite Hresp. cbn [functionCalls of_result]. rewrite run_bind. cbn [mret M_ret].
    destruct (round_appends E toolMap (fc :: fcs) (ls_toolCalls s, []) w)
      as (records & responses & w1 & Hround & _).
    pose proof (sends_for_of (executeFunctionCall E toolMap) (fc :: fcs)
                  (ls_toolCalls s, [])
                  (λ acc x, sends_executeFunctionCall E toolMap acc x) w) as Hcount.
    rewrite run_bind, Hround. rewrite Hround in Hcount. cbn [fst snd] in Hcount |- *.
    destruct (chat_sendMessage_answers (ls_chat s) (FunctionResponses ([] ++ responses)) w1)
      as (response & Hsend & Hanswer).
    rewrite run_bind, Hsend. cbn [fst snd].
    match goal with |- context [functionCallingLoop E toolMap fuel ?s0 ?w0] =>
      destruct (IH s0 w0) as (s' & w' & Hloop & Hcounter & Hfinal & Htext & Hsends & _)
    end.
    + cbn. lia.
    + cbn. lia.
    + cbn. rewrite length_app, Hsent. cbn. lia.
    + cbn. rewrite Hsent in Hanswer. exact Hanswer.
    + exists s', w'. split; [exact Hloop|]. split; [exact Hcounter|].
      split; [exact Hfinal|]. split; [exact Htext|].
      split; [|intros Heq; exfalso; lia].
      cbn [trace ls_iterationCount] in Hsends. rewrite sendMessageCount_snoc in Hsends.
      cbn [is_sendMessage] in Hsends. lia.
  - destruct (Hafter ltac:(lia)) as (calls & Hcalls & Hresp).
    rewrite Hresp. cbn [functionCalls text of_result]. rewrite run_bind. cbn [mret M_ret].
    assert (Hcount : ls_iterationCount s = n) by lia.
    destruct Hcalls as [-> | ->]; run_M;
      (eexists _, _; split; [reflexivity|]; cbn; rewrite ?Hcount, ?Hresp;
       repeat split; auto; lia).
Qed.

End Rounds.

#[local] Arguments sendMessageCount : simpl never.

(** X20.  When the SDK accepts the history of the request, with a model
    that proposes function calls in its first [n] answers, [n] below the
    iteration limit, and then answers [t], the
    handler sends [n + 1] messages and answers 200 with [t]; only when [n]
    is the last round before the limit and [t] is empty is the text replaced
    by the note on the limit.  If the first answer already is the final one,
    the response has no tool call records. *)
Theorem POST_answers_after (E : Environment) (req : ChatRequest) (n : nat) (t : string)
    (w : World) :
  truthy (mjoin (process_env E !! "GEMINI_API_KEY")) = true →
  or_default (msg_content <$> last (req_messages req)) "" ≠ "" →
  historyAccepted E req →
  answersAfter E n t →
  n < maxIterations →
  ∃ toolCalls w',
    POST E req w =
      (Return {| status := 200;
                 body := ChatBody
                           (if bool_decide (S n = maxIterations ∧ t = "")
                            then truncationNote else t)
                           toolCalls |}, w') ∧
    sendMessageCount (trace w') = sendMessageCount (trace w) + S n ∧
    (n = 0 → toolCalls = None).
Proof.
  intros Hkey Hmsg Haccept Hmodel Hn. unfold POST, try_catch. rewrite Hkey. cbn [negb].
  destruct (decide _) as [Hempty|_]; [contradiction|].
  destruct (total_run _ w (total_registerTools E req)) as (registered & w1 & Hreg & Hcl).
  pose proof (sends_registerTools E req w) as Hcount. rewrite Hreg in Hcount.
  cbn [fst snd] in Hcount.
  rewrite run_bind, Hreg, run_bind. unfold startChat at 1.
  match goal with |- context [Model_startChat E ?chat] =>
    change chat with (chatOf req (if bool_decide (0 < length registered.1)
                                  then Some registered.1 else None))
  end.
  rewrite Haccept. cbn [mret M_ret]. unfold chatOf. rewrite run_bind.
  match goal with |- context [chat_sendMessage E ?chat ?input] =>
    destruct (chat_sendMessage_answers E n t Hmodel chat input w1)
      as (response & Hsend & Hanswer)
  end.
  rewrite Hsend. cbn [fst snd]. rewrite run_bind.
  match goal with |- context [functionCallingLoop E ?tm ?f ?s0 ?w0] =>
    destruct (functionCallingLoop_answers E n t Hmodel Hn tm f s0 w0)
      as (s' & w' & Hloop & Hcounter & Hfinal & Htext & Hsends & Hfirst)
  end; [cbn [ls_iterationCount]; lia | cbn [ls_iterationCount]; lia | reflexivity | exact Hanswer |].
  rewrite Hloop. cbn [fst snd]. rewrite run_bind. unfold finalText.
  cbn [trace ls_iterationCount] in Hsends. rewrite sendMessageCount_snoc in Hsends.
  cbn [is_sendMessage] in Hsends.
  assert (Hnone : n = 0 →
                  (if bool_decide (0 < length (ls_toolCalls s'))
                   then Some (ls_toolCalls s') else None) = None).
  { intros ->. destruct (Hfirst eq_refl) as [-> _]. reflexivity. }
  rewrite Hcounter, Htext.
  destruct (decide (S n = maxIterations)) as [Hlast|Hearlier].
  - rewrite bool_decide_eq_true_2 by lia. run_M.
    eexists _, _. split.
    { destruct (decide (t = "")) as [Hblank|Htext'].
      - rewrite (bool_decide_eq_true_2 (S n = maxIterations ∧ t = "")) by auto.
        reflexivity.
      - rewrite (bool_decide_eq_false_2 (S n = maxIterations ∧ t = ""))
          by (intros [_ ?]; contradiction).
        reflexivity. }
    split; [|exact Hnone].
    cbn [trace]. rewrite sendMessageCount_snoc. cbn [is_sendMessage]. lia.
  - rewrite bool_decide_eq_false_2 by lia. run_M. rewrite Hfinal.
    rewrite (bool_decide_eq_false_2 (S n = maxIterations ∧ t = ""))
      by (intros [? _]; contradiction).
    eexists _, _. split; [reflexivity|]. split; [lia | exact Hnone].
Qed.

Lemma POST_answers_after_witness :
  ∃ toolCalls w',
    POST Sample.calculator Sample.calcRequest Sample.calcWorld =
      (Return {| status := 200;
                 body := ChatBody
                           (if bool_decide (2 = maxIterations ∧ "4" = "")
                            then truncationNote else "4")
                           toolCalls |}, w') ∧
    sendMessageCount (trace w') = sendMessageCount (trace Sample.calcWorld) + 2 ∧
    (1 = 0 → toolCalls = None).
Proof.
  apply (POST_answers_after Sample.calculator Sample.calcRequest 1 "4" Sample.calcWorld).
  - reflexivity.
  - vm_compute. discriminate.
  - intros tools. reflexivity.
  - intros k chat input. cbn. split.
    + intros Hlen. destruct (chat_sent chat); [eauto | cbn in Hlen; lia].
    + intros Hlen. destruct (chat_sent chat); [cbn in Hlen; lia | eauto].
  - unfold maxIterations. lia.
Defined.

(** ** Enabled tools of servers that are not connected *)

Lemma registerTool_disconnected (E : Environment) acc et w :
  clients w !! et_serverId et = None →
  registerTool E acc et w =
  (Return acc,
   {| ticks := ticks w;
      clients := clients w;
      trace := trace w ++ [EvConsoleWarn ("⚠️ [API] 서버 " +:+ et_serverId et +:+
                                          "가 연결되어 있지 않습니다.")] |}).
Proof.
  intros Hnone. unfold registerTool, try_catch, isConnected. run_M.
  rewrite Hnone. reflexivity.
Qed.

(** X21.  Enabled tools whose servers have no live handle are skipped with
    one console warning each, in the order of the request: no server is
    asked for its tools, no declaration is offered to the model and the
    resolution table stays empty. *)
Theorem registerTools_disconnected (E : Environment) (req : ChatRequest) (w : World) :
  req_mcpEnabled req = Some true →
  (∀ et, et ∈ default [] (req_enabledTools req) → clients w !! et_serverId et = None) →
  registerTools E req w =
  (Return ([], ∅),
   {| ticks := ticks w;
      clients := clients w;
      trace := trace w ++
               map (λ et, EvConsoleWarn ("⚠️ [API] 서버 " +:+ et_serverId et +:+
                                         "가 연결되어 있지 않습니다."))
                 (default [] (req_enabledTools req)) |}).
Proof.
  intros Hon Hdown.
  assert (Hloop : ∀ ets acc w0,
            clients w0 = clients w →
            (∀ et, et ∈ ets → clients w !! et_serverId et = None) →
            for_of (registerTool E) ets acc w0 =
            (Return acc,
             {| ticks := ticks w0;
                clients := clients w0;
                trace := trace w0 ++
                         map (λ et, EvConsoleWarn ("⚠️ [API] 서버 " +:+ et_serverId et +:+
                                                   "가 연결되어 있지 않습니다.")) ets |})).
  { induction ets as [|et ets IH]; intros acc w0 Hcl Hall; cbn [for_of map].
    - rewrite app_nil_r. destruct w0; reflexivity.
    - rewrite run_bind, registerTool_disconnected
        by (rewrite Hcl; apply Hall; left).
      rewrite IH; [|exact Hcl|intros et' Het'; apply Hall; right; exact Het'].
      cbn [ticks clients trace]. rewrite <- app_assoc. reflexivity. }
  unfold registerTools. rewrite Hon.
  destruct (req_enabledTools req) as [[|et ets]|]; cbn [default map] in *.
  - rewrite app_nil_r. destruct w; reflexivity.
  - apply Hloop; [reflexivity | exact Hdown].
  - rewrite app_nil_r. destruct w; reflexivity.
Qed.

Lemma registerTools_disconnected_witness :
  registerTools Sample.calm Sample.searchRequest Sample.emptyWorld =
  (Return ([], ∅),
   {| ticks := 0;
      clients := ∅;
      trace := [EvConsoleWarn "⚠️ [API] 서버 srvA가 연결되어 있지 않습니다.";
                EvConsoleWarn "⚠️ [API] 서버 srvB가 연결되어 있지 않습니다."] |}).
Proof.
  apply (registerTools_disconnected Sample.calm Sample.searchRequest Sample.emptyWorld).
  - reflexivity.
  - intros et _. apply lookup_empty.
Defined.

(** ** The routes *)

Lemma truthy_default (o : option string) : truthy o = false ↔ default "" o = "".
Proof.
  destruct o as [s|]; cbn; [|tauto].
  case_bool_decide as Hs; split; intros H; try tauto; try discriminate.
Qed.

(** X22.  The disconnect route answers 400, and touches nothing, when the
    id is missing or empty or the server has no handle (where the manager's
    own [disconnect] would silently return); otherwise it closes the client
    once and answers 200 with the handle removed, or 500 with the message of
    the failed close and the handle still in place. *)
Theorem DisconnectRoute_POST_outcome (E : Environment) (serverId : option string)
    (w : World) :
  let id := default "" serverId in
  ∃ response w',
    DisconnectRoute.POST E serverId w = (Return response, w') ∧
    (((id = "" ∨ clients w !! id = None) ∧
      route_status response = 400 ∧ w' = w) ∨
     (∃ instance,
        id ≠ "" ∧ clients w !! id = Some instance ∧
        match Client_close E (ticks w) (inst_client instance) with
        | None =>
            response = {| route_status := 200; route_body := JsonDisconnected id |} ∧
            clients w' = delete id (clients w) ∧
            trace w' = trace w ++ [EvClientClose (inst_client instance)]
        | Some e =>
            response = {| route_status := 500;
                          route_body := JsonError (error_text e) |} ∧
            clients w' = clients w ∧
            trace w' = trace w ++ [EvClientClose (inst_client instance);
                                   EvConsoleError "[MCP Disconnect Error]:"]
        end)).
Proof.
  cbn zeta. unfold DisconnectRoute.POST, try_catch.
  destruct (truthy serverId) eqn:Hid; cbn [negb].
  2:{ apply truthy_default in Hid. eexists _, _. split; [reflexivity|]. left. auto. }
  assert (Hne : default "" serverId ≠ "").
  { intros Hempty. apply truthy_default in Hempty. congruence. }
  unfold isConnected, json. run_M.
  destruct (disconnect_cases E (default "" serverId) w)
    as [[Hnone Hdis]|[(old & Hold & Hclose & Hdis)|(old & e & Hold & Hclose & Hdis)]].
  - rewrite Hnone. cbn. eexists _, _. split; [reflexivity|]. left. auto.
  - rewrite Hold. cbn. unfold mbind, M_bind in Hdis |- *. rewrite Hdis. cbn.
    eexists _, _. split; [reflexivity|]. right. exists old.
    split; [exact Hne|]. split; [reflexivity|]. rewrite Hclose. auto.
  - rewrite Hold. cbn. unfold mbind, M_bind in Hdis |- *. rewrite Hdis. cbn.
    eexists _, _. split; [reflexivity|]. right. exists old.
    split; [exact Hne|]. split; [reflexivity|]. rewrite Hclose. cbn.
    rewrite <- app_assoc. auto.
Qed.

(** X23.  The two handlers of the tools route contact a server only when
    the required fields are present and not empty and the server has a
    handle; otherwise they answer 400 and touch nothing.  Past the guard
    exactly one request goes to the server's client: its answer comes back
    with status 200, also when the tool itself reports an error, and a
    rejected request or a malformed resource item gives 500 with the message
    of the error and one console line.  The registry is never changed. *)
Theorem ToolsRoute_outcome (E : Environment) (serverId toolName : option string)
    (args : option Args) (w : World) :
  let id := default "" serverId in
  let name := default "" toolName in
  (∃ response w',
     ToolsRoute.GET E serverId w = (Return response, w') ∧
     clients w' = clients w ∧
     match clients w !! id with
     | Some instance =>
         if decide (id = "") then route_status response = 400 ∧ w' = w
         else
           match Client_listTools E (ticks w) (inst_client instance) with
           | inr tools =>
               response = {| route_status := 200; route_body := JsonTools tools |} ∧
               trace w' = trace w ++ [EvListTools (inst_client instance)]
           | inl e =>
               response = {| route_status := 500;
                             route_body := JsonError (error_text e) |} ∧
               trace w' = trace w ++ [EvListTools (inst_client instance);
                                      EvConsoleError "[MCP List Tools Error]:"]
           end
     | None => route_status response = 400 ∧ w' = w
     end) ∧
  (∃ response w',
     ToolsRoute.POST E serverId toolName args w = (Return response, w') ∧
     clients w' = clients w ∧
     match clients w !! id with
     | Some instance =>
         if decide (id = "" ∨ name = "") then route_status response = 400 ∧ w' = w
         else
           let request := EvCallTool (inst_client instance) name (default [] args) in
           match Client_callTool E (ticks w) (inst_client instance) name
                   (default [] args) with
           | inr wire =>
               match map_throwing normalizeContent (wire_content wire) with
               | inr content =>
                   response =
                     {| route_status := 200;
                        route_body :=
                          JsonToolResult {| res_content := content;
                                            res_isError := wire_isError wire |} |} ∧
                   trace w' = trace w ++ [request]
               | inl e =>
                   response = {| route_status := 500;
                                 route_body := JsonError (error_text e) |} ∧
                   trace w' = trace w ++ [request;
                                          EvConsoleError "[MCP Call Tool Error]:"]
               end
           | inl e =>
               response = {| route_status := 500;
                             route_body := JsonError (error_text e) |} ∧
               trace w' = trace w ++ [request; EvConsoleError "[MCP Call Tool Error]:"]
           end
     | None => route_status response = 400 ∧ w' = w
     end).
Proof.
  cbn zeta. split.
  - unfold ToolsRoute.GET, try_catch.
    destruct (truthy serverId) eqn:Hid; cbn [negb].
    + assert (Hne : default "" serverId ≠ "").
      { intros Hempty. apply truthy_default in Hempty. congruence. }
      unfold isConnected, listTools, getClient, json. run_M.
      destruct (clients w !! default "" serverId) as [instance|] eqn:Hlook; cbn.
      2:{ eexists _, _. split; [reflexivity|]. auto. }
      rewrite Hlook. cbn. destruct (decide _) as [|_]; [contradiction|].
      destruct (Client_listTools E (ticks w) (inst_client instance)) as [e|tools]; cbn.
      * eexists _, _. split; [reflexivity|]. cbn. split; [reflexivity|].
        split; [reflexivity | rewrite <- app_assoc; reflexivity].
      * rewrite rebuilt_tools.
        eexists _, _. split; [reflexivity|]. cbn. auto.
    + apply truthy_default in Hid. rewrite Hid. unfold json. run_M.
      eexists _, _. split; [reflexivity|]. split; [reflexivity|].
      destruct (clients w !! ""); [|auto]. destruct (decide _); [auto | contradiction].
  - unfold ToolsRoute.POST, try_catch.
    destruct (truthy serverId) eqn:Hid; cbn [negb orb];
      [destruct (truthy toolName) eqn:Hname; cbn [negb]|].
    + assert (Hne : ¬ (default "" serverId = "" ∨ default "" toolName = "")).
      { intros [Hempty|Hempty]; apply truthy_default in Hempty; congruence. }
      unfold isConnected, callTool, getClient, json. run_M.
      destruct (clients w !! default "" serverId) as [instance|] eqn:Hlook; cbn.
      2:{ eexists _, _. split; [reflexivity|]. auto. }
      rewrite Hlook. cbn. destruct (decide _) as [|_]; [contradiction|].
      destruct (Client_callTool E (ticks w) (inst_client instance) _ _) as [e|wire]; cbn.
      * eexists _, _. split; [reflexivity|]. cbn. split; [reflexivity|].
        split; [reflexivity | rewrite <- app_assoc; reflexivity].
      * destruct (map_throwing normalizeContent (wire_content wire)) as [e|content]; cbn.
        -- eexists _, _. split; [reflexivity|]. cbn. split; [reflexivity|].
           split; [reflexivity | rewrite <- app_assoc; reflexivity].
        -- eexists _, _. split; [reflexivity|]. cbn. auto.
    + apply truthy_default in Hname. rewrite Hname. unfold json. run_M.
      eexists _, _. split; [reflexivity|]. split; [reflexivity|].
      destruct (clients w !! _); [|auto]. destruct (decide _) as [|Hno]; [auto|].
      exfalso. apply Hno. auto.
    + apply truthy_default in Hid. rewrite Hid. unfold json. run_M.
      eexists _, _. split; [reflexivity|]. split; [reflexivity|].
      destruct (clients w !! _); [|auto]. destruct (decide _) as [|Hno]; [auto|].
      exfalso. apply Hno. auto.
Qed.

(** ** The connection test *)

Section Test.
Variable E : Environment.
Variable C : CapabilityOracles.

(** What [connect] does to the registry, whatever its outcome. *)
Lemma connect_registry config w :
  ∃ r w',
    connect E config w = (r, w') ∧
    (∀ id, id ≠ cfg_id config → clients w' !! id = clients w !! id) ∧
    match r with
    | Return _ =>
        ∃ instance,
          clients w' !! cfg_id config = Some instance ∧ inst_config instance = config
    | Throw _ =>
        clients w' !! cfg_id config = None ∨
        clients w' !! cfg_id config = clients w !! cfg_id config
    | OutOfFuel => False
    end.
Proof.
  destruct (disconnect_cases E (cfg_id config) w)
    as [[Hnone Hdis]|[(old & Hold & _ & Hdis)|(old & e & Hold & _ & Hdis)]].
  3:{ rewrite connect_unfold, run_bind, Hdis. eexists _, _. split; [reflexivity|].
      cbn. auto. }
  all: destruct (createTransport E config) as [e|transport] eqn:Hbuild;
    [rewrite (connect_no_transport E _ _ _ _ Hdis Hbuild)|].
  all: try match type of Hdis with _ = (_, ?w1) =>
         destruct (Client_connect E (S (ticks w1))
                     {| client_serial := ticks w1; client_name := "mcp-client-app";
                        client_version := "1.0.0" |} transport) as [e|] eqn:Hshake;
         [rewrite (connect_handshake_failed E _ _ _ _ _ Hdis Hbuild Hshake)
         |rewrite (connect_installed E _ _ _ _ Hdis Hbuild Hshake)]
       end.
  all: eexists _, _; (split; [reflexivity|]); cbn.
  all: split;
    [intros id Hid;
     rewrite ?lookup_insert_ne, ?lookup_delete_ne by congruence; reflexivity|].
  all: rewrite ?lookup_insert_eq, ?lookup_delete_eq; eauto.
Qed.

Lemma quiet_listPrompts serverId : quiet (listPrompts C serverId).
Proof.
  unfold listPrompts.
  apply quiet_bind; [apply quiet_getClient | intros client]. quiet_step.
Qed.

Lemma quiet_listResources serverId : quiet (listResources C serverId).
Proof.
  unfold listResources.
  apply quiet_bind; [apply quiet_getClient | intros client]. quiet_step.
Qed.

Lemma total_capabilities serverId : total (TestRoute.capabilities E C serverId).
Proof.
  unfold TestRoute.capabilities.
  apply total_bind; [|intros tools; apply total_bind; [|intros prompts; apply total_bind;
                       [|intros resources; apply total_ret]]].
  all: apply total_try_catch; [|intros e; total_step].
  - apply quiet_listTools.
  - apply quiet_listPrompts.
  - apply quiet_listResources.
Qed.

End Test.

(** X24.  The connection test always answers.  A configuration that fails
    one of the three guards gets 400 and nothing is touched.  Otherwise the
    answer is 200 with a summary whose counts are the lengths of its
    lists, and then the registry holds a handle with this configuration, or
    500 with an error message and the suggestion that belongs to it, and
    then the id has no handle or still has the one it had.  Handles of other
    ids are never touched. *)
Theorem TestRoute_POST_outcome (E : Environment) (C : CapabilityOracles)
    (config : MCPServerConfig) (w : World) :
  ∃ response w',
    TestRoute.POST E C config w = (Return response, w') ∧
    (∀ id, id ≠ cfg_id config → clients w' !! id = clients w !! id) ∧
    match TestRoute.rejection config with
    | Some message =>
        response = {| route_status := 400; route_body := JsonError message |} ∧ w' = w
    | None =>
        (route_status response = 200 ∧
         (∃ connectTime totalTime tools prompts resources,
            route_body response =
              JsonTestPassed (cfg_id config) connectTime totalTime
                tools prompts resources ∧
            sum_count tools = length (sum_list tools) ∧
            sum_count prompts = length (sum_list prompts) ∧
            rsum_count resources = length (rsum_list resources)) ∧
         ∃ instance,
           clients w' !! cfg_id config = Some instance ∧ inst_config instance = config) ∨
        (route_status response = 500 ∧
         (∃ message connectTime,
            route_body response =
              JsonTestFailed message connectTime (TestRoute.suggestionFor message)) ∧
         (clients w' !! cfg_id config = None ∨
          clients w' !! cfg_id config = clients w !! cfg_id config))
    end.
Proof.
  unfold TestRoute.POST, try_catch at 1.
  destruct (TestRoute.rejection config) as [message|].
  { eexists _, _. split; [reflexivity|]. auto. }
  unfold isConnected. rewrite !run_bind. cbn [get_clients].
  cbn [mret M_ret]. rewrite run_bind.
  (* the old handle, if any, is released; a failure is only logged *)
  assert (Hold : ∃ w1,
            ((if bool_decide (is_Some (clients w !! cfg_id config))
              then try_catch (disconnect E (cfg_id config))
                     (λ _, console_warn "[MCP Test] 기존 연결 해제 실패:")
              else mret ()) w = (Return tt, w1)) ∧
            (∀ id, id ≠ cfg_id config → clients w1 !! id = clients w !! id) ∧
            (clients w1 !! cfg_id config = None ∨
             clients w1 !! cfg_id config = clients w !! cfg_id config)).
  { destruct (disconnect_cases E (cfg_id config) w)
      as [[Hnone Hdis]|[(old & Hold & _ & Hdis)|(old & e & Hold & _ & Hdis)]].
    - rewrite Hnone. rewrite bool_decide_eq_false_2 by (intros [? ?]; discriminate).
      eexists. split; [reflexivity|]. auto.
    - rewrite Hold. rewrite bool_decide_eq_true_2 by eauto.
      unfold try_catch. rewrite Hdis. eexists. split; [reflexivity|]. cbn.
      split; [intros id Hid; apply lookup_delete_ne; congruence|].
      left. apply lookup_delete_eq.
    - rewrite Hold. rewrite bool_decide_eq_true_2 by eauto.
      unfold try_catch. rewrite Hdis. eexists. split; [reflexivity|]. cbn. auto. }
  destruct Hold as (w1 & -> & Hothers1 & Hid1).
  rewrite run_bind. unfold tick at 1. cbn [fst snd].
  set (w2 := {| ticks := S (ticks w1); clients := clients w1; trace := trace w1 |}).
  destruct (connect_registry E config w2) as (r & w3 & Hconnect & Hothers3 & Hid3).
  unfold try_catch at 1. rewrite run_bind, Hconnect.
  destruct r as [[]|e|]; [| |contradiction].
  - rewrite run_bind. unfold tick at 1. cbn [fst snd]. rewrite run_bind.
    match goal with |- context [TestRoute.capabilities E C ?id ?w0] =>
      destruct (total_run _ w0 (total_capabilities E C id)) as (found & w4 & -> & Hcl4)
    end.
    unfold json. run_M. eexists _, _. split; [reflexivity|]. cbn.
    split; [intros id Hid; rewrite Hcl4; cbn; rewrite Hothers3 by exact Hid;
            apply Hothers1, Hid|].
    left. split; [reflexivity|]. split.
    + eexists _, _, _, _, _. split; [reflexivity|]. cbn.
      rewrite !length_map. auto.
    + rewrite Hcl4. exact Hid3.
  - unfold json. run_M. eexists _, _. split; [reflexivity|]. cbn.
    split; [intros id Hid; rewrite Hothers3 by exact Hid; apply Hothers1, Hid|].
    right. split; [reflexivity|]. split; [eauto|].
    destruct Hid3 as [Hgone|Hsame]; [auto|]. rewrite Hsame. exact Hid1.
Qed.

(** X25.  The guards of the connection test and [createTransport] agree on
    missing fields.  A configuration that passes the guards has an id and a
    name, and [createTransport] can only fail on it with an invalid URL or
    an unsupported transport type.  A configuration that is rejected for its
    command or URL is one that [createTransport] refuses too, with the same
    message except for streamable-http, where the route spells the transport
    in capitals. *)
Theorem rejection_agrees_with_createTransport (E : Environment)
    (config : MCPServerConfig) :
  (TestRoute.rejection config = None →
   cfg_id config ≠ "" ∧ cfg_name config ≠ "" ∧
   ((∃ transport, createTransport E config = inr transport) ∨
    ((cfg_transport config = "sse" ∨ cfg_transport config = "streamable-http") ∧
     createTransport E config = inl (JsTypeError "Invalid URL")) ∨
    (¬ cfg_transport config ∈ ["stdio"; "sse"; "streamable-http"] ∧
     createTransport E config =
       inl (JsError ("Unsupported transport type: " +:+ cfg_transport config))))) ∧
  (∀ message,
     TestRoute.rejection config = Some message →
     message ≠ "Missing required fields: id, name, transport" →
     ∃ e,
       createTransport E config = inl e ∧
       if decide (cfg_transport config = "streamable-http")
       then message = "STREAMABLE-HTTP transport requires a URL" ∧
            e = JsError "Streamable HTTP transport requires a URL"
       else e = JsError message).
Proof.
  unfold TestRoute.rejection, createTransport, new_URL.
  case_bool_decide as Hmissing.
  { split; [discriminate|]. intros message Heq Hne. congruence. }
  destruct (decide (cfg_transport config = "stdio")) as [Hstdio|Hstdio].
  { rewrite Hstdio, bool_decide_eq_true_2 by reflexivity. cbn [andb].
    destruct (negb (truthy (cfg_command config))).
    - split; [discriminate|]. intros message Heq _. inversion Heq; subst.
      eexists. split; [reflexivity|]. reflexivity.
    - rewrite bool_decide_eq_false_2 by (intros [?|?]; discriminate). cbn [andb].
      split; [|discriminate]. intros _.
      split; [tauto|]. split; [tauto|]. left. eauto. }
  rewrite (bool_decide_eq_false_2 (cfg_transport config = "stdio")) by exact Hstdio.
  cbn [andb].
  destruct (decide (cfg_transport config = "sse")) as [Hsse|Hsse].
  { rewrite Hsse, bool_decide_eq_true_2 by auto. cbn [andb].
    destruct (negb (truthy (cfg_url config))).
    - split; [discriminate|]. intros message Heq _. inversion Heq; subst.
      eexists. split; [reflexivity|]. reflexivity.
    - split; [|discriminate]. intros _. split; [tauto|]. split; [tauto|].
      destruct (URL_valid E _); [left; eauto | right; left; auto]. }
  destruct (decide (cfg_transport config = "streamable-http")) as [Hhttp|Hhttp].
  { rewrite bool_decide_eq_true_2 by auto. cbn [andb].
    destruct (negb (truthy (cfg_url config))).
    - split; [discriminate|]. intros message Heq _. inversion Heq; subst.
      eexists. split; [reflexivity|]. rewrite Hhttp. auto.
    - split; [|discriminate]. intros _. split; [tauto|]. split; [tauto|].
      destruct (URL_valid E _); [left; eauto | right; left; auto]. }
  rewrite bool_decide_eq_false_2 by tauto. cbn [andb].
  split; [|discriminate]. intros _. split; [tauto|]. split; [tauto|].
  right; right. split; [|reflexivity].
  rewrite !elem_of_cons, elem_of_nil. tauto.
Qed.
